(** * autoFbot: link parsing, the cloning engine and the login manager

    A shallow embedding of [forwarder.py], [user_client.py], [database.py]
    and the command gates of [bot.py], with the properties of the written
    specification stated and settled against it.

    Conventions.  Python [int] is [Z]; a [str] is a list of characters,
    a character being a code point in U+0000..U+00FF ([ascii]); a [dict]
    keyed by user id is a [gmap Z _]; an awaited call that may raise is a
    value of a sum type; the answers of the remote platform and of the
    storage driver are inputs of the model. *)

From Stdlib Require Import ZArith List String Ascii Bool Lia QArith DecimalString Sorted.
From stdpp Require Import base option gmap.
Import ListNotations.
Open Scope Z_scope.

(** ** Characters and strings *)

Definition str := list ascii.

Definition bytes (l : list nat) : str := map ascii_of_nat l.

(** [str(n)] for an [int]. *)
Definition str_of_int (n : Z) : str :=
  list_ascii_of_string (NilZero.string_of_int (Z.to_int n)).

(** A literal of the source, as the list of its characters. *)
Definition chars (x : string) : str := list_ascii_of_string x.

Arguments chars : simpl never.
Arguments bytes : simpl never.
Arguments str_of_int : simpl never.

Definition code (c : ascii) : N := N_of_ascii c.

Definition in_range (lo hi : N) (c : ascii) : bool :=
  (N.leb lo (code c)) && (N.leb (code c) hi).

(** [\d] on a [str] pattern matches the decimal digits of Unicode; below
    U+0100 these are "0".."9" only. *)
Definition is_digit (c : ascii) : bool := in_range 48 57 c.

(** [[a-zA-Z]] *)
Definition is_alpha (c : ascii) : bool := in_range 97 122 c || in_range 65 90 c.

(** [[a-zA-Z0-9]] *)
Definition is_alnum (c : ascii) : bool := is_alpha c || is_digit c.

(** [[a-zA-Z0-9_]] *)
Definition is_word (c : ascii) : bool := is_alnum c || N.eqb (code c) 95.

(** [str.isspace] below U+0100: TAB..CR, FS..US, SPACE, NEL, NBSP. *)
Definition is_space (c : ascii) : bool :=
  in_range 9 13 c || in_range 28 32 c || N.eqb (code c) 133 || N.eqb (code c) 160.

Definition is_char (x : ascii) (c : ascii) : bool := N.eqb (code c) (code x).

Fixpoint lstrip (l : str) : str :=
  match l with
  | c :: l' => if is_space c then lstrip l' else l
  | [] => []
  end.

Definition rstrip (l : str) : str := rev (lstrip (rev l)).

(** [link.strip()] *)
Definition strip (l : str) : str := rstrip (lstrip l).

Definition no_space (l : str) : bool := forallb (fun c => negb (is_space c)) l.

(** ** The built-in [int(str)]

    Base ten: surrounding white space, an optional sign, then digits,
    single underscores being allowed between two digits.  [None] stands
    for [ValueError].  The interpreter's optional cap on the number of
    digits is not part of the model. *)

Definition digit_val (c : ascii) : Z := Z.of_N (code c) - 48.

Fixpoint digits_value (acc : Z) (after_underscore : bool) (l : str) : option Z :=
  match l with
  | [] => if after_underscore then None else Some acc
  | c :: l' =>
      if is_digit c then digits_value (acc * 10 + digit_val c) false l'
      else if is_char "_" c then
        if after_underscore then None else digits_value acc true l'
      else None
  end.

Definition unsigned_value (l : str) : option Z :=
  match l with
  | [] => None
  | c :: _ => if is_digit c then digits_value 0 false l else None
  end.

Definition py_int (l : str) : option Z :=
  match strip l with
  | c :: l' =>
      if is_char "-" c then Z.opp <$> unsigned_value l'
      else if is_char "+" c then unsigned_value l'
      else unsigned_value (c :: l')
  | [] => None
  end.

Module Link.

(** ** Regular expressions as [re.match] runs them

    The fragment the four patterns of [parse_telegram_link] are written
    in: literal characters, character classes, concatenation, a greedy
    optional part, a greedy bounded repetition of a class, and capturing
    groups.  The matcher tries the alternatives in the order of the
    backtracking engine, so the groups it returns are those of the first
    successful path. *)

Inductive regex : Type :=
| Eps
| Lit (c : ascii)
| Class (p : ascii -> bool)
| Cat (r1 r2 : regex)
| Opt (r : regex)
| Repeat (p : ascii -> bool) (lo : nat) (hi : option nat)
| Group (r : regex).

Definition or_else {A} (x y : option A) : option A :=
  match x with Some v => Some v | None => y end.

Definition may_take (hi : option nat) : bool :=
  match hi with Some O => false | _ => true end.

Definition dec_hi (hi : option nat) : option nat := Nat.pred <$> hi.

(** Greedy [p{lo,hi}]: one more character first, the shorter run only
    when the rest of the pattern fails behind the longer one. *)
Fixpoint rep {R} (p : ascii -> bool) (lo : nat) (hi : option nat)
    (l : str) (k : str -> option R) : option R :=
  let stop := match lo with O => k l | S _ => None end in
  match l with
  | c :: l' =>
      if p c && may_take hi
      then or_else (rep p (Nat.pred lo) (dec_hi hi) l' k) stop
      else stop
  | [] => stop
  end.

(** The part of [l] consumed when [rest] is what is left of it. *)
Definition consumed (l rest : str) : str :=
  firstn (length l - length rest)%nat l.

Fixpoint exec {R} (r : regex) (l : str) (caps : list str)
    (k : str -> list str -> option R) : option R :=
  match r with
  | Eps => k l caps
  | Lit c =>
      match l with
      | x :: l' => if is_char c x then k l' caps else None
      | [] => None
      end
  | Class p =>
      match l with
      | x :: l' => if p x then k l' caps else None
      | [] => None
      end
  | Cat r1 r2 => exec r1 l caps (fun rest caps' => exec r2 rest caps' k)
  | Opt r1 => or_else (exec r1 l caps k) (k l caps)
  | Repeat p lo hi => rep p lo hi l (fun rest => k rest caps)
  | Group r1 =>
      exec r1 l caps (fun rest caps' => k rest (caps' ++ [consumed l rest]))
  end.

(** [re.match(pattern, link)]: the pattern must match at the start of
    [link]; nothing is required of what follows the match. *)
Definition re_match (r : regex) (l : str) : option (list str) :=
  exec r l [] (fun _ caps => Some caps).

(** [re.fullmatch]: the same with the end of the string required. *)
Definition re_fullmatch (r : regex) (l : str) : option (list str) :=
  exec r l [] (fun rest caps => match rest with [] => Some caps | _ => None end).

(** [m.group(n)], groups being numbered from 1. *)
Definition group (n : nat) (m : list str) : str := nth (Nat.pred n) m [].

Fixpoint lit (l : str) : regex :=
  match l with
  | [] => Eps
  | c :: l' => Cat (Lit c) (lit l')
  end.

Definition one_or_more (p : ascii -> bool) : regex := Repeat p 1 None.

(** [(?:https?://)?] *)
Definition scheme : regex :=
  Opt (Cat (lit (chars "http")) (Cat (Opt (Lit "s")) (lit (chars "://")))).

(** [[a-zA-Z][a-zA-Z0-9_]{3,30}[a-zA-Z0-9]] *)
Definition username : regex :=
  Cat (Class is_alpha) (Cat (Repeat is_word 3 (Some 30%nat)) (Class is_alnum)).

(** [(?:https?://)?t\.me/c/(\d+)/(\d+)] *)
Definition private_re : regex :=
  Cat scheme (Cat (lit (chars "t.me/c/"))
    (Cat (Group (one_or_more is_digit)) (Cat (Lit "/") (Group (one_or_more is_digit))))).

(** [(?:https?://)?t\.me/([a-zA-Z][a-zA-Z0-9_]{3,30}[a-zA-Z0-9])/(\d+)] *)
Definition public_re : regex :=
  Cat scheme (Cat (lit (chars "t.me/"))
    (Cat (Group username) (Cat (Lit "/") (Group (one_or_more is_digit))))).

(** [@([a-zA-Z][a-zA-Z0-9_]{3,30}[a-zA-Z0-9])/(\d+)] *)
Definition at_re : regex :=
  Cat (Lit "@") (Cat (Group username) (Cat (Lit "/") (Group (one_or_more is_digit)))).

(** [(-?\d+)/(\d+)] *)
Definition id_re : regex :=
  Cat (Group (Cat (Opt (Lit "-")) (one_or_more is_digit)))
    (Cat (Lit "/") (Group (one_or_more is_digit))).

(** ** [parse_telegram_link] *)

Inductive ChannelRef : Type :=
| ChanId (z : Z)
| ChanName (name : str).

(** What a call of the parser ends in: the returned pair, or a
    [ValueError] leaving one of the unguarded [int(...)] calls. *)
Inductive Parsed : Type :=
| Returns (channel : option ChannelRef) (message_id : option Z)
| RaisesValueError.

Definition with_int (l : str) (k : Z -> Parsed) : Parsed :=
  match py_int l with
  | Some z => k z
  | None => RaisesValueError
  end.

Definition parse_telegram_link (link : str) : Parsed :=
  let link := strip link in
  match re_match private_re link with
  | Some m =>
      with_int (chars "-100" ++ group 1 m) (fun channel_id =>
      with_int (group 2 m) (fun message_id =>
      Returns (Some (ChanId channel_id)) (Some message_id)))
  | None =>
  match re_match public_re link with
  | Some m =>
      with_int (group 2 m) (fun message_id =>
      Returns (Some (ChanName (group 1 m))) (Some message_id))
  | None =>
  match re_match at_re link with
  | Some m =>
      with_int (group 2 m) (fun message_id =>
      Returns (Some (ChanName (group 1 m))) (Some message_id))
  | None =>
  match re_match id_re link with
  | Some m =>
      with_int (group 1 m) (fun channel_id =>
      with_int (group 2 m) (fun message_id =>
      Returns (Some (ChanId channel_id)) (Some message_id)))
  | None =>
  match py_int link with
  | Some n => Returns None (Some n)
  | None => Returns None None
  end end end end end.


(** A pattern without capturing groups. *)
Fixpoint groupless (r : regex) : bool :=
  match r with
  | Eps | Lit _ | Class _ | Repeat _ _ _ => true
  | Cat r1 r2 => groupless r1 && groupless r2
  | Opt r1 => groupless r1
  | Group _ => false
  end.

(** A non-empty string of digits: what [\d+] captures. *)
Definition digit_string (g : str) : Prop := g <> [] /\ forallb is_digit g = true.

(** The strings a pattern matches, with the groups it captures: the
    language of the pattern, independent of the order in which the
    engine searches it. *)
Definition within (hi : option nat) (n : nat) : Prop :=
  match hi with Some h => (n <= h)%nat | None => True end.

Inductive Matches : regex -> str -> list str -> Prop :=
| M_Eps : Matches Eps [] []
| M_Lit c : Matches (Lit c) [c] []
| M_Class (p : ascii -> bool) c : p c = true -> Matches (Class p) [c] []
| M_Cat r1 r2 w1 w2 c1 c2 :
    Matches r1 w1 c1 -> Matches r2 w2 c2 ->
    Matches (Cat r1 r2) (w1 ++ w2) (c1 ++ c2)
| M_OptSkip r : Matches (Opt r) [] []
| M_OptTake r w c : Matches r w c -> Matches (Opt r) w c
| M_Repeat (p : ascii -> bool) lo hi w :
    forallb p w = true -> (lo <= length w)%nat -> within hi (length w) ->
    Matches (Repeat p lo hi) w []
| M_Group r w c : Matches r w c -> Matches (Group r) w (c ++ [w]).

(** [l] is, as a whole, a string of the pattern. *)
Definition in_language (r : regex) (l : str) : Prop := exists c, Matches r l c.

(** [l] begins with a string of the pattern. *)
Definition has_prefix_in (r : regex) (l : str) : Prop :=
  exists w rest, l = w ++ rest /\ in_language r w.

(** The five recognized forms read as the specification reads them: the
    whole (stripped) input is a private-channel link, a public-username
    link, the [@username/sequence] shorthand, a raw [channelId/sequence]
    pair, or a bare integer. *)
Definition recognized_form (link : str) : Prop :=
  in_language private_re (strip link) \/ in_language public_re (strip link) \/
  in_language at_re (strip link) \/ in_language id_re (strip link) \/
  is_Some (py_int (strip link)).

(** The forms as the code recognizes them: the first four by a match at
    the start of the input, the fifth on the whole of it. *)
Definition accepted_form (link : str) : Prop :=
  has_prefix_in private_re (strip link) \/ has_prefix_in public_re (strip link) \/
  has_prefix_in at_re (strip link) \/ has_prefix_in id_re (strip link) \/
  is_Some (py_int (strip link)).

(** The number a string of digits writes in base ten. *)
Definition decimal (digits : str) : Z :=
  fold_left (fun acc c => acc * 10 + digit_val c) digits 0.

(** A user name as the patterns have it: a letter, three to thirty
    letters, digits or underscores, then a letter or a digit. *)
Definition username_form (name : str) : Prop :=
  exists a w z,
    name = a :: w ++ [z]
    /\ is_alpha a = true /\ forallb is_word w = true /\ is_alnum z = true
    /\ (3 <= length w <= 30)%nat.

(** The three ways a link may begin. *)
Definition schemes : list str := [chars ""; chars "http://"; chars "https://"].

(** Nothing follows, or something the class does not take. *)
Definition stops (p : ascii -> bool) (rest : str) : Prop :=
  match rest with
  | [] => True
  | x :: _ => p x = false
  end.

End Link.

(** ** The cloning engine ([forwarder.py]) *)

Module Forwarder.

(** The attributes of a [pyrogram] message the engine reads. *)
Record Message : Type := { id : Z; empty : bool; service : bool }.

(** An exception as the two handlers closing [clone_channel] and
    [clone_range] tell it apart: [ChatForwardsRestricted], or any other
    [Exception] with its [str(e)]. *)
Inductive Raised : Type :=
| ChatForwardsRestricted
| OtherException (text : str).

(** What the platform answers to one [client.copy_message] call. *)
Inductive CopyReply : Type :=
| Copied (new_id : Z)
| RaisesChatForwardsRestricted
| RaisesRPCError (text : str)
| RaisesOther (text : str).

(** The answers to the successive attempts at one message: rate-limit
    waits, each with its duration, then an answer that ends the
    attempts. *)
Inductive CopyScript : Type :=
| Reply (r : CopyReply)
| FloodWait (value : Z) (next : CopyScript).

(** What [client.get_chat_history] yields, in order, and the exception
    ending the iteration if there is one. *)
Record History : Type := { yielded : list Message; fails : option Raised }.

(** The authenticated handle, as the engine uses it. *)
Record Client : Type := {
  get_chat_history : Z -> Z -> option Z -> History;
    (* chat_id, offset_id (0 when not given), limit *)
  copy_message_replies : Z -> Z -> Z -> CopyScript
    (* chat_id, from_chat_id, message_id *)
}.

(** What the engine does that can be observed from outside, in order. *)
Inductive Event : Type :=
| CopyMessage (message_id : Z) (depth : nat)
    (* [copy_message] entered: from the loop at depth 0, from itself
       after a rate-limit wait at depth 1, 2, ... *)
| FloodSleep (seconds : Z)
| UpdateLastMessageId (source_channel_id user_id message_id : Z)
| Progress (text : str)
| Sleep (seconds : Q).

(** [progress_callback]: absent, or a callable that returns or raises. *)
Definition Callback : Type := option (str -> option Raised).

Record Stats : Type := {
  total : Z; success : Z; failed : Z; skipped : Z; errors : list str;
  start_id : option Z; end_id : option Z
}.

(** The returned dictionary: the statistics, and the keys ["error"] and
    ["aborted"] when they are set. *)
Record Report : Type := { stats : Stats; error : option str; aborted : bool }.

Record MessageForwarder : Type := { delay_between_messages : Q }.

(** [MessageForwarder.__init__] *)
Definition init : MessageForwarder := {| delay_between_messages := 1.5 |}.

(** The pictographs opening the texts, as the bytes the source holds. *)
Definition cross : str := bytes [226; 128; 154; 195; 185; 195; 165]%nat.
Definition chart : str := bytes [239; 163; 191; 195; 188; 195; 172; 195; 164]%nat.
Definition outbox : str := bytes [239; 163; 191; 195; 188; 195; 172; 194; 167]%nat.
Definition tick : str := bytes [226; 128; 154; 195; 186; 195; 150]%nat.
Definition skip_sign : str :=
  bytes [226; 128; 154; 195; 168; 226; 137; 160; 195; 148; 226; 136; 143; 195; 168]%nat.
Definition lens : str := bytes [239; 163; 191; 195; 188; 195; 174; 195; 167]%nat.

Definition stats0 (bounds : option (Z * Z)) : Stats :=
  {| total := 0; success := 0; failed := 0; skipped := 0; errors := [];
     start_id := fst <$> bounds; end_id := snd <$> bounds |}.

Definition set_total (n : Z) (st : Stats) : Stats :=
  {| total := n; success := success st; failed := failed st;
     skipped := skipped st; errors := errors st;
     start_id := start_id st; end_id := end_id st |}.

Definition add_success (st : Stats) : Stats :=
  {| total := total st; success := success st + 1; failed := failed st;
     skipped := skipped st; errors := errors st;
     start_id := start_id st; end_id := end_id st |}.

Definition add_failed (st : Stats) : Stats :=
  {| total := total st; success := success st; failed := failed st + 1;
     skipped := skipped st; errors := errors st;
     start_id := start_id st; end_id := end_id st |}.

Definition add_skipped (st : Stats) : Stats :=
  {| total := total st; success := success st; failed := failed st;
     skipped := skipped st + 1; errors := errors st;
     start_id := start_id st; end_id := end_id st |}.

(** [if len(stats["errors"]) < 5: stats["errors"].append(...)] *)
Definition note_error (message_id : Z) (err : str) (st : Stats) : Stats :=
  if (Z.of_nat (length (errors st)) <? 5)
  then {| total := total st; success := success st; failed := failed st;
          skipped := skipped st;
          errors := errors st ++ [chars "Message " ++ str_of_int message_id ++ chars ": " ++ err];
          start_id := start_id st; end_id := end_id st |}
  else st.

(** [{**stats, "error": text, "aborted": True}] *)
Definition abort (st : Stats) (text : str) : Report :=
  {| stats := st; error := Some text; aborted := true |}.

(** [return stats] *)
Definition finished (st : Stats) : Report :=
  {| stats := st; error := None; aborted := false |}.

(** [copy_message]: the returned triple, or the exception leaving it
    (one that is no [RPCError]), with what it did. *)
Fixpoint copy_message (message_id : Z) (depth : nat) (script : CopyScript)
  : (bool * option Z * str + Raised) * list Event :=
  match script with
  | Reply r =>
      (match r with
       | Copied new_id => inl (true, Some new_id, [])
       | RaisesChatForwardsRestricted => inl (false, None, chars "forwarding_restricted")
       | RaisesRPCError text => inl (false, None, text)
       | RaisesOther text => inr (OtherException text)
       end, [CopyMessage message_id depth])
  | FloodWait value next =>
      let (res, evs) := copy_message message_id (S depth) next in
      (res, CopyMessage message_id depth :: FloodSleep value :: evs)
  end.

(** How the loop over the messages is left. *)
Inductive LoopExit : Type :=
| Exhausted (st : Stats)            (* the [for] ran to its end *)
| Return (r : Report)               (* [return] from inside the loop *)
| Raise (e : Raised) (st : Stats).  (* an exception left the loop *)

Definition progress_text (done : Z) (st : Stats) : str :=
  outbox ++ chars " Progress: " ++ str_of_int done ++ chars "/" ++ str_of_int (total st)
  ++ chars " (" ++ tick ++ chars " " ++ str_of_int (success st)
  ++ chars " | " ++ cross ++ chars " " ++ str_of_int (failed st)
  ++ chars " | " ++ skip_sign ++ chars " " ++ str_of_int (skipped st) ++ chars ")".

(** [if progress_callback and (i + 1) % 10 == 0: await progress_callback(...)] *)
Definition progress_update (cb : Callback) (i : Z) (st : Stats)
  : option Raised * list Event :=
  match cb with
  | Some f =>
      if ((i + 1) mod 10 =? 0)
      then (f (progress_text (i + 1) st), [Progress (progress_text (i + 1) st)])
      else (None, [])
  | None => (None, [])
  end.

(** The end of an iteration that did not leave the loop early: the
    progress update, then the delay. *)
Definition finish_item (self : MessageForwarder) (cb : Callback) (i : Z)
    (st : Stats) (evs : list Event) : (Stats + LoopExit) * list Event :=
  match progress_update cb i st with
  | (Some e, pevs) => (inr (Raise e st), evs ++ pevs)
  | (None, pevs) => (inl st, evs ++ pevs ++ [Sleep (delay_between_messages self)])
  end.

(** The body of the loop [for i, message in enumerate(messages)] of
    [clone_channel] and of [clone_range]; the two differ in [on_success]
    only, the high-water mark being written by the former.  The loop
    goes on to the next message with the statistics on the left, or is
    left as said on the right. *)
Definition iteration (self : MessageForwarder) (client : Client) (cb : Callback)
    (source_channel_id destination_channel_id : Z)
    (on_success : Z -> list Event)
    (i : Z) (message : Message) (st : Stats) : (Stats + LoopExit) * list Event :=
  if empty message || service message then (inl (add_skipped st), [])  (* [continue] *)
  else
    match copy_message (id message) 0
            (copy_message_replies client destination_channel_id
               source_channel_id (id message)) with
    | (inr e, evs) => (inr (Raise e st), evs)
    | (inl (ok, new_id, err), evs) =>
        if ok then finish_item self cb i (add_success st) (evs ++ on_success (id message))
        else if bool_decide (err = chars "forwarding_restricted") then
          (inr (Return (abort (add_failed st)
             (cross ++ chars " Channel has forwarding restricted. Cannot clone."))),
           evs)
        else finish_item self cb i (note_error (id message) err (add_failed st)) evs
    end.

Fixpoint process (self : MessageForwarder) (client : Client) (cb : Callback)
    (source_channel_id destination_channel_id : Z)
    (on_success : Z -> list Event)
    (i : Z) (messages : list Message) (st : Stats) : LoopExit * list Event :=
  match messages with
  | [] => (Exhausted st, [])
  | message :: rest =>
      match iteration self client cb source_channel_id destination_channel_id
              on_success i message st with
      | (inl st', evs) =>
          let (exit, evs') :=
            process self client cb source_channel_id destination_channel_id
              on_success (i + 1) rest st' in
          (exit, evs ++ evs')
      | (inr exit, evs) => (exit, evs)
      end
  end.

(** The two [except] clauses closing both entry points. *)
Definition handle (e : Raised) (st : Stats) : Report :=
  match e with
  | ChatForwardsRestricted =>
      abort st (cross ++ chars " This channel has restricted forwarding/copying. Cannot clone.")
  | OtherException text => abort st (cross ++ chars " Error: " ++ text)
  end.

Definition close (r : LoopExit * list Event) : Report * list Event :=
  match r with
  | (Exhausted st, evs) => (finished st, evs)
  | (Return rep, evs) => (rep, evs)
  | (Raise e st, evs) => (handle e st, evs)
  end.

(** [await progress_callback(text)] when a callback is given. *)
Definition announce (cb : Callback) (text : str) : option Raised * list Event :=
  match cb with
  | Some f => (f text, [Progress text])
  | None => (None, [])
  end.

(** Each entry point first collects the messages, and may return before
    any is processed; otherwise it goes on to the loop with the ordered
    list, the statistics and what it has done so far. *)
Inductive Collected : Type :=
| Early (rep : Report) (evs : list Event)
| Ready (messages : list Message) (st : Stats) (evs : list Event).

(** The loop, and the handlers around it. *)
Definition run (self : MessageForwarder) (client : Client) (cb : Callback)
    (source_channel_id destination_channel_id : Z) (on_success : Z -> list Event)
    (c : Collected) : Report * list Event :=
  match c with
  | Early rep evs => (rep, evs)
  | Ready messages st evs =>
      let (rep, evs') :=
        close (process self client cb source_channel_id destination_channel_id
                 on_success 0 messages st) in
      (rep, evs ++ evs')
  end.

(** The messages [clone_channel] keeps of those yielded. *)
Definition keep_after (start_from_message_id : Z) (l : list Message) : list Message :=
  List.filter (fun m => negb (negb (start_from_message_id =? 0)
                              && (id m <=? start_from_message_id))) l.

(** [clone_channel] up to ["# Process messages"]. *)
Definition collect_channel (client : Client) (source_channel_id : Z)
    (progress_callback : Callback) (start_from_message_id : Z)
    (limit : option Z) : Collected :=
  let st := stats0 None in
  let h := get_chat_history client source_channel_id 0 limit in
  match fails h with
  | Some e => Early (handle e st) []
  | None =>
      let messages := rev (keep_after start_from_message_id (yielded h)) in
      let st := set_total (Z.of_nat (length messages)) st in
      match announce progress_callback
              (chart ++ chars " Found " ++ str_of_int (total st)
               ++ chars " messages to clone...") with
      | (Some e, evs) => Early (handle e st) evs
      | (None, evs) => Ready messages st evs
      end
  end.

Definition clone_channel (self : MessageForwarder) (client : Client)
    (source_channel_id destination_channel_id user_id : Z)
    (progress_callback : Callback) (start_from_message_id : Z)
    (limit : option Z) : Report * list Event :=
  run self client progress_callback source_channel_id destination_channel_id
    (fun message_id => [UpdateLastMessageId source_channel_id user_id message_id])
    (collect_channel client source_channel_id progress_callback
       start_from_message_id limit).

(** The loop over the history in [clone_range]: leave at the first id
    below the range, keep the ids not above it.  [true] when the loop
    was left by [break]. *)
Fixpoint collect_range (start_message_id end_message_id : Z) (l : list Message)
  : list Message * bool :=
  match l with
  | [] => ([], false)
  | m :: l' =>
      if id m <? start_message_id then ([], true)
      else
        let (kept, broke) := collect_range start_message_id end_message_id l' in
        (if id m <=? end_message_id then m :: kept else kept, broke)
  end.

(** [clone_range] up to ["# Process messages"]. *)
Definition collect_messages (client : Client) (source_channel_id : Z)
    (start_message_id end_message_id : Z) (progress_callback : Callback)
  : Collected :=
  let st := stats0 (Some (start_message_id, end_message_id)) in
  let (start_message_id, end_message_id) :=
    if start_message_id >? end_message_id
    then (end_message_id, start_message_id)
    else (start_message_id, end_message_id) in
  match announce progress_callback
          (lens ++ chars " Fetching messages from " ++ str_of_int start_message_id
           ++ chars " to " ++ str_of_int end_message_id ++ chars "...") with
  | (Some e, evs) => Early (handle e st) evs
  | (None, evs) =>
      let h := get_chat_history client source_channel_id (end_message_id + 1)
                 (Some (end_message_id - start_message_id + 100)) in
      let (kept, broke) := collect_range start_message_id end_message_id (yielded h) in
      match (if broke then None else fails h) with
      | Some e => Early (handle e st) evs
      | None =>
          let messages := rev kept in
          let st := set_total (Z.of_nat (length messages)) st in
          if total st =? 0
          then Early (abort st (cross ++ chars " No messages found in the specified range.")) evs
          else
            match announce progress_callback
                    (chart ++ chars " Found " ++ str_of_int (total st)
                     ++ chars " messages to clone (IDs " ++ str_of_int start_message_id
                     ++ chars " - " ++ str_of_int end_message_id ++ chars ")...") with
            | (Some e, evs1) => Early (handle e st) (evs ++ evs1)
            | (None, evs1) => Ready messages st (evs ++ evs1)
            end
      end
  end.

Definition clone_range (self : MessageForwarder) (client : Client)
    (source_channel_id destination_channel_id : Z)
    (start_message_id end_message_id user_id : Z)
    (progress_callback : Callback) : Report * list Event :=
  run self client progress_callback source_channel_id destination_channel_id
    (fun _ => [])
    (collect_messages client source_channel_id start_message_id end_message_id
       progress_callback).

(** *** Notions the properties below are stated with *)

(** A message the loop skips. *)
Definition skipped_message (m : Message) : bool := empty m || service m.

(** The answer that ends the attempts at a message. *)
Fixpoint final_reply (script : CopyScript) : CopyReply :=
  match script with
  | Reply r => r
  | FloodWait _ next => final_reply next
  end.

(** The items counted so far. *)
Definition counted (st : Stats) : Z := success st + failed st + skipped st.

(** The ids [copy_message] is called on by the loop, in order. *)
Fixpoint loop_calls (evs : list Event) : list Z :=
  match evs with
  | CopyMessage message_id O :: evs' => message_id :: loop_calls evs'
  | _ :: evs' => loop_calls evs'
  | [] => []
  end.

(** The ids of all entries into [copy_message], those made again after
    a rate-limit wait included. *)
Fixpoint all_calls (evs : list Event) : list Z :=
  match evs with
  | CopyMessage message_id _ :: evs' => message_id :: all_calls evs'
  | _ :: evs' => all_calls evs'
  | [] => []
  end.

(** The durations of the inter-item delays slept, in order. *)
Fixpoint delays (evs : list Event) : list Q :=
  match evs with
  | Sleep d :: evs' => d :: delays evs'
  | _ :: evs' => delays evs'
  | [] => []
  end.

(** The events that bound the items: the loop's calls of [copy_message]
    ([false]) and the inter-item delays ([true]). *)
Fixpoint marks (evs : list Event) : list bool :=
  match evs with
  | CopyMessage _ O :: evs' => false :: marks evs'
  | Sleep _ :: evs' => true :: marks evs'
  | _ :: evs' => marks evs'
  | [] => []
  end.

(** Every call is followed by a delay before the next call, and there
    is no other delay. *)
Fixpoint call_then_delay (l : list bool) : bool :=
  match l with
  | [] => true
  | [false] => true
  | false :: true :: l' => call_then_delay l'
  | _ => false
  end.

(** A run reported as aborted at its [k]-th item: the flag, a reason
    that is not empty, and [k] items counted. *)
Definition aborted_at (k : nat) (rep : Report) : Prop :=
  aborted rep = true
  /\ (exists reason, error rep = Some reason /\ reason <> [])
  /\ counted (stats rep) = Z.of_nat k.

(** The inter-item delays of a run: each of 1.5, one between a call of
    [copy_message] by the loop and the next, and, when the run is not
    aborted, as many as messages copied or failed. *)
Definition delays_as_designed (r : Report * list Event) : Prop :=
  Forall (eq 1.5%Q) (delays (snd r))
  /\ call_then_delay (marks (snd r)) = true
  /\ (aborted (fst r) = false ->
      Z.of_nat (length (delays (snd r)))
      = success (stats (fst r)) + failed (stats (fst r))).

(** The ids of the messages of a list that the loop does not skip, in
    the order of the list. *)
Definition tried_ids (msgs : list Message) : list Z :=
  map id (List.filter (fun m => negb (skipped_message m)) msgs).

(** A message the copy of which ends the job: it is not skipped, and
    the answer that ends the attempts at it is the restriction (or an
    [RPCError] whose text is the word the loop takes for it), or an
    exception that is no [RPCError]. *)
Definition ends_job (client : Client) (source_channel_id destination_channel_id : Z)
    (m : Message) : bool :=
  negb (skipped_message m)
  && match final_reply (copy_message_replies client destination_channel_id
                          source_channel_id (id m)) with
     | Copied _ => false
     | RaisesChatForwardsRestricted => true
     | RaisesRPCError text => bool_decide (text = chars "forwarding_restricted")
     | RaisesOther _ => true
     end.

(** The messages of a list up to the first that satisfies [p], that one
    included. *)
Fixpoint up_to_first (p : Message -> bool) (msgs : list Message) : list Message :=
  match msgs with
  | [] => []
  | m :: rest => if p m then [m] else m :: up_to_first p rest
  end.

(** No sink, or one that never raises. *)
Definition quiet_sink (cb : Callback) : Prop :=
  forall f text, cb = Some f -> f text = None.

(** *** Further notions *)

(** The durations of the rate-limit waits of a script, in order. *)
Fixpoint waits (script : CopyScript) : list Z :=
  match script with
  | Reply _ => []
  | FloodWait value next => value :: waits next
  end.

(** The rate-limit waits slept, in order. *)
Fixpoint flood_sleeps (evs : list Event) : list Z :=
  match evs with
  | FloodSleep seconds :: evs' => seconds :: flood_sleeps evs'
  | _ :: evs' => flood_sleeps evs'
  | [] => []
  end.

(** The high-water marks written, in order: channel, user, message. *)
Fixpoint updates (evs : list Event) : list (Z * Z * Z) :=
  match evs with
  | UpdateLastMessageId source user message_id :: evs' =>
      (source, user, message_id) :: updates evs'
  | _ :: evs' => updates evs'
  | [] => []
  end.

(** A message that is tried and copied. *)
Definition is_copied (client : Client) (source_channel_id destination_channel_id : Z)
    (m : Message) : bool :=
  negb (skipped_message m)
  && match final_reply (copy_message_replies client destination_channel_id
                          source_channel_id (id m)) with
     | Copied _ => true
     | _ => false
     end.

(** An id within the inclusive bounds. *)
Definition in_bounds (lo hi : Z) (m : Message) : bool :=
  (lo <=? id m) && (id m <=? hi).

(** The statistics and the report with other values under the keys
    ["start_id"] and ["end_id"]. *)
Definition with_bounds (s e : option Z) (st : Stats) : Stats :=
  {| total := total st; success := success st; failed := failed st;
     skipped := skipped st; errors := errors st; start_id := s; end_id := e |}.

Definition report_with_bounds (s e : option Z) (rep : Report) : Report :=
  {| stats := with_bounds s e (stats rep); error := error rep; aborted := aborted rep |}.

(** The statistics a loop is left with. *)
Definition exit_stats (x : LoopExit) : Stats :=
  match x with
  | Exhausted st => st
  | Return rep => stats rep
  | Raise _ st => st
  end.

(** From [st] to [st'] no counter has gone down, at most [n] items have
    been counted, and the total is the same. *)
Definition counts_up_to (n : Z) (st st' : Stats) : Prop :=
  total st' = total st
  /\ success st <= success st' /\ failed st <= failed st'
  /\ skipped st <= skipped st'
  /\ counted st' <= counted st + n.

(** At most five sample errors, and no more than failures. *)
Definition errors_bounded (st : Stats) : Prop :=
  (length (errors st) <= 5)%nat /\ Z.of_nat (length (errors st)) <= failed st.

(** What a job does apart from telling its progress. *)
Definition is_progress (e : Event) : bool :=
  match e with
  | Progress _ => true
  | _ => false
  end.

Definition acts (evs : list Event) : list Event :=
  List.filter (fun e => negb (is_progress e)) evs.

(** The texts handed to the sink, in order. *)
Fixpoint progress_texts (evs : list Event) : list str :=
  match evs with
  | Progress text :: evs' => text :: progress_texts evs'
  | _ :: evs' => progress_texts evs'
  | [] => []
  end.

(** A progress line of the loop of a job over [n] messages that says
    what is so: it is written from statistics whose three tallies add
    up to the position it shows, a multiple of ten between 1 and [n],
    and whose total is [n]. *)
Definition tally_text (n : Z) (text : str) : Prop :=
  exists st,
    text = progress_text (counted st) st
    /\ counted st mod 10 = 0
    /\ 0 < counted st <= n
    /\ total st = n.

End Forwarder.

(** ** Awaited calls that may raise, over a mutable object *)

Module Runtime.

(** The exception classes the handlers of [user_client.py] name.
    [PhoneCodeInvalid] and [PhoneCodeExpired] are [BadRequest]s;
    [BadRequest] here is any other one (a wrong password among them),
    [OtherError] any other [Exception]. *)
Inductive ExnKind : Type :=
| FloodWait | SessionPasswordNeeded | PhoneCodeInvalid | PhoneCodeExpired
| BadRequest | OtherError.

(** An exception: its class, [e.value] and [str(e)]. *)
Record Exn : Type := { kind : ExnKind; value : Z; text : str }.

Definition is_BadRequest (e : Exn) : bool :=
  match kind e with
  | PhoneCodeInvalid | PhoneCodeExpired | BadRequest => true
  | _ => false
  end.

Inductive Outcome (A : Type) : Type :=
| Ret (a : A)
| Raises (e : Exn).
Arguments Ret {A} a.
Arguments Raises {A} e.

(** A coroutine over an object of type [S]: what it returns or raises,
    and the object as it leaves it. *)
Definition M (S A : Type) : Type := S -> Outcome A * S.

Definition ret {S A} (a : A) : M S A := fun st => (Ret a, st).

Definition raise {S A} (e : Exn) : M S A := fun st => (Raises e, st).

Definition bind {S A B} (m : M S A) (k : A -> M S B) : M S B :=
  fun st =>
    match m st with
    | (Ret a, st') => k a st'
    | (Raises e, st') => (Raises e, st')
    end.

(** [try: m  except Exception as e: handler e] *)
Definition try_except {S A} (m : M S A) (handler : Exn -> M S A) : M S A :=
  fun st =>
    match m st with
    | (Ret a, st') => (Ret a, st')
    | (Raises e, st') => handler e st'
    end.

Definition gets {S A} (f : S -> A) : M S A := fun st => (Ret (f st), st).

Definition modify {S} (f : S -> S) : M S unit := fun st => (Ret tt, f st).

(** A coroutine of a member object, run on the object that holds it. *)
Definition on {S T A} (proj : S -> T) (upd : T -> S -> S) (m : M T A) : M S A :=
  fun st => let (r, t') := m (proj st) in (r, upd t' st).

(** An awaited external call: it returns, or raises what was answered. *)
Definition await {S} (answer : option Exn) : M S unit :=
  match answer with
  | None => ret tt
  | Some e => raise e
  end.

Definition await_value {S A} (answer : Exn + A) : M S A :=
  match answer with
  | inr a => ret a
  | inl e => raise e
  end.

(** How the platform and the storage driver answer the external calls
    made during one operation. *)
Record Env : Type := {
  connect : option Exn;
  send_code : Exn + str;               (* the [phone_code_hash] sent *)
  sign_in : option Exn;
  check_password : option Exn;
  export_session_string : Exn + str;
  start : option Exn;
  disconnect : option Exn;
  stop : option Exn;
  users_find_one : option Exn;
  users_update_one : option Exn;
  user_settings_find_one : option Exn;
  user_settings_update_one : option Exn
}.

End Runtime.

Import Runtime.

Notation "x <- m ;; k" := (bind m (fun x => k))
  (at level 100, m at next level, right associativity).
Notation "m ;;; k" := (bind m (fun _ => k))
  (at level 100, right associativity).

(** ** Storage ([database.py]) *)

Module Database.

Record UserDoc : Type := {
  phone_number : str; session_string : str; is_active : bool
}.

Record SettingsDoc : Type := { destination_channel_id : option Z }.

(** The two collections read and written here, each keyed by the
    [user_id] of its unique index. *)
Record Database : Type := {
  users : gmap Z UserDoc;
  user_settings : gmap Z SettingsDoc
}.

Definition set_users (f : gmap Z UserDoc -> gmap Z UserDoc) (db : Database) : Database :=
  {| users := f (users db); user_settings := user_settings db |}.

Definition set_user_settings (f : gmap Z SettingsDoc -> gmap Z SettingsDoc)
    (db : Database) : Database :=
  {| users := users db; user_settings := f (user_settings db) |}.

Definition set_destination (env : Env) (user_id destination_channel_id : Z)
  : M Database bool :=
  try_except
    (await (user_settings_update_one env) ;;;
     modify (set_user_settings
       (<[user_id := {| destination_channel_id := Some destination_channel_id |}]>)) ;;;
     ret true)
    (fun _ => ret false).

Definition get_destination (env : Env) (user_id : Z) : M Database Z :=
  try_except
    (await (user_settings_find_one env) ;;;
     settings <- gets (fun db => user_settings db !! user_id) ;;
     match settings with
     | Some doc => ret (default 0 (destination_channel_id doc))
     | None => ret 0
     end)
    (fun _ => ret 0).

Definition save_user_session (env : Env) (user_id : Z)
    (phone_number session_string : str) : M Database bool :=
  try_except
    (await (users_update_one env) ;;;
     modify (set_users
       (<[user_id := {| phone_number := phone_number;
                        session_string := session_string;
                        is_active := true |}]>)) ;;;
     ret true)
    (fun _ => ret false).

Definition get_user_session (env : Env) (user_id : Z) : M Database (option UserDoc) :=
  try_except
    (await (users_find_one env) ;;;
     user <- gets (fun db => users db !! user_id) ;;
     match user with
     | Some doc => ret (if is_active doc then Some doc else None)
     | None => ret None
     end)
    (fun _ => ret None).

Definition deactivate (doc : UserDoc) : UserDoc :=
  {| phone_number := phone_number doc; session_string := session_string doc;
     is_active := false |}.

Definition delete_user_session (env : Env) (user_id : Z) : M Database bool :=
  try_except
    (await (users_update_one env) ;;;
     modify (set_users (alter deactivate user_id)) ;;;
     ret true)
    (fun _ => ret false).

End Database.

(** ** The login manager and the session pool ([user_client.py]) *)

Module UserClient.

(** A [Client] object, by the order of its creation. *)
Definition Handle : Type := nat.

Record PendingLogin : Type := {
  client : Handle; phone_number : str; phone_code_hash : str; step : str
}.

(** [self.db], [self.active_clients] and [self.pending_logins], with the
    client objects created so far ([next_client] is the next one) and
    those whose connection is open ([is_connected]). *)
Record UserClientManager : Type := {
  db : Database.Database;
  active_clients : gmap Z Handle;
  pending_logins : gmap Z PendingLogin;
  connected : gset Handle;
  next_client : Handle
}.

Definition set_db (d : Database.Database) (m : UserClientManager) : UserClientManager :=
  {| db := d; active_clients := active_clients m; pending_logins := pending_logins m;
     connected := connected m; next_client := next_client m |}.

Definition set_active_clients (f : gmap Z Handle -> gmap Z Handle)
    (m : UserClientManager) : UserClientManager :=
  {| db := db m; active_clients := f (active_clients m);
     pending_logins := pending_logins m;
     connected := connected m; next_client := next_client m |}.

Definition set_pending_logins (f : gmap Z PendingLogin -> gmap Z PendingLogin)
    (m : UserClientManager) : UserClientManager :=
  {| db := db m; active_clients := active_clients m;
     pending_logins := f (pending_logins m);
     connected := connected m; next_client := next_client m |}.

Definition set_connected (f : gset Handle -> gset Handle)
    (m : UserClientManager) : UserClientManager :=
  {| db := db m; active_clients := active_clients m;
     pending_logins := pending_logins m;
     connected := f (connected m); next_client := next_client m |}.

(** [Client(...)]: a new object, not connected. *)
Definition new_client : M UserClientManager Handle :=
  fun m =>
    (Ret (next_client m),
     {| db := db m; active_clients := active_clients m;
        pending_logins := pending_logins m;
        connected := connected m; next_client := S (next_client m) |}).

Definition with_db {A} (m : M Database.Database A) : M UserClientManager A :=
  on db set_db m.

(** [await client.connect()], [await client.start()] *)
Definition client_connect (env : Env) (c : Handle) : M UserClientManager unit :=
  await (connect env) ;;; modify (set_connected (fun cs => {[c]} ∪ cs)).

Definition client_start (env : Env) (c : Handle) : M UserClientManager unit :=
  await (start env) ;;; modify (set_connected (fun cs => {[c]} ∪ cs)).

(** [await client.disconnect()], [await client.stop()] *)
Definition client_disconnect (env : Env) (c : Handle) : M UserClientManager unit :=
  await (disconnect env) ;;; modify (set_connected (fun cs => cs ∖ {[c]})).

Definition client_stop (env : Env) (c : Handle) : M UserClientManager unit :=
  await (stop env) ;;; modify (set_connected (fun cs => cs ∖ {[c]})).

(** The dictionaries the operations return. *)
Record Result : Type := {
  success : bool;
  result_step : option str;   (* the key ["step"] *)
  message : option str;
  error : option str
}.

Definition ok (st : option str) (msg : str) : Result :=
  {| success := true; result_step := st; message := Some msg; error := None |}.

Definition failure (err : str) : Result :=
  {| success := false; result_step := None; message := None; error := Some err |}.

Definition start_client_from_session (env : Env) (user_id : Z) (session_string : str)
  : M UserClientManager (option Handle) :=
  try_except
    (c <- new_client ;;
     client_start env c ;;;
     modify (set_active_clients (<[user_id := c]>)) ;;;
     ret (Some c))
    (fun _ => ret None).

Definition initiate_login (env : Env) (user_id : Z) (phone_number : str)
  : M UserClientManager Result :=
  try_except
    (c <- new_client ;;
     client_connect env c ;;;
     sent_code <- await_value (send_code env) ;;
     modify (set_pending_logins
       (<[user_id := {| client := c; phone_number := phone_number;
                        phone_code_hash := sent_code; step := chars "otp" |}]>)) ;;;
     ret (ok (Some (chars "otp"))
            (chars "OTP sent to " ++ phone_number ++ chars ". Please enter the OTP code.")))
    (fun e =>
       match kind e with
       | FloodWait =>
           ret (failure (chars "Too many attempts. Please wait "
                         ++ str_of_int (value e) ++ chars " seconds."))
       | _ => ret (failure (text e))
       end).

(** The part both [verify_otp] and [verify_2fa] run once the platform
    has accepted the code or the password. *)
Definition complete_login (env : Env) (user_id : Z) (c : Handle) (phone_number : str)
    (msg : str) : M UserClientManager Result :=
  session_string <- await_value (export_session_string env) ;;
  with_db (Database.save_user_session env user_id phone_number session_string) ;;;
  modify (set_active_clients (<[user_id := c]>)) ;;;
  modify (set_pending_logins (delete user_id)) ;;;
  ret (ok None msg).

Definition set_step (st : str) (p : PendingLogin) : PendingLogin :=
  {| client := client p; phone_number := phone_number p;
     phone_code_hash := phone_code_hash p; step := st |}.

Definition verify_otp (env : Env) (user_id : Z) (otp_code : str)
  : M UserClientManager Result :=
  pending <- gets (fun m => pending_logins m !! user_id) ;;
  match pending with
  | None => ret (failure (chars "No pending login found. Please start with /login first."))
  | Some login_data =>
      try_except
        (await (sign_in env) ;;;
         complete_login env user_id (client login_data) (phone_number login_data)
           (chars "Login successful! You can now use the bot to forward from channels where you have access."))
        (fun e =>
           match kind e with
           | SessionPasswordNeeded =>
               modify (set_pending_logins (alter (set_step (chars "2fa")) user_id)) ;;;
               ret (ok (Some (chars "2fa"))
                      (chars "Two-factor authentication is enabled. Please enter your 2FA password."))
           | PhoneCodeInvalid => ret (failure (chars "Invalid OTP code. Please try again."))
           | PhoneCodeExpired =>
               modify (set_pending_logins (delete user_id)) ;;;
               ret (failure (chars "OTP code expired. Please start login again with /login."))
           | _ => ret (failure (text e))
           end)
  end.

Definition verify_2fa (env : Env) (user_id : Z) (password : str)
  : M UserClientManager Result :=
  pending <- gets (fun m => pending_logins m !! user_id) ;;
  match pending with
  | None => ret (failure (chars "No pending login found."))
  | Some login_data =>
      if negb (bool_decide (step login_data = chars "2fa"))
      then ret (failure (chars "2FA not required at this step."))
      else
        try_except
          (await (check_password env) ;;;
           complete_login env user_id (client login_data) (phone_number login_data)
             (chars "Login successful! You can now use the bot to forward from channels."))
          (fun e =>
             if is_BadRequest e
             then ret (failure (chars "Invalid 2FA password. Please try again."))
             else ret (failure (text e)))
  end.

Definition is_connected (c : Handle) (m : UserClientManager) : bool :=
  bool_decide (c ∈ connected m).

(** The second half of [get_client]: restoring from the database. *)
Definition restore_client (env : Env) (user_id : Z) : M UserClientManager (option Handle) :=
  user_data <- with_db (Database.get_user_session env user_id) ;;
  match user_data with
  | Some doc =>
      match Database.session_string doc with
      | [] => ret None
      | session_string => start_client_from_session env user_id session_string
      end
  | None => ret None
  end.

Definition get_client (env : Env) (user_id : Z) : M UserClientManager (option Handle) :=
  cached <- gets (fun m => active_clients m !! user_id) ;;
  match cached with
  | Some c =>
      up <- gets (is_connected c) ;;
      if (up : bool) then ret (Some c) else restore_client env user_id
  | None => restore_client env user_id
  end.

Definition logout (env : Env) (user_id : Z) : M UserClientManager Result :=
  try_except
    (cached <- gets (fun m => active_clients m !! user_id) ;;
     match cached with
     | Some c =>
         client_stop env c ;;; modify (set_active_clients (delete user_id))
     | None => ret tt
     end ;;;
     with_db (Database.delete_user_session env user_id) ;;;
     ret (ok None (chars "Logged out successfully.")))
    (fun e => ret (failure (text e))).

(** [cancel_login] returns nothing. *)
Definition cancel_login (env : Env) (user_id : Z) : M UserClientManager unit :=
  pending <- gets (fun m => pending_logins m !! user_id) ;;
  match pending with
  | Some login_data =>
      client_disconnect env (client login_data) ;;;
      modify (set_pending_logins (delete user_id))
  | None => ret tt
  end.

(** The two loops of [stop_all_clients]: each client is stopped, or
    disconnected, in turn, and what it raises is dropped.  The clients
    answer each for itself. *)
Definition stop_each (stop_of : Handle -> option Exn) (clients : list (Z * Handle))
  : M UserClientManager unit :=
  fold_right
    (fun item rest =>
       try_except
         (await (stop_of (snd item)) ;;;
          modify (set_connected (fun cs => cs ∖ {[snd item]})))
         (fun _ => ret tt) ;;;
       rest)
    (ret tt) clients.

Definition disconnect_each (disconnect_of : Handle -> option Exn)
    (logins : list (Z * PendingLogin)) : M UserClientManager unit :=
  fold_right
    (fun item rest =>
       try_except
         (await (disconnect_of (client (snd item))) ;;;
          modify (set_connected (fun cs => cs ∖ {[client (snd item)]})))
         (fun _ => ret tt) ;;;
       rest)
    (ret tt) logins.

(** [stop_all_clients]; the items of each dictionary are taken one
    after the other, each client answering for itself, so that the
    order in which they come does not matter to what is left. *)
Definition stop_all_clients (stop_of disconnect_of : Handle -> option Exn)
  : M UserClientManager unit :=
  clients <- gets (fun m => map_to_list (active_clients m)) ;;
  stop_each stop_of clients ;;;
  modify (set_active_clients (fun _ => ∅)) ;;;
  logins <- gets (fun m => map_to_list (pending_logins m)) ;;
  disconnect_each disconnect_of logins ;;;
  modify (set_pending_logins (fun _ => ∅)).

(** A loop that closes the connections of [handles], those that
    [answer] lets close: nothing is raised, only connections change,
    none is opened, and those that could be closed are closed. *)
Definition closes (answer : Handle -> option Exn) (handles : list Handle)
    (r : Outcome unit * UserClientManager) (m : UserClientManager) : Prop :=
  fst r = Ret tt
  /\ db (snd r) = db m
  /\ active_clients (snd r) = active_clients m
  /\ pending_logins (snd r) = pending_logins m
  /\ next_client (snd r) = next_client m
  /\ connected (snd r) ⊆ connected m
  /\ forall c, In c handles -> answer c = None -> c ∉ connected (snd r).

(** What the manager holds for one user: the record in flight, the
    registered handle and the stored session; and the settings of all. *)
Definition same_for (user_id : Z) (m m' : UserClientManager) : Prop :=
  pending_logins m' !! user_id = pending_logins m !! user_id
  /\ active_clients m' !! user_id = active_clients m !! user_id
  /\ Database.users (db m') !! user_id = Database.users (db m) !! user_id
  /\ Database.user_settings (db m') = Database.user_settings (db m).

End UserClient.

(** ** The command handlers ([bot.py]), up to the point where a job starts

    A handler's replies are taken to be delivered; what is kept of each
    is which reply ends it, or the step it hands over to. *)

Module Bot.

Import UserClient.

(** [user_manager] (whose [db] is the one [db] of the module) and
    [active_tasks]. *)
Record Bot : Type := {
  user_manager : UserClientManager;
  active_tasks : gset Z
}.

Definition set_user_manager (m : UserClientManager) (b : Bot) : Bot :=
  {| user_manager := m; active_tasks := active_tasks b |}.

Definition with_manager {A} (m : M UserClientManager A) : M Bot A :=
  on user_manager set_user_manager m.

Definition with_db {A} (m : M Database.Database A) : M Bot A :=
  with_manager (UserClient.with_db m).

Inductive LoginReply : Type :=
| AlreadyLoggedIn
| LoginUsage
| OtpSent (message : str)
| LoginFailed (error : str).

Definition startswith (c : ascii) (l : str) : bool :=
  match l with
  | x :: _ => is_char c x
  | [] => false
  end.

(** [phone_number = args[1].strip()], with ["+"] put in front when it
    does not start with it. *)
Definition with_country_mark (arg : str) : str :=
  let phone_number := strip arg in
  if negb (startswith "+" phone_number) then chars "+" ++ phone_number
  else phone_number.

(** [login_command]; [args] is [message.text.split(maxsplit=1)]. *)
Definition login_command (env : Env) (user_id : Z) (args : list str) : M Bot LoginReply :=
  existing <- with_manager (get_client env user_id) ;;
  match existing with
  | Some _ => ret AlreadyLoggedIn
  | None =>
      if (length args <? 2)%nat then ret LoginUsage
      else
        let phone_number := with_country_mark (nth 1 args []) in
        result <- with_manager (initiate_login env user_id phone_number) ;;
        if success result
        then ret (OtpSent (default [] (message result)))
        else ret (LoginFailed (default (chars "Unknown error") (error result)))
  end.

Inductive DestReply : Type :=
| CurrentDestination (dest_id : Z)
| NoDestinationSet.

(** [getdest_command] *)
Definition getdest_command (env : Env) (user_id : Z) : M Bot DestReply :=
  dest_id <- with_db (Database.get_destination env user_id) ;;
  if dest_id =? 0 then ret NoDestinationSet
  else ret (CurrentDestination dest_id).

Inductive CloneGate : Type :=
| ActiveTask
| PleaseLogin
| CloneUsage
| InvalidChannelId
| NoDestination
| CheckAccess (user_client : Handle) (source_channel_id destination_channel_id : Z).
    (* the handler goes on to the access checks and, past them, to
       [forwarder.clone_channel] *)

(** [clone_command]; [args] is [message.text.split()]. *)
Definition clone_command (env : Env) (user_id : Z) (args : list str) : M Bot CloneGate :=
  active <- gets (fun b => bool_decide (user_id ∈ active_tasks b)) ;;
  if (active : bool) then ret ActiveTask
  else
    user_client <- with_manager (get_client env user_id) ;;
    match user_client with
    | None => ret PleaseLogin
    | Some c =>
        if (length args <? 2)%nat then ret CloneUsage
        else
          match py_int (nth 1 args []) with
          | None => ret InvalidChannelId
          | Some source_channel_id =>
              destination_channel_id <- with_db (Database.get_destination env user_id) ;;
              if destination_channel_id =? 0 then ret NoDestination
              else ret (CheckAccess c source_channel_id destination_channel_id)
          end
    end.

Inductive RangeGate : Type :=
| RangeActiveTask
| RangePleaseLogin
| RangeUsage
| RangeNoDestination
| InvalidStartLink
| InvalidEndLink
| ResolveChannels (user_client : Handle) (destination_channel_id : Z)
    (start_channel : Link.ChannelRef) (start_message_id : Z)
    (end_channel : Link.ChannelRef) (end_message_id : Z).
    (* the handler goes on to resolve the channels, to the access checks
       and, past them, to [forwarder.clone_range] *)

Definition ValueError : Exn := {| kind := OtherError; value := 0; text := chars "ValueError" |}.

Definition parsed (p : Link.Parsed) : M Bot (option Link.ChannelRef * option Z) :=
  match p with
  | Link.Returns c m => ret (c, m)
  | Link.RaisesValueError => raise ValueError
  end.

(** [crange_command]; [args] is [message.text.split()]. *)
Definition crange_command (env : Env) (user_id : Z) (args : list str) : M Bot RangeGate :=
  active <- gets (fun b => bool_decide (user_id ∈ active_tasks b)) ;;
  if (active : bool) then ret RangeActiveTask
  else
    user_client <- with_manager (get_client env user_id) ;;
    match user_client with
    | None => ret RangePleaseLogin
    | Some c =>
        if (length args <? 3)%nat then ret RangeUsage
        else
          let start_link := nth 1 args [] in
          let end_link := nth 2 args [] in
          destination_channel_id <- with_db (Database.get_destination env user_id) ;;
          if destination_channel_id =? 0 then ret RangeNoDestination
          else
            start <- parsed (Link.parse_telegram_link start_link) ;;
            match start with
            | (Some start_channel, Some start_message_id) =>
                end_ <- parsed (Link.parse_telegram_link end_link) ;;
                match end_ with
                | (Some end_channel, Some end_message_id) =>
                    ret (ResolveChannels c destination_channel_id
                           start_channel start_message_id end_channel end_message_id)
                | _ => ret InvalidEndLink
                end
            | _ => ret InvalidStartLink
            end
    end.

(** The [progress_callback] both clone handlers pass to the engine.
    Whether the user is still in [active_tasks] when it is called, and
    what [status_msg.edit_text] does, are answers of the outside. *)
Definition progress_callback (in_active_tasks : str -> bool)
    (edit_text : str -> option Forwarder.Raised) : Forwarder.Callback :=
  Some (fun text =>
    if negb (in_active_tasks text) then None
    else match edit_text text with
         | Some _ => None      (* [except: pass] *)
         | None => None
         end).

Definition set_active_tasks (f : gset Z -> gset Z) (b : Bot) : Bot :=
  {| user_manager := user_manager b; active_tasks := f (active_tasks b) |}.

Inductive CancelReply : Type :=
| TaskCancelled
| NoActiveTask.

(** [cancel_command] *)
Definition cancel_command (user_id : Z) : M Bot CancelReply :=
  active <- gets (fun b => bool_decide (user_id ∈ active_tasks b)) ;;
  if (active : bool)
  then modify (set_active_tasks (fun tasks => tasks ∖ {[user_id]})) ;;; ret TaskCancelled
  else ret NoActiveTask.

(** *** Notions the properties below are stated with *)

(** The three ways a user has no destination: nothing stored, the read
    of the setting failing, the id 0 stored. *)
Definition no_destination (env : Env) (user_id : Z) (d : Database.Database) : Prop :=
  Database.user_settings d !! user_id = None
  \/ is_Some (user_settings_find_one env)
  \/ Database.user_settings d !! user_id
     = Some {| Database.destination_channel_id := Some 0 |}.

(** The answers of the outside and the objects of the process, the
    destination settings and the answer to their read being left out. *)
Definition but_destination_env (env : Env) : Env :=
  {| connect := connect env; send_code := send_code env; sign_in := sign_in env;
     check_password := check_password env;
     export_session_string := export_session_string env;
     start := start env; disconnect := disconnect env; stop := stop env;
     users_find_one := users_find_one env; users_update_one := users_update_one env;
     user_settings_find_one := None;
     user_settings_update_one := user_settings_update_one env |}.

Definition forget_settings (m : UserClientManager) : UserClientManager :=
  set_db (Database.set_user_settings (fun _ => ∅) (db m)) m.

Definition but_destination (b : Bot) : Bot :=
  set_user_manager (forget_settings (user_manager b)) b.

(** A clone command stopped before any access check. *)
Definition clone_blocked (r : Outcome CloneGate) : Prop :=
  r = Ret ActiveTask \/ r = Ret PleaseLogin \/ r = Ret CloneUsage
  \/ r = Ret InvalidChannelId \/ r = Ret NoDestination.

Definition range_blocked (r : Outcome RangeGate) : Prop :=
  r = Ret RangeActiveTask \/ r = Ret RangePleaseLogin \/ r = Ret RangeUsage
  \/ r = Ret RangeNoDestination.

End Bot.

(** ** Sample jobs *)

Module Samples.

Import Forwarder.

Definition message (i : Z) : Message := {| id := i; empty := false; service := false |}.

Definition service_message (i : Z) : Message :=
  {| id := i; empty := false; service := true |}.

(** A client whose history is [history], newest first, whatever is
    asked, and which answers the copy of message [i] with [replies i]. *)
Definition client_of (history : list Message) (replies : Z -> CopyScript) : Client :=
  {| get_chat_history := fun _ _ _ => {| yielded := history; fails := None |};
     copy_message_replies := fun _ _ message_id => replies message_id |}.

(** Four messages, the second a service message; the third is answered
    with a rate-limit wait of five seconds and then with the channel's
    restriction, the others are copied. *)
Definition restricted_client : Client :=
  client_of [message 4; message 3; service_message 2; message 1]
    (fun i => if i =? 3 then FloodWait 5 (Reply RaisesChatForwardsRestricted)
              else Reply (Copied (100 + i))).

(** Eleven messages, all copied. *)
Definition eleven : list Message := map message [11; 10; 9; 8; 7; 6; 5; 4; 3; 2; 1].

Definition open_client : Client := client_of eleven (fun i => Reply (Copied (100 + i))).

(** A sink that lets the failure of its tenth-item update out. *)
Definition failing_sink : Callback :=
  Some (fun text =>
    if bool_decide (text = chart ++ chars " Found 11 messages to clone...") then None
    else Some (OtherException (chars "edit failed"))).

(** A service message followed by an ordinary one, both copied if tried. *)
Definition service_first_client : Client :=
  client_of [message 2; service_message 1] (fun i => Reply (Copied (100 + i))).

(** An outside in which every call succeeds. *)
Definition calm : Env :=
  {| connect := None; send_code := inr (chars "hash2"); sign_in := None;
     check_password := None; export_session_string := inr (chars "session");
     start := None; disconnect := None; stop := None;
     users_find_one := None; users_update_one := None;
     user_settings_find_one := None; user_settings_update_one := None |}.

Definition error_of (k : ExnKind) (msg : string) : Exn :=
  {| kind := k; value := 0; text := chars msg |}.

(** The same, the platform asking for the second factor at sign-in. *)
Definition needs_password : Env :=
  {| connect := None; send_code := inr (chars "hash2");
     sign_in := Some (error_of SessionPasswordNeeded "SESSION_PASSWORD_NEEDED");
     check_password := None; export_session_string := inr (chars "session");
     start := None; disconnect := None; stop := None;
     users_find_one := None; users_update_one := None;
     user_settings_find_one := None; user_settings_update_one := None |}.

(** The same as [calm], the password being refused. *)
Definition wrong_password : Env :=
  {| connect := None; send_code := inr (chars "hash2"); sign_in := None;
     check_password := Some (error_of BadRequest "PASSWORD_HASH_INVALID");
     export_session_string := inr (chars "session");
     start := None; disconnect := None; stop := None;
     users_find_one := None; users_update_one := None;
     user_settings_find_one := None; user_settings_update_one := None |}.

(** The same as [calm], a stored session failing to start. *)
Definition dead_session : Env :=
  {| connect := None; send_code := inr (chars "hash2"); sign_in := None;
     check_password := None; export_session_string := inr (chars "session");
     start := Some (error_of OtherError "AUTH_KEY_UNREGISTERED");
     disconnect := None; stop := None;
     users_find_one := None; users_update_one := None;
     user_settings_find_one := None; user_settings_update_one := None |}.

(** The same as [calm], the read of the settings failing. *)
Definition settings_down : Env :=
  {| connect := None; send_code := inr (chars "hash2"); sign_in := None;
     check_password := None; export_session_string := inr (chars "session");
     start := None; disconnect := None; stop := None;
     users_find_one := None; users_update_one := None;
     user_settings_find_one := Some (error_of OtherError "connection refused");
     user_settings_update_one := None |}.

Definition no_data : Database.Database :=
  {| Database.users := ∅; Database.user_settings := ∅ |}.

(** A manager that has done nothing yet. *)
Definition fresh : UserClient.UserClientManager :=
  {| UserClient.db := no_data; UserClient.active_clients := ∅;
     UserClient.pending_logins := ∅; UserClient.connected := ∅;
     UserClient.next_client := 0%nat |}.

Definition first_attempt : UserClient.PendingLogin :=
  {| UserClient.client := 0%nat; UserClient.phone_number := chars "+111";
     UserClient.phone_code_hash := chars "hash1"; UserClient.step := chars "otp" |}.

(** User 7 has a login in flight, the code having been sent over the
    connection 0; no session is stored. *)
Definition in_flight : UserClient.UserClientManager :=
  {| UserClient.db := no_data; UserClient.active_clients := ∅;
     UserClient.pending_logins := {[ 7 := first_attempt ]};
     UserClient.connected := {[ 0%nat ]};
     UserClient.next_client := 1%nat |}.

Definition bot_in_flight : Bot.Bot :=
  {| Bot.user_manager := in_flight; Bot.active_tasks := ∅ |}.

(** User 7 is logged in over the connection 0 and has stored the given
    destination setting, if any. *)
Definition logged_in (setting : option Database.SettingsDoc) : Bot.Bot :=
  {| Bot.user_manager :=
       {| UserClient.db :=
            {| Database.users := ∅;
               Database.user_settings :=
                 match setting with
                 | Some doc => {[ 7 := doc ]}
                 | None => ∅
                 end |};
          UserClient.active_clients := {[ 7 := 0%nat ]};
          UserClient.pending_logins := ∅;
          UserClient.connected := {[ 0%nat ]};
          UserClient.next_client := 1%nat |};
     Bot.active_tasks := ∅ |}.

(** User 7 has a stored session and no live handle. *)
Definition stored_session : UserClient.UserClientManager :=
  {| UserClient.db :=
       {| Database.users :=
            {[ 7 := {| Database.phone_number := chars "+111";
                       Database.session_string := chars "session";
                       Database.is_active := true |} ]};
          Database.user_settings := ∅ |};
     UserClient.active_clients := ∅; UserClient.pending_logins := ∅;
     UserClient.connected := ∅; UserClient.next_client := 0%nat |}.

(** The same as [calm], the code being refused as wrong. *)
Definition wrong_code : Env :=
  {| connect := None; send_code := inr (chars "hash2");
     sign_in := Some (error_of PhoneCodeInvalid "PHONE_CODE_INVALID");
     check_password := None; export_session_string := inr (chars "session");
     start := None; disconnect := None; stop := None;
     users_find_one := None; users_update_one := None;
     user_settings_find_one := None; user_settings_update_one := None |}.

(** The same as [calm], the writes of the sessions failing. *)
Definition storage_down : Env :=
  {| connect := None; send_code := inr (chars "hash2"); sign_in := None;
     check_password := None; export_session_string := inr (chars "session");
     start := None; disconnect := None; stop := None;
     users_find_one := None;
     users_update_one := Some (error_of OtherError "connection refused");
     user_settings_find_one := None; user_settings_update_one := None |}.

(** The same as [calm], a live client failing to stop. *)
Definition stuck_client : Env :=
  {| connect := None; send_code := inr (chars "hash2"); sign_in := None;
     check_password := None; export_session_string := inr (chars "session");
     start := None; disconnect := None;
     stop := Some (error_of OtherError "already terminated");
     users_find_one := None; users_update_one := None;
     user_settings_find_one := None; user_settings_update_one := None |}.

End Samples.

(** * Proofs *)

(** ** Characters, [strip] and [int] *)

Lemma is_char_true (c x : ascii) : is_char c x = true <-> x = c.
Proof.
  unfold is_char, code. rewrite N.eqb_eq. split; [|congruence].
  intros H. rewrite <- (ascii_N_embedding x), <- (ascii_N_embedding c). congruence.
Qed.

Lemma is_char_refl (c : ascii) : is_char c c = true.
Proof. now apply is_char_true. Qed.

Lemma lstrip_no_space l : no_space l = true -> lstrip l = l.
Proof.
  destruct l as [|c l]; simpl; [reflexivity|].
  intros H. apply andb_true_iff in H as [H _].
  destruct (is_space c); [discriminate | reflexivity].
Qed.

Lemma no_space_rev l : no_space (rev l) = no_space l.
Proof.
  unfold no_space. induction l as [|c l IH]; simpl; [reflexivity|].
  rewrite forallb_app, IH. simpl. rewrite andb_true_r. apply andb_comm.
Qed.

Lemma strip_no_space l : no_space l = true -> strip l = l.
Proof.
  intros H. unfold strip, rstrip. rewrite (lstrip_no_space l H).
  rewrite lstrip_no_space by now rewrite no_space_rev.
  apply rev_involutive.
Qed.

Lemma digit_not_space c : is_digit c = true -> is_space c = false.
Proof.
  unfold is_digit, is_space, in_range, code.
  rewrite andb_true_iff, !N.leb_le. intros [H1 H2].
  repeat (apply orb_false_iff; split);
    try (apply andb_false_iff); rewrite ?N.leb_gt, ?N.eqb_neq; lia.
Qed.

Lemma digits_no_space l : forallb is_digit l = true -> no_space l = true.
Proof.
  unfold no_space. induction l as [|c l IH]; simpl; [reflexivity|].
  rewrite !andb_true_iff. intros [H1 H2].
  split; [now rewrite digit_not_space | auto].
Qed.

Lemma digits_value_digits l : forall acc,
  forallb is_digit l = true -> is_Some (digits_value acc false l).
Proof.
  induction l as [|c l IH]; intros acc; simpl; [eauto|].
  rewrite andb_true_iff. intros [H1 H2]. rewrite H1. now apply IH.
Qed.

Lemma unsigned_value_digits l :
  l <> [] -> forallb is_digit l = true -> is_Some (unsigned_value l).
Proof.
  destruct l as [|c l]; [congruence|]. intros _ H. unfold unsigned_value.
  pose proof H as H'. simpl in H'. apply andb_true_iff in H' as [-> _].
  now apply digits_value_digits.
Qed.

(** [int] accepts every non-empty string of digits, signed or not. *)
Lemma py_int_digits l :
  l <> [] -> forallb is_digit l = true -> is_Some (py_int l).
Proof.
  intros Hne H. unfold py_int. rewrite strip_no_space by now apply digits_no_space.
  destruct l as [|c l]; [congruence|].
  pose proof H as H'. simpl in H'. apply andb_true_iff in H' as [Hc _].
  assert (is_char "-" c = false) as ->.
  { destruct (is_char "-" c) eqn:E; [|reflexivity].
    apply is_char_true in E. subst c. discriminate Hc. }
  assert (is_char "+" c = false) as ->.
  { destruct (is_char "+" c) eqn:E; [|reflexivity].
    apply is_char_true in E. subst c. discriminate Hc. }
  now apply unsigned_value_digits.
Qed.

Lemma py_int_minus_digits l :
  l <> [] -> forallb is_digit l = true -> is_Some (py_int ("-"%char :: l)).
Proof.
  intros Hne H. unfold py_int. rewrite strip_no_space.
  - rewrite is_char_refl. destruct (unsigned_value_digits l Hne H) as [z ->].
    simpl. eauto.
  - simpl. now apply digits_no_space.
Qed.

(** ** The matcher against the language of a pattern *)

Section Matcher.
Import Link.

Lemma or_else_Some {A} (x y : option A) v :
  or_else x y = Some v -> x = Some v \/ (x = None /\ y = Some v).
Proof. destruct x; simpl; intros H; [left | right]; auto. Qed.

Lemma or_else_is_Some_l {A} (x y : option A) : is_Some x -> is_Some (or_else x y).
Proof. intros [v ->]. simpl. eauto. Qed.

Lemma or_else_is_Some_r {A} (x y : option A) : is_Some y -> is_Some (or_else x y).
Proof. destruct x; simpl; eauto. Qed.

Lemma rep_sound {R} p (l : str) : forall lo hi (k : str -> option R) res,
  rep p lo hi l k = Some res ->
  exists w rest, l = w ++ rest /\ forallb p w = true /\ (lo <= length w)%nat
                 /\ within hi (length w) /\ k rest = Some res.
Proof.
  assert (Hstop : forall (l : str) lo hi (k : str -> option R) res,
             match lo with O => k l | S _ => None end = Some res ->
             exists w rest, l = w ++ rest /\ forallb p w = true
                            /\ (lo <= length w)%nat /\ within hi (length w)
                            /\ k rest = Some res).
  { intros l0 lo hi k res H. destruct lo; [|discriminate].
    exists [], l0. repeat split; auto. destruct hi; simpl; lia. }
  induction l as [|c l IH]; intros lo hi k res H; simpl in H.
  - now apply Hstop.
  - destruct (p c && may_take hi) eqn:E; [|now apply Hstop].
    apply andb_true_iff in E as [Hp Hhi].
    apply or_else_Some in H as [H | [_ H]]; [|now apply Hstop].
    apply IH in H as (w & rest & -> & Hw & Hlo & Hwi & Hk).
    exists (c :: w), rest. simpl. rewrite Hp, Hw. repeat split; auto; [lia|].
    destruct hi as [[|h]|]; simpl in *; try discriminate; auto; lia.
Qed.

Lemma rep_complete {R} p (w rest : str) (k : str -> option R) : forall lo hi,
  forallb p w = true -> (lo <= length w)%nat -> within hi (length w) ->
  is_Some (k rest) -> is_Some (rep p lo hi (w ++ rest) k).
Proof.
  induction w as [|c w IH]; intros lo hi Hw Hlo Hhi Hk; simpl in *.
  - assert (lo = O) as -> by lia.
    destruct rest as [|c rest]; simpl; auto.
    destruct (p c && may_take hi); auto. now apply or_else_is_Some_r.
  - apply andb_true_iff in Hw as [Hc Hw]. rewrite Hc. simpl.
    assert (may_take hi = true) as ->.
    { destruct hi as [[|h]|]; simpl in *; auto; lia. }
    apply or_else_is_Some_l. apply IH; auto; [lia|].
    destruct hi as [h|]; simpl in *; auto; lia.
Qed.

Lemma consumed_app (w rest : str) : consumed (w ++ rest) rest = w.
Proof.
  unfold consumed. rewrite length_app.
  replace (length w + length rest - length rest)%nat with (length w) by lia.
  rewrite firstn_app, firstn_all, Nat.sub_diag. simpl. apply app_nil_r.
Qed.

(** Whatever the matcher finds is a string of the pattern at the start
    of the input, with the groups of that string. *)
Lemma exec_sound {R} (r : regex) : forall l caps (k : str -> list str -> option R) res,
  exec r l caps k = Some res ->
  exists w rest cs, l = w ++ rest /\ Matches r w cs /\ k rest (caps ++ cs) = Some res.
Proof.
  induction r as [|c|p|r1 IH1 r2 IH2|r IH|p lo hi|r IH];
    intros l caps k res H; simpl in H.
  - exists [], l, []. rewrite app_nil_r. repeat split; auto. constructor.
  - destruct l as [|x l]; [discriminate|].
    destruct (is_char c x) eqn:E; [|discriminate].
    apply is_char_true in E. subst x.
    exists [c], l, []. rewrite app_nil_r. repeat split; auto. constructor.
  - destruct l as [|x l]; [discriminate|].
    destruct (p x) eqn:E; [|discriminate].
    exists [x], l, []. rewrite app_nil_r. repeat split; auto. now constructor.
  - apply IH1 in H as (w1 & rest1 & cs1 & -> & M1 & H).
    apply IH2 in H as (w2 & rest2 & cs2 & -> & M2 & H).
    exists (w1 ++ w2), rest2, (cs1 ++ cs2).
    rewrite <- !app_assoc in *. repeat split; auto. now constructor.
  - apply or_else_Some in H as [H | [_ H]].
    + apply IH in H as (w & rest & cs & -> & M & H).
      exists w, rest, cs. repeat split; auto. now constructor.
    + exists [], l, []. rewrite app_nil_r. repeat split; auto. constructor.
  - apply rep_sound in H as (w & rest & -> & Hw & Hlo & Hhi & H).
    exists w, rest, []. rewrite app_nil_r. repeat split; auto. now constructor.
  - apply IH in H as (w & rest & cs & -> & M & H).
    rewrite consumed_app in H.
    exists w, rest, (cs ++ [w]). rewrite app_assoc. repeat split; auto.
    now constructor.
Qed.

(** Whenever the input starts with a string of the pattern behind which
    the rest of the search succeeds, the matcher finds a match. *)
Lemma exec_complete {R} (r : regex) w cs :
  Matches r w cs ->
  forall rest caps (k : str -> list str -> option R),
    (forall caps', is_Some (k rest caps')) -> is_Some (exec r (w ++ rest) caps k).
Proof.
  induction 1 as [|c|p c Hp|r1 r2 w1 w2 c1 c2 M1 IH1 M2 IH2|r|r w c M IH
                  |p lo hi w Hw Hlo Hhi|r w c M IH];
    intros rest caps k Hk; simpl.
  - apply Hk.
  - rewrite is_char_refl. apply Hk.
  - rewrite Hp. apply Hk.
  - rewrite <- app_assoc. apply IH1. intros caps'. now apply IH2.
  - apply or_else_is_Some_r, Hk.
  - apply or_else_is_Some_l. now apply IH.
  - apply rep_complete; auto.
  - apply IH. intros caps'. apply Hk.
Qed.

Lemma re_match_Some r l m :
  re_match r l = Some m -> exists w rest, l = w ++ rest /\ Matches r w m.
Proof.
  unfold re_match. intros H.
  apply exec_sound in H as (w & rest & cs & -> & M & H).
  simpl in H. injection H as <-. eauto.
Qed.

(** [re.match] finds a match exactly when the input begins with a
    string of the pattern. *)
Lemma re_match_prefix r l : is_Some (re_match r l) <-> has_prefix_in r l.
Proof.
  split.
  - intros [m H]. apply re_match_Some in H as (w & rest & -> & M).
    exists w, rest. split; [reflexivity | now exists m].
  - intros (w & rest & -> & c & M). unfold re_match.
    eapply exec_complete; eauto.
Qed.

Lemma re_match_None r l : re_match r l = None <-> ~ has_prefix_in r l.
Proof.
  rewrite <- re_match_prefix. destruct (re_match r l); split; intros H.
  - discriminate.
  - exfalso. apply H. eauto.
  - intros [? ?]. discriminate.
  - reflexivity.
Qed.

(** [re.fullmatch] decides membership in the language. *)
Lemma re_fullmatch_language r l : is_Some (re_fullmatch r l) <-> in_language r l.
Proof.
  unfold re_fullmatch. split.
  - intros [m H]. apply exec_sound in H as (w & rest & cs & -> & M & H).
    destruct rest; [|discriminate]. rewrite app_nil_r. now exists cs.
  - intros [c M]. rewrite <- (app_nil_r l). eapply exec_complete; eauto.
Qed.

End Matcher.

(** ** [parse_telegram_link] *)

Section LinkParser.
Import Link.

Ltac invert H := inversion H; subst; clear H.

Lemma digits_group w cs :
  Matches (Group (one_or_more is_digit)) w cs -> cs = [w] /\ digit_string w.
Proof.
  intros H. invert H. match goal with M : Matches (one_or_more _) _ _ |- _ => invert M end.
  split; [reflexivity|]. split; [|assumption].
  intros ->. simpl in *. lia.
Qed.

Lemma groupless_groups r w cs : Matches r w cs -> groupless r = true -> cs = [].
Proof.
  induction 1; simpl; intros G; try reflexivity; try discriminate; auto.
  apply andb_true_iff in G as [G1 G2]. rewrite IHMatches1, IHMatches2; auto.
Qed.

Lemma scheme_groups w cs : Matches scheme w cs -> cs = [].
Proof. intros H. now apply groupless_groups in H. Qed.

Lemma lit_groups l w cs : Matches (lit l) w cs -> cs = [].
Proof.
  intros H. apply groupless_groups in H; [assumption|].
  clear H. induction l; simpl; auto.
Qed.

Lemma username_group w cs : Matches (Group username) w cs -> cs = [w].
Proof.
  intros H. invert H. unfold username in *.
  repeat match goal with
         | M : Matches (Cat _ _) _ _ |- _ => invert M
         | M : Matches (Class _) _ _ |- _ => invert M
         | M : Matches (Repeat _ _ _) _ _ |- _ => invert M
         end.
  reflexivity.
Qed.

Lemma tail_groups w cs :
  Matches (Cat (Lit "/") (Group (one_or_more is_digit))) w cs ->
  exists g, cs = [g] /\ digit_string g.
Proof.
  intros H. invert H.
  match goal with M : Matches (Lit _) _ _ |- _ => invert M end.
  match goal with M : Matches (Group _) _ _ |- _ => apply digits_group in M as [-> ?] end.
  eauto.
Qed.

Lemma prefixed_groups (a b r : regex) w cs :
  groupless a = true -> groupless b = true ->
  Matches (Cat a (Cat b r)) w cs -> exists w', Matches r w' cs.
Proof.
  intros Ga Gb H. invert H.
  match goal with M : Matches (Cat b r) _ _ |- _ => invert M end.
  repeat match goal with
         | M : Matches a _ _ |- _ => apply groupless_groups in M; [subst|assumption]
         | M : Matches b _ _ |- _ => apply groupless_groups in M; [subst|assumption]
         end.
  simpl. eauto.
Qed.

Lemma private_groups w cs :
  Matches private_re w cs ->
  exists g1 g2, cs = [g1; g2] /\ digit_string g1 /\ digit_string g2.
Proof.
  intros H. apply prefixed_groups in H as [w' H]; [|reflexivity..].
  invert H.
  match goal with M : Matches (Group _) _ _ |- _ => apply digits_group in M as [-> ?] end.
  match goal with M : Matches (Cat (Lit _) _) _ _ |- _ =>
    apply tail_groups in M as (g & -> & ?) end.
  simpl. eauto.
Qed.

Lemma public_groups w cs :
  Matches public_re w cs -> exists g1 g2, cs = [g1; g2] /\ digit_string g2.
Proof.
  intros H. apply prefixed_groups in H as [w' H]; [|reflexivity..].
  invert H.
  match goal with M : Matches (Group _) _ _ |- _ => apply username_group in M as -> end.
  match goal with M : Matches (Cat (Lit _) _) _ _ |- _ =>
    apply tail_groups in M as (g & -> & ?) end.
  simpl. eauto.
Qed.

Lemma at_groups w cs :
  Matches at_re w cs -> exists g1 g2, cs = [g1; g2] /\ digit_string g2.
Proof.
  intros H. unfold at_re in H. invert H.
  match goal with M : Matches (Lit _) _ _ |- _ => invert M end.
  match goal with M : Matches (Cat (Group _) _) _ _ |- _ => invert M end.
  match goal with M : Matches (Group _) _ _ |- _ => apply username_group in M as -> end.
  match goal with M : Matches (Cat (Lit _) _) _ _ |- _ =>
    apply tail_groups in M as (g & -> & ?) end.
  simpl. eauto.
Qed.

Lemma one_or_more_digits w cs :
  Matches (one_or_more is_digit) w cs -> cs = [] /\ digit_string w.
Proof.
  intros H. invert H. split; [reflexivity|]. split; [|assumption].
  intros ->. simpl in *. lia.
Qed.

Lemma id_groups w cs :
  Matches id_re w cs ->
  exists g1 g2, cs = [g1; g2] /\ digit_string g2
                /\ (digit_string g1 \/ exists d, g1 = "-"%char :: d /\ digit_string d).
Proof.
  intros H. unfold id_re in H. invert H.
  match goal with M : Matches (Cat (Lit _) _) _ _ |- _ =>
    apply tail_groups in M as (g & -> & ?) end.
  match goal with M : Matches (Group (Cat _ _)) _ _ |- _ => invert M end.
  match goal with M : Matches (Cat (Opt _) _) _ _ |- _ => invert M end.
  match goal with M : Matches (one_or_more _) ?d _ |- _ =>
    apply one_or_more_digits in M as [-> Hd] end.
  match goal with M : Matches (Opt _) _ _ |- _ => invert M end.
  - simpl. eauto 10.
  - match goal with M : Matches (Lit _) _ _ |- _ => invert M end.
    simpl. eauto 10.
Qed.

Lemma with_int_digits g (k : Z -> Parsed) :
  digit_string g -> exists z, with_int g k = k z.
Proof.
  intros [Hne Hd]. unfold with_int.
  destruct (py_int_digits g Hne Hd) as [z ->]. eauto.
Qed.

Lemma with_int_signed g (k : Z -> Parsed) :
  (digit_string g \/ exists d, g = "-"%char :: d /\ digit_string d) ->
  exists z, with_int g k = k z.
Proof.
  intros [H | (d & -> & Hne & Hd)]; [now apply with_int_digits|].
  unfold with_int. destruct (py_int_minus_digits d Hne Hd) as [z ->]. eauto.
Qed.

(** What a call returns, form by form. *)
Lemma parse_telegram_link_cases link :
  let l := strip link in
  (has_prefix_in private_re l /\
     exists c m, parse_telegram_link link = Returns (Some (ChanId c)) (Some m))
  \/ (~ has_prefix_in private_re l /\ has_prefix_in public_re l /\
     exists n m, parse_telegram_link link = Returns (Some (ChanName n)) (Some m))
  \/ (~ has_prefix_in private_re l /\ ~ has_prefix_in public_re l /\
      has_prefix_in at_re l /\
     exists n m, parse_telegram_link link = Returns (Some (ChanName n)) (Some m))
  \/ (~ has_prefix_in private_re l /\ ~ has_prefix_in public_re l /\
      ~ has_prefix_in at_re l /\ has_prefix_in id_re l /\
     exists c m, parse_telegram_link link = Returns (Some (ChanId c)) (Some m))
  \/ (~ has_prefix_in private_re l /\ ~ has_prefix_in public_re l /\
      ~ has_prefix_in at_re l /\ ~ has_prefix_in id_re l /\
      parse_telegram_link link = Returns None (py_int l)).
Proof.
  intros l. unfold parse_telegram_link. fold l.
  destruct (re_match private_re l) as [m|] eqn:E1.
  { left. split; [apply re_match_prefix; eauto|].
    apply re_match_Some in E1 as (w & rest & _ & M).
    apply private_groups in M as (g1 & g2 & -> & (Hne & Hd) & H2).
    unfold group. simpl.
    assert (digit_string ("1"%char :: "0"%char :: "0"%char :: g1)) as H1.
    { split; [discriminate|]. simpl. exact Hd. }
    unfold with_int at 1. change (chars "-100" ++ g1) with ("-"%char :: "1"%char :: "0"%char :: "0"%char :: g1).
    destruct (py_int_minus_digits _ (proj1 H1) (proj2 H1)) as [c ->].
    destruct (with_int_digits g2 (fun m => Returns (Some (ChanId c)) (Some m)) H2) as [m ->].
    eauto. }
  apply re_match_None in E1.
  destruct (re_match public_re l) as [m|] eqn:E2.
  { right; left. split; [assumption|]. split; [apply re_match_prefix; eauto|].
    apply re_match_Some in E2 as (w & rest & _ & M).
    apply public_groups in M as (g1 & g2 & -> & H2).
    unfold group. simpl.
    destruct (with_int_digits g2 (fun m => Returns (Some (ChanName g1)) (Some m)) H2) as [m ->].
    eauto. }
  apply re_match_None in E2.
  destruct (re_match at_re l) as [m|] eqn:E3.
  { right; right; left. do 2 (split; [assumption|]).
    split; [apply re_match_prefix; eauto|].
    apply re_match_Some in E3 as (w & rest & _ & M).
    apply at_groups in M as (g1 & g2 & -> & H2).
    unfold group. simpl.
    destruct (with_int_digits g2 (fun m => Returns (Some (ChanName g1)) (Some m)) H2) as [m ->].
    eauto. }
  apply re_match_None in E3.
  destruct (re_match id_re l) as [m|] eqn:E4.
  { right; right; right; left. do 3 (split; [assumption|]).
    split; [apply re_match_prefix; eauto|].
    apply re_match_Some in E4 as (w & rest & _ & M).
    apply id_groups in M as (g1 & g2 & -> & H2 & H1).
    unfold group. simpl.
    destruct (with_int_signed g1
                (fun c => with_int g2 (fun m => Returns (Some (ChanId c)) (Some m))) H1)
      as [c ->].
    destruct (with_int_digits g2 (fun m => Returns (Some (ChanId c)) (Some m)) H2) as [m ->].
    eauto. }
  apply re_match_None in E4.
  right; right; right; right. do 4 (split; [assumption|]).
  destruct (py_int l); reflexivity.
Qed.

End LinkParser.

(** C5 (as the code has it).  The parser fails, returning [(None, None)],
    exactly on the inputs it does not accept: those of which, once
    stripped, no beginning is a private-channel link, a public-username
    link, an [@username/sequence] shorthand or a [channelId/sequence]
    pair, and which are not as a whole an integer.  It never raises and
    never returns a channel without a sequence number.  Characters that
    follow a link of one of the first four forms do not make it fail. *)
Theorem parse_fails_exactly_on_unaccepted_input (link : str) :
  (Link.parse_telegram_link link = Link.Returns None None
   <-> ~ Link.accepted_form link)
  /\ Link.parse_telegram_link link <> Link.RaisesValueError
  /\ (forall c, Link.parse_telegram_link link <> Link.Returns (Some c) None).
Proof.
  unfold Link.accepted_form.
  destruct (parse_telegram_link_cases link)
    as [(P & c & m & E) | [(N1 & P & n & m & E) | [(N1 & N2 & P & n & m & E)
       | [(N1 & N2 & N3 & P & c & m & E) | (N1 & N2 & N3 & N4 & E)]]]];
    rewrite E.
  1-4: (split; [split; [discriminate | intros H; exfalso; apply H; tauto]
               | split; [discriminate | intros c0 H; discriminate H]]).
  split; [|split; [discriminate | intros c H; discriminate H]].
  destruct (py_int (strip link)) as [z|] eqn:Ez.
  - split; [discriminate|]. intros H. exfalso. apply H.
    do 4 right. eauto.
  - split; [|reflexivity]. intros _ [H|[H|[H|[H|[z H]]]]]; auto. discriminate.
Qed.

(** C5 (as stated) fails: this input is none of the five forms, the
    characters [abc] following the link, and the parser returns the
    channel and the sequence number of the link it begins with. *)
Lemma parse_accepts_trailing_characters :
  ~ Link.recognized_form (chars "https://t.me/c/1234567890/123abc")
  /\ Link.parse_telegram_link (chars "https://t.me/c/1234567890/123abc")
     = Link.Returns (Some (Link.ChanId (-1001234567890))) (Some 123).
Proof.
  split; [|vm_compute; reflexivity].
  unfold Link.recognized_form. rewrite <- !re_fullmatch_language.
  intros [H|[H|[H|[H|H]]]]; vm_compute in H; destruct H as [? H]; discriminate H.
Qed.

Example parse_private :
  Link.parse_telegram_link (chars "https://t.me/c/1234567890/123")
  = Link.Returns (Some (Link.ChanId (-1001234567890))) (Some 123).
Proof. vm_compute. reflexivity. Qed.

Example parse_public :
  Link.parse_telegram_link (chars " t.me/channelname/123 ")
  = Link.Returns (Some (Link.ChanName (chars "channelname"))) (Some 123).
Proof. vm_compute. reflexivity. Qed.

Example parse_at :
  Link.parse_telegram_link (chars "@chan_/7") = Link.Returns None None
  /\ Link.parse_telegram_link (chars "@chan5/7")
     = Link.Returns (Some (Link.ChanName (chars "chan5"))) (Some 7).
Proof. split; vm_compute; reflexivity. Qed.

Example parse_direct :
  Link.parse_telegram_link (chars "-100123456789/123")
  = Link.Returns (Some (Link.ChanId (-100123456789))) (Some 123).
Proof. vm_compute. reflexivity. Qed.

Example parse_bare :
  Link.parse_telegram_link (chars "1_000") = Link.Returns None (Some 1000)
  /\ Link.parse_telegram_link (chars "12a") = Link.Returns None None.
Proof. split; vm_compute; reflexivity. Qed.

(** ** The cloning engine *)

Section Engine.
Import Forwarder.

Variable self : MessageForwarder.
Variable client : Client.
Variables source_channel_id destination_channel_id : Z.
Variable on_success : Z -> list Event.

Hypothesis on_success_quiet : forall i,
  loop_calls (on_success i) = [] /\ all_calls (on_success i) = []
  /\ delays (on_success i) = [] /\ marks (on_success i) = [].

Local Abbreviation iter cb := (iteration self client cb source_channel_id destination_channel_id on_success).
Local Abbreviation proc cb := (process self client cb source_channel_id destination_channel_id on_success).
Local Abbreviation script m := (copy_message_replies client destination_channel_id source_channel_id (id m)).

Lemma loop_calls_app a b : loop_calls (a ++ b) = loop_calls a ++ loop_calls b.
Proof.
  induction a as [|[? [|?]| | | |] a IH]; simpl; rewrite ?IH; reflexivity.
Qed.

Lemma all_calls_app a b : all_calls (a ++ b) = all_calls a ++ all_calls b.
Proof. induction a as [|[] a IH]; simpl; rewrite ?IH; reflexivity. Qed.

Lemma delays_app a b : delays (a ++ b) = delays a ++ delays b.
Proof. induction a as [|[] a IH]; simpl; rewrite ?IH; reflexivity. Qed.

Lemma marks_app a b : marks (a ++ b) = marks a ++ marks b.
Proof.
  induction a as [|[? [|?]| | | |] a IH]; simpl; rewrite ?IH; reflexivity.
Qed.

(** What [copy_message] returns is decided by the answer that ends the
    attempts. *)
Lemma copy_message_result mid sc : forall d,
  fst (copy_message mid d sc) =
  match final_reply sc with
  | Copied new_id => inl (true, Some new_id, [])
  | RaisesChatForwardsRestricted => inl (false, None, chars "forwarding_restricted")
  | RaisesRPCError text => inl (false, None, text)
  | RaisesOther text => inr (OtherException text)
  end.
Proof.
  induction sc as [r|v sc IH]; intros d; simpl; [reflexivity|].
  specialize (IH (S d)). destruct (copy_message mid (S d) sc). exact IH.
Qed.

Lemma copy_message_events mid sc : forall d,
  let evs := snd (copy_message mid d sc) in
  loop_calls evs = match d with O => [mid] | S _ => [] end
  /\ (exists n, all_calls evs = repeat mid (S n))
  /\ delays evs = []
  /\ marks evs = match d with O => [false] | S _ => [] end.
Proof.
  induction sc as [r|v sc IH]; intros d; simpl.
  - repeat split; try (destruct d; reflexivity). now exists O.
  - specialize (IH (S d)). destruct (copy_message mid (S d) sc) as [res evs].
    simpl in *. destruct IH as (H1 & [n H2] & H3 & H4).
    repeat split.
    + destruct d; simpl; now rewrite H1.
    + exists (S n). simpl. now rewrite H2.
    + assumption.
    + destruct d; simpl; now rewrite H4.
Qed.

Lemma progress_update_events cb i st :
  let evs := snd (progress_update cb i st) in
  loop_calls evs = [] /\ all_calls evs = [] /\ delays evs = [] /\ marks evs = [].
Proof.
  unfold progress_update. destruct cb as [f|]; [|now simpl].
  destruct ((i + 1) mod 10 =? 0); now simpl.
Qed.

(** The cases of one iteration. *)
Lemma iteration_cases cb i m st :
  let copy_events := snd (copy_message (id m) 0 (script m)) in
  (skipped_message m = true /\ iter cb i m st = (inl (add_skipped st), []))
  \/ (skipped_message m = false /\ exists text,
        final_reply (script m) = RaisesOther text
        /\ iter cb i m st = (inr (Raise (OtherException text) st), copy_events))
  \/ (skipped_message m = false
       /\ (final_reply (script m) = RaisesChatForwardsRestricted
           \/ final_reply (script m) = RaisesRPCError (chars "forwarding_restricted"))
       /\ iter cb i m st =
            (inr (Return (abort (add_failed st)
                    (cross ++ chars " Channel has forwarding restricted. Cannot clone."))),
             copy_events))
  \/ (skipped_message m = false /\ exists new_id,
        final_reply (script m) = Copied new_id
        /\ iter cb i m st =
             finish_item self cb i (add_success st) (copy_events ++ on_success (id m)))
  \/ (skipped_message m = false /\ exists text,
        final_reply (script m) = RaisesRPCError text
        /\ text <> chars "forwarding_restricted"
        /\ iter cb i m st =
             finish_item self cb i (note_error (id m) text (add_failed st)) copy_events).
Proof.
  intros copy_events. subst copy_events.
  unfold iteration. fold (skipped_message m).
  destruct (skipped_message m) eqn:Sk; [now left|]. right.
  pose proof (copy_message_result (id m) (script m) 0%nat) as R.
  destruct (copy_message (id m) 0 (script m)) as [res evs] eqn:C. simpl in R. simpl.
  destruct (final_reply (script m)) as [n| |text|text] eqn:F; subst res.
  - do 2 right. left. split; [reflexivity|]. now exists n.
  - right. left. simpl. auto.
  - simpl. destruct (bool_decide (text = chars "forwarding_restricted")) eqn:B.
    + apply bool_decide_eq_true in B. subst text. right. left. auto.
    + apply bool_decide_eq_false in B. do 3 right. split; [reflexivity|].
      exists text. auto.
  - left. split; [reflexivity|]. now exists text.
Qed.

Lemma finish_item_cases cb i st evs :
  (exists e pevs, progress_update cb i st = (Some e, pevs)
     /\ finish_item self cb i st evs = (inr (Raise e st), evs ++ pevs))
  \/ (exists pevs, progress_update cb i st = (None, pevs)
     /\ finish_item self cb i st evs
        = (inl st, evs ++ pevs ++ [Sleep (delay_between_messages self)])).
Proof.
  unfold finish_item. destruct (progress_update cb i st) as [[e|] pevs]; eauto.
Qed.

Lemma counted_add_skipped st : counted (add_skipped st) = counted st + 1.
Proof. unfold counted. simpl. lia. Qed.

Lemma counted_add_success st : counted (add_success st) = counted st + 1.
Proof. unfold counted. simpl. lia. Qed.

Lemma counted_add_failed st : counted (add_failed st) = counted st + 1.
Proof. unfold counted. simpl. lia. Qed.

Lemma note_error_counters mid err st :
  success (note_error mid err st) = success st
  /\ failed (note_error mid err st) = failed st
  /\ skipped (note_error mid err st) = skipped st
  /\ total (note_error mid err st) = total st.
Proof. unfold note_error. destruct (_ <? 5); simpl; auto. Qed.

Lemma counted_note_error mid err st : counted (note_error mid err st) = counted st.
Proof.
  unfold counted. destruct (note_error_counters mid err st) as (-> & -> & -> & _).
  reflexivity.
Qed.

(** What one iteration does to the counters and what it shows outside. *)
Lemma iteration_effect cb i m st :
  let r := iter cb i m st in
  Forall (eq (id m)) (all_calls (snd r))
  /\ Forall (eq (id m)) (loop_calls (snd r))
  /\ (length (loop_calls (snd r)) <= 1)%nat
  /\ Forall (eq (delay_between_messages self)) (delays (snd r))
  /\ match fst r with
     | inl st' =>
         counted st' = counted st + 1
         /\ ((skipped_message m = true /\ marks (snd r) = [] /\ delays (snd r) = []
              /\ success st' + failed st' = success st + failed st)
             \/ (skipped_message m = false /\ marks (snd r) = [false; true]
                 /\ delays (snd r) = [delay_between_messages self]
                 /\ success st' + failed st' = success st + failed st + 1))
     | inr exit =>
         marks (snd r) = [false] /\ delays (snd r) = []
         /\ match exit with
            | Return rep => aborted rep = true
            | Raise _ _ => True
            | Exhausted _ => False
            end
     end.
Proof.
  intros r. subst r.
  destruct (copy_message_events (id m) (script m) 0%nat) as (L & [n A] & D & K).
  destruct (on_success_quiet (id m)) as (L' & A' & D' & K').
  assert (Hall : Forall (eq (id m)) (repeat (id m) (S n))).
  { apply List.Forall_forall. intros x Hx. symmetry. now apply repeat_spec in Hx. }
  destruct (iteration_cases cb i m st)
    as [[Sk ->] | [(Sk & text & F & ->) | [(Sk & F & ->)
       | [(Sk & nid & F & ->) | (Sk & text & F & Ne & ->)]]]]; cbn [fst snd].
  - simpl. rewrite counted_add_skipped. repeat split; auto.
  - rewrite L, A, D, K. repeat split; auto.
  - rewrite L, A, D, K. repeat split; auto.
  - destruct (finish_item_cases cb i (add_success st)
                (snd (copy_message (id m) 0 (script m)) ++ on_success (id m)))
      as [(e & pevs & P & ->) | (pevs & P & ->)];
      destruct (progress_update_events cb i (add_success st)) as (L2 & A2 & D2 & K2);
      rewrite P in L2, A2, D2, K2; cbn [fst snd] in *;
      rewrite ?loop_calls_app, ?all_calls_app, ?delays_app, ?marks_app,
        L, A, D, K, L', A', D', K', L2, A2, D2, K2; simpl;
      rewrite ?app_nil_r.
    + repeat split; auto.
    + rewrite counted_add_success. repeat split; auto.
      right. repeat split; auto. simpl. lia.
  - destruct (finish_item_cases cb i (note_error (id m) text (add_failed st))
                (snd (copy_message (id m) 0 (script m))))
      as [(e & pevs & P & ->) | (pevs & P & ->)];
      destruct (progress_update_events cb i (note_error (id m) text (add_failed st)))
        as (L2 & A2 & D2 & K2);
      rewrite P in L2, A2, D2, K2; cbn [fst snd] in *;
      rewrite ?loop_calls_app, ?all_calls_app, ?delays_app, ?marks_app,
        L, A, D, K, L2, A2, D2, K2; simpl;
      rewrite ?app_nil_r.
    + repeat split; auto.
    + rewrite counted_note_error, counted_add_failed.
      destruct (note_error_counters (id m) text (add_failed st)) as (-> & -> & _).
      repeat split; auto. right. repeat split; auto. simpl. lia.
Qed.

Lemma process_cons cb i m rest st :
  proc cb i (m :: rest) st =
  match iter cb i m st with
  | (inl st', evs) =>
      let (exit, evs') := proc cb (i + 1) rest st' in (exit, evs ++ evs')
  | (inr exit, evs) => (exit, evs)
  end.
Proof. reflexivity. Qed.

(** A loop over [pre ++ rest] that is not left within [pre] goes on
    with [rest] from where [pre] ends. *)
Lemma process_app cb pre rest : forall i st st1 evs1,
  proc cb i pre st = (Exhausted st1, evs1) ->
  proc cb i (pre ++ rest) st =
  let (exit, evs2) := proc cb (i + Z.of_nat (length pre)) rest st1 in
  (exit, evs1 ++ evs2).
Proof.
  induction pre as [|m pre IH]; intros i st st1 evs1 H.
  - simpl in H. injection H as <- <-. simpl. rewrite Z.add_0_r.
    now destruct (proc cb i rest st).
  - rewrite process_cons in H. rewrite <- app_comm_cons, process_cons.
    pose proof (iteration_effect cb i m st) as (_ & _ & _ & _ & E).
    destruct (iter cb i m st) as [[st'|exit] evs]; cbn [fst] in E;
      [clear E | injection H as -> _; destruct E as (_ & _ & [])].
    destruct (proc cb (i + 1) pre st') as [exit' evs'] eqn:E.
    injection H as -> <-.
    rewrite (IH _ _ _ _ E).
    replace (i + 1 + Z.of_nat (length pre)) with (i + Z.of_nat (length (m :: pre)))
      by (simpl length; lia).
    destruct (proc cb _ rest st1). now rewrite app_assoc.
Qed.

Lemma process_exhausted_counted cb msgs : forall i st st' evs,
  proc cb i msgs st = (Exhausted st', evs) ->
  counted st' = counted st + Z.of_nat (length msgs).
Proof.
  induction msgs as [|m msgs IH]; intros i st st' evs H.
  - simpl in H. injection H as <- _. simpl. lia.
  - rewrite process_cons in H.
    pose proof (iteration_effect cb i m st) as (_ & _ & _ & _ & E).
    destruct (iter cb i m st) as [[st1|exit] evs1]; cbn [fst snd] in E.
    + destruct (proc cb (i + 1) msgs st1) as [exit' evs'] eqn:P.
      injection H as -> _. apply IH in P. destruct E as [E _].
      simpl length. lia.
    + injection H as -> _. destruct E as (_ & _ & []).
Qed.

(** The loop left by the restriction signalled on the message that
    follows [pre]: the report and what was done. *)
Lemma run_restricted cb pre m post st evs0 st1 evs1 :
  proc cb 0 pre st = (Exhausted st1, evs1) ->
  skipped_message m = false ->
  final_reply (script m) = RaisesChatForwardsRestricted ->
  run self client cb source_channel_id destination_channel_id on_success
    (Ready (pre ++ m :: post) st evs0)
  = (abort (add_failed st1)
       (cross ++ chars " Channel has forwarding restricted. Cannot clone."),
     evs0 ++ evs1 ++ snd (copy_message (id m) 0 (script m))).
Proof.
  intros P Sk F. unfold run. rewrite (process_app cb pre (m :: post) _ _ _ _ P).
  rewrite process_cons.
  destruct (iteration_cases cb (0 + Z.of_nat (length pre)) m st1)
    as [[Sk' _] | [(_ & text & F' & _) | [(_ & _ & ->)
       | [(_ & nid & F' & _) | (_ & text & F' & _)]]]];
    try congruence.
  reflexivity.
Qed.

(** With a sink that never raises the loop is left as without a sink. *)
Lemma process_quiet_sink f msgs :
  (forall text, f text = None) ->
  forall i st, fst (proc (Some f) i msgs st) = fst (proc None i msgs st).
Proof.
  intros Q. induction msgs as [|m msgs IH]; intros i st; [reflexivity|].
  rewrite !process_cons.
  assert (E : forall st' evs, exists pevs,
             finish_item self (Some f) i st' evs
             = (inl st', evs ++ pevs ++ [Sleep (delay_between_messages self)])
             /\ finish_item self None i st' evs
                = (inl st', evs ++ [] ++ [Sleep (delay_between_messages self)])).
  { intros st' evs. unfold finish_item, progress_update.
    destruct ((i + 1) mod 10 =? 0); rewrite ?Q; eauto. }
  unfold iteration.
  destruct (empty m || service m).
  - specialize (IH (i + 1) (add_skipped st)).
    destruct (proc (Some f) (i + 1) msgs (add_skipped st)),
             (proc None (i + 1) msgs (add_skipped st)). exact IH.
  - destruct (copy_message (id m) 0 (script m)) as [[[[ok nid] err]|e] evs];
      [|reflexivity].
    destruct ok; [|destruct (bool_decide _); [reflexivity|]].
    + destruct (E (add_success st) (evs ++ on_success (id m))) as (pevs & -> & ->).
      specialize (IH (i + 1) (add_success st)).
      destruct (proc (Some f) (i + 1) msgs (add_success st)),
               (proc None (i + 1) msgs (add_success st)). exact IH.
    + destruct (E (note_error (id m) err (add_failed st)) evs) as (pevs & -> & ->).
      specialize (IH (i + 1) (note_error (id m) err (add_failed st))).
      destruct (proc (Some f) (i + 1) msgs _), (proc None (i + 1) msgs _). exact IH.
Qed.

(** The delays of a loop: one after each message copied or failed that
    did not end it, each of the configured duration, none elsewhere. *)
Lemma process_delays cb msgs : forall i st,
  let r := proc cb i msgs st in
  exists n tail,
    marks (snd r) = concat (repeat [false; true] n) ++ tail
    /\ delays (snd r) = repeat (delay_between_messages self) n
    /\ match fst r with
       | Exhausted st' =>
           tail = [] /\ success st' + failed st' = success st + failed st + Z.of_nat n
       | Return rep => tail = [false] /\ aborted rep = true
       | Raise _ _ => tail = [false]
       end.
Proof.
  induction msgs as [|m msgs IH]; intros i st r; subst r.
  - exists O, []. simpl. repeat split; auto. lia.
  - rewrite process_cons.
    pose proof (iteration_effect cb i m st) as (_ & _ & _ & _ & E).
    destruct (iter cb i m st) as [[st1|exit] evs1]; cbn [fst snd] in E.
    + specialize (IH (i + 1) st1).
      destruct (proc cb (i + 1) msgs st1) as [exit' evs'].
      cbn [fst snd] in *. destruct IH as (n & tail & K & D & X).
      rewrite marks_app, delays_app, K, D.
      destruct E as [_ [(Sk & -> & -> & S1) | (Sk & -> & -> & S1)]].
      * exists n, tail. simpl. repeat split; auto.
        destruct exit'; auto. destruct X as [-> X]. split; [reflexivity | lia].
      * exists (S n), tail. simpl. repeat split; auto.
        destruct exit'; auto. destruct X as [-> X]. split; [reflexivity | lia].
    + destruct E as (K & D & X). exists O, [false]. cbn [fst snd]. rewrite K, D.
      simpl. repeat split; auto. destruct exit; tauto.
Qed.

End Engine.

(** ** Order of the copies *)

Lemma StronglySorted_app_intro {A} (R : A -> A -> Prop) l1 l2 :
  StronglySorted R l1 -> StronglySorted R l2 ->
  (forall x y, In x l1 -> In y l2 -> R x y) ->
  StronglySorted R (l1 ++ l2).
Proof.
  induction l1 as [|a l1 IH]; intros S1 S2 H; simpl; [assumption|].
  inversion S1 as [|? ? S1' F1]; subst. constructor.
  - apply IH; auto. intros x y Hx Hy. apply H; simpl; auto.
  - apply List.Forall_app. split; [assumption|].
    apply List.Forall_forall. intros y Hy. apply H; simpl; auto.
Qed.

Lemma StronglySorted_rev_gt l : StronglySorted Z.gt l -> StronglySorted Z.lt (rev l).
Proof.
  induction 1 as [|a l S IH F]; simpl; [constructor|].
  apply StronglySorted_app_intro; auto.
  - repeat constructor.
  - intros x y Hx [<-|[]]. apply in_rev in Hx.
    rewrite List.Forall_forall in F. specialize (F x Hx). lia.
Qed.

Lemma StronglySorted_same l a : Forall (eq a) l -> StronglySorted Z.le l.
Proof.
  induction 1 as [|x l <- F IH]; constructor; auto.
  eapply List.Forall_impl; [|exact F]. intros y <-. lia.
Qed.

Lemma StronglySorted_short {A} (R : A -> A -> Prop) l :
  (length l <= 1)%nat -> StronglySorted R l.
Proof.
  destruct l as [|a [|b l]]; simpl; intros H; [constructor|repeat constructor|lia].
Qed.

Section Order.
Import Forwarder.

Lemma sorted_ids_filter (R : Z -> Z -> Prop) f (l : list Message) :
  StronglySorted R (map id l) -> StronglySorted R (map id (List.filter f l)).
Proof.
  induction l as [|m l IH]; simpl; intros S; [constructor|].
  inversion S as [|? ? S' F]; subst.
  destruct (f m); simpl; auto. constructor; auto.
  rewrite List.Forall_forall in *. intros x Hx. apply F.
  apply in_map_iff in Hx as (y & <- & Hy). apply filter_In in Hy as [Hy _].
  now apply in_map.
Qed.

Lemma collect_range_kept lo hi (l : list Message) :
  forall m, In m (fst (collect_range lo hi l)) -> In m l.
Proof.
  induction l as [|a l IH]; simpl; intros m H; [assumption|].
  destruct (id a <? lo); [destruct H|].
  destruct (collect_range lo hi l) as [kept broke]. simpl in *.
  destruct (id a <=? hi); simpl in H; intuition.
Qed.

Lemma sorted_ids_collect_range (R : Z -> Z -> Prop) lo hi (l : list Message) :
  StronglySorted R (map id l) ->
  StronglySorted R (map id (fst (collect_range lo hi l))).
Proof.
  induction l as [|a l IH]; simpl; intros S; [constructor|].
  inversion S as [|? ? S' F]; subst.
  destruct (id a <? lo); [constructor|].
  pose proof (collect_range_kept lo hi l) as K. specialize (IH S').
  destruct (collect_range lo hi l) as [kept broke]. simpl in *.
  destruct (id a <=? hi); simpl; auto. constructor; auto.
  rewrite List.Forall_forall in *. intros x Hx. apply F.
  apply in_map_iff in Hx as (y & <- & Hy). apply in_map. auto.
Qed.

Variable self : MessageForwarder.
Variable client : Client.
Variables source_channel_id destination_channel_id : Z.
Variable on_success : Z -> list Event.

Hypothesis on_success_quiet : forall i,
  loop_calls (on_success i) = [] /\ all_calls (on_success i) = []
  /\ delays (on_success i) = [] /\ marks (on_success i) = [].

Local Abbreviation proc cb :=
  (process self client cb source_channel_id destination_channel_id on_success).

(** Over messages of increasing ids the loop calls [copy_message] on
    increasing ids, and enters it again only for the id it is at. *)
Lemma process_calls_sorted cb msgs :
  StronglySorted Z.lt (map id msgs) ->
  forall i st,
    let evs := snd (proc cb i msgs st) in
    StronglySorted Z.lt (loop_calls evs)
    /\ StronglySorted Z.le (all_calls evs)
    /\ Forall (fun x => In x (map id msgs)) (loop_calls evs)
    /\ Forall (fun x => In x (map id msgs)) (all_calls evs).
Proof.
  induction msgs as [|m msgs IH]; intros S i st evs; subst evs.
  - simpl. repeat split; constructor.
  - simpl map in *. inversion S as [|? ? S' F]; subst.
    rewrite process_cons by assumption.
    pose proof (iteration_effect self client source_channel_id destination_channel_id
                  on_success on_success_quiet cb i m st) as (A & L & Len & _).
    assert (Here : forall l, Forall (eq (id m)) l ->
                             Forall (fun x => In x (id m :: map id msgs)) l).
    { intros l. apply List.Forall_impl. intros x <-. simpl. auto. }
    destruct (iteration self client cb source_channel_id destination_channel_id
                on_success i m st) as [[st1|exit] evs1]; cbn [fst snd] in *.
    + specialize (IH S' (i + 1) st1).
      destruct (proc cb (i + 1) msgs st1) as [exit' evs']. cbn [fst snd] in *.
      destruct IH as (S1 & S2 & I1 & I2).
      rewrite loop_calls_app, all_calls_app.
      rewrite List.Forall_forall in F, A, L, I1, I2.
      repeat split.
      * apply StronglySorted_app_intro; auto using StronglySorted_short.
        intros x y Hx Hy. rewrite <- (L x Hx). apply F, I1, Hy.
      * apply StronglySorted_app_intro; auto.
        { apply StronglySorted_same with (a := id m). now apply List.Forall_forall. }
        intros x y Hx Hy. rewrite <- (A x Hx). apply Z.lt_le_incl, F, I2, Hy.
      * apply List.Forall_app. split.
        { apply Here. now apply List.Forall_forall. }
        apply List.Forall_forall. intros x Hx. simpl. right. now apply I1.
      * apply List.Forall_app. split.
        { apply Here. now apply List.Forall_forall. }
        apply List.Forall_forall. intros x Hx. simpl. right. now apply I2.
    + repeat split; auto using StronglySorted_short.
      apply StronglySorted_same with (a := id m). assumption.
Qed.

End Order.

(** ** The two entry points *)

Section Jobs.
Import Forwarder.

Lemma announce_events cb text :
  let evs := snd (announce cb text) in
  loop_calls evs = [] /\ all_calls evs = [] /\ delays evs = [] /\ marks evs = [].
Proof. destruct cb; simpl; auto. Qed.

Lemma announce_quiet f text :
  (forall t, f t = None) -> fst (announce (Some f) text) = None.
Proof. intros Q. simpl. apply Q. Qed.

Lemma handle_aborted e st : aborted (handle e st) = true.
Proof. destruct e; reflexivity. Qed.

(** What [clone_channel] has when it reaches its loop. *)
Lemma collect_channel_facts client src cb start limit :
  match collect_channel client src cb start limit with
  | Early rep evs =>
      aborted rep = true
      /\ loop_calls evs = [] /\ all_calls evs = [] /\ delays evs = [] /\ marks evs = []
  | Ready msgs st evs =>
      msgs = rev (keep_after start (yielded (get_chat_history client src 0 limit)))
      /\ success st = 0 /\ failed st = 0 /\ skipped st = 0
      /\ loop_calls evs = [] /\ all_calls evs = [] /\ delays evs = [] /\ marks evs = []
  end.
Proof.
  unfold collect_channel.
  destruct (fails (get_chat_history client src 0 limit)) as [e|].
  { rewrite handle_aborted. simpl. auto. }
  match goal with |- context [announce cb ?t] =>
    pose proof (announce_events cb t) as E; destruct (announce cb t) as [[e|] evs] end;
    simpl in E; rewrite ?handle_aborted; intuition.
Qed.

(** What [clone_range] has when it reaches its loop. *)
Lemma collect_messages_facts client src a b cb :
  match collect_messages client src a b cb with
  | Early rep evs =>
      aborted rep = true
      /\ loop_calls evs = [] /\ all_calls evs = [] /\ delays evs = [] /\ marks evs = []
  | Ready msgs st evs =>
      (exists lo hi offset limit,
          msgs = rev (fst (collect_range lo hi
                             (yielded (get_chat_history client src offset limit)))))
      /\ success st = 0 /\ failed st = 0 /\ skipped st = 0
      /\ loop_calls evs = [] /\ all_calls evs = [] /\ delays evs = [] /\ marks evs = []
  end.
Proof.
  unfold collect_messages.
  destruct (if a >? b then (b, a) else (a, b)) as [lo hi].
  match goal with |- context [announce cb ?t] =>
    pose proof (announce_events cb t) as E; destruct (announce cb t) as [[e|] evs] end;
    simpl in E; rewrite ?handle_aborted; [intuition|].
  destruct (collect_range lo hi _) as [kept broke] eqn:C.
  destruct (if broke then None else fails _) as [e|];
    rewrite ?handle_aborted; [intuition|].
  destruct (total _ =? 0); [simpl; intuition|].
  match goal with |- context [announce cb ?t] =>
    pose proof (announce_events cb t) as E1; destruct (announce cb t) as [[e|] evs1] end;
    simpl in E1; rewrite ?handle_aborted, ?loop_calls_app, ?all_calls_app,
      ?delays_app, ?marks_app.
  - destruct E as (-> & -> & -> & ->), E1 as (-> & -> & -> & ->). auto.
  - destruct E as (-> & -> & -> & ->), E1 as (-> & -> & -> & ->).
    repeat split; auto. exists lo, hi, (hi + 1), (Some (hi - lo + 100)).
    now rewrite C.
Qed.

Lemma update_quiet src user : forall i : Z,
  loop_calls [UpdateLastMessageId src user i] = []
  /\ all_calls [UpdateLastMessageId src user i] = []
  /\ delays [UpdateLastMessageId src user i] = []
  /\ marks [UpdateLastMessageId src user i] = [].
Proof. intros i. simpl. auto. Qed.

Lemma nothing_quiet : forall i : Z,
  loop_calls ((fun _ : Z => @nil Event) i) = []
  /\ all_calls ((fun _ : Z => @nil Event) i) = []
  /\ delays ((fun _ : Z => @nil Event) i) = []
  /\ marks ((fun _ : Z => @nil Event) i) = [].
Proof. intros i. simpl. auto. Qed.

Lemma reason_not_empty text : cross ++ text <> [].
Proof. discriminate. Qed.

Lemma aborted_at_restricted st1 (pre : list Message) st evs1 self client cb src dst on_s :
  (forall i, loop_calls (on_s i) = [] /\ all_calls (on_s i) = []
             /\ delays (on_s i) = [] /\ marks (on_s i) = []) ->
  success st = 0 -> failed st = 0 -> skipped st = 0 ->
  process self client cb src dst on_s 0 pre st = (Exhausted st1, evs1) ->
  aborted_at (S (length pre))
    (abort (add_failed st1)
       (cross ++ chars " Channel has forwarding restricted. Cannot clone."))
  /\ failed (add_failed st1) = failed st1 + 1.
Proof.
  intros Q S0 F0 K0 P. split; [|reflexivity].
  unfold aborted_at. split; [reflexivity|]. split.
  - eexists. split; [reflexivity | apply reason_not_empty].
  - apply process_exhausted_counted in P; [|assumption].
    cbn [stats abort]. rewrite counted_add_failed, P. unfold counted.
    rewrite S0, F0, K0. lia.
Qed.

End Jobs.

(** C1.  When the channel's restriction is first signalled while the
    [k]-th message of the ordered list is copied — the [k - 1] messages
    [pre] before it having been processed without the loop being left,
    and [m] being the [k]-th — the report of the job, full clone or range
    clone alike, has [aborted] set with a reason that is not empty and
    counts [k] items in all: one for each message of [pre] and one
    failure for [m].  What the job did ends with the attempts at [m]:
    no message after it is touched. *)
Theorem abort_preserves_partial_counts
    (self : Forwarder.MessageForwarder) (client : Forwarder.Client)
    (source destination user start a b : Z) (limit : option Z)
    (cb : Forwarder.Callback)
    (pre : list Forwarder.Message) (m : Forwarder.Message)
    (post : list Forwarder.Message) :
  let script := Forwarder.copy_message_replies client destination source (Forwarder.id m) in
  let attempts := snd (Forwarder.copy_message (Forwarder.id m) 0 script) in
  Forwarder.skipped_message m = false ->
  Forwarder.final_reply script = Forwarder.RaisesChatForwardsRestricted ->
  (forall st evs0 st1 evs1,
      Forwarder.collect_channel client source cb start limit
      = Forwarder.Ready (pre ++ m :: post) st evs0 ->
      Forwarder.process self client cb source destination
        (fun i => [Forwarder.UpdateLastMessageId source user i]) 0 pre st
      = (Forwarder.Exhausted st1, evs1) ->
      let r := Forwarder.clone_channel self client source destination user cb start limit in
      Forwarder.aborted_at (S (length pre)) (fst r)
      /\ Forwarder.failed (Forwarder.stats (fst r)) = Forwarder.failed st1 + 1
      /\ snd r = evs0 ++ evs1 ++ attempts)
  /\ (forall st evs0 st1 evs1,
      Forwarder.collect_messages client source a b cb
      = Forwarder.Ready (pre ++ m :: post) st evs0 ->
      Forwarder.process self client cb source destination (fun _ => []) 0 pre st
      = (Forwarder.Exhausted st1, evs1) ->
      let r := Forwarder.clone_range self client source destination a b user cb in
      Forwarder.aborted_at (S (length pre)) (fst r)
      /\ Forwarder.failed (Forwarder.stats (fst r)) = Forwarder.failed st1 + 1
      /\ snd r = evs0 ++ evs1 ++ attempts).
Proof.
  intros script attempts Sk F. split; intros st evs0 st1 evs1 C P r; subst r.
  - unfold Forwarder.clone_channel. rewrite C.
    rewrite (run_restricted self client source destination _ (update_quiet source user)
               cb pre m post st evs0 st1 evs1 P Sk F).
    pose proof (collect_channel_facts client source cb start limit) as H.
    rewrite C in H. destruct H as (_ & S0 & F0 & K0 & _).
    destruct (aborted_at_restricted st1 pre st evs1 self client cb source destination _
                (update_quiet source user) S0 F0 K0 P) as [H1 H2].
    cbn [fst snd]. auto.
  - unfold Forwarder.clone_range. rewrite C.
    rewrite (run_restricted self client source destination _ nothing_quiet
               cb pre m post st evs0 st1 evs1 P Sk F).
    pose proof (collect_messages_facts client source a b cb) as H.
    rewrite C in H. destruct H as (_ & S0 & F0 & K0 & _).
    destruct (aborted_at_restricted st1 pre st evs1 self client cb source destination _
                nothing_quiet S0 F0 K0 P) as [H1 H2].
    cbn [fst snd]. auto.
Qed.

(** The instance of C1 on [Samples.restricted_client]: the restriction
    is signalled on the third of four messages, in both modes. *)
Lemma abort_preserves_partial_counts_witness :
  Forwarder.aborted_at 3
    (fst (Forwarder.clone_channel Forwarder.init Samples.restricted_client
            1 2 3 None 0 None))
  /\ Forwarder.aborted_at 3
       (fst (Forwarder.clone_range Forwarder.init Samples.restricted_client
               1 2 1 4 3 None)).
Proof.
  destruct (abort_preserves_partial_counts Forwarder.init Samples.restricted_client
              1 2 3 0 1 4 None None
              [Samples.message 1; Samples.service_message 2]
              (Samples.message 3) [Samples.message 4] eq_refl eq_refl) as [Hc Hr].
  split.
  - edestruct Hc as [H _]; [reflexivity | reflexivity | exact H].
  - edestruct Hr as [H _]; [reflexivity | reflexivity | exact H].
Defined.

Section JobProperties.
Import Forwarder.

Lemma close_fst r : fst (close r) =
  match fst r with
  | Exhausted st => finished st
  | Return rep => rep
  | Raise e st => handle e st
  end.
Proof. destruct r as [[st|rep|e st] evs]; reflexivity. Qed.

Lemma close_snd r : snd (close r) = snd r.
Proof. destruct r as [[st|rep|e st] evs]; reflexivity. Qed.

Lemma run_ready self client cb src dst on_s msgs st evs0 :
  let r := process self client cb src dst on_s 0 msgs st in
  run self client cb src dst on_s (Ready msgs st evs0)
  = (fst (close r), evs0 ++ snd r).
Proof.
  intros r. subst r. unfold run.
  rewrite <- (close_snd (process self client cb src dst on_s 0 msgs st)).
  now destruct (close _).
Qed.

Lemma call_then_delay_pairs n tail :
  tail = [] \/ tail = [false] ->
  call_then_delay (concat (repeat [false; true] n) ++ tail) = true.
Proof.
  intros H. induction n as [|n IH]; simpl; [|exact IH].
  destruct H as [-> | ->]; reflexivity.
Qed.

Lemma run_delays self client cb src dst on_s c :
  (forall i, loop_calls (on_s i) = [] /\ all_calls (on_s i) = []
             /\ delays (on_s i) = [] /\ marks (on_s i) = []) ->
  delay_between_messages self = 1.5%Q ->
  match c with
  | Early rep evs => aborted rep = true /\ delays evs = [] /\ marks evs = []
  | Ready msgs st evs =>
      success st = 0 /\ failed st = 0 /\ delays evs = [] /\ marks evs = []
  end ->
  delays_as_designed (run self client cb src dst on_s c).
Proof.
  intros Q D H. unfold delays_as_designed. destruct c as [rep evs|msgs st evs].
  - destruct H as (A & D0 & K0). cbn [run fst snd]. rewrite A, D0, K0.
    repeat split; auto. discriminate.
  - destruct H as (S0 & F0 & D0 & K0). rewrite run_ready. cbn [fst snd].
    rewrite delays_app, marks_app, D0, K0, close_fst. simpl app.
    destruct (process_delays self client src dst on_s Q cb msgs 0 st)
      as (n & tail & K & Dl & X).
    rewrite K, Dl, D. repeat split.
    + apply List.Forall_forall. intros x Hx. symmetry. now apply repeat_spec in Hx.
    + apply call_then_delay_pairs.
      destruct (fst (process self client cb src dst on_s 0 msgs st)); intuition.
    + rewrite repeat_length.
      destruct (fst (process self client cb src dst on_s 0 msgs st)) as [st'|rep|e st'].
      * intros _. simpl. lia.
      * destruct X as [_ ->]. discriminate.
      * rewrite handle_aborted. discriminate.
Qed.

Lemma collect_channel_quiet client src f start limit :
  (forall t, f t = None) ->
  match collect_channel client src (Some f) start limit,
        collect_channel client src None start limit with
  | Early rep _, Early rep' _ => rep = rep'
  | Ready msgs st _, Ready msgs' st' _ => msgs = msgs' /\ st = st'
  | _, _ => False
  end.
Proof.
  intros Q. unfold collect_channel.
  destruct (fails _); [reflexivity|]. simpl. rewrite Q. auto.
Qed.

Lemma collect_messages_quiet client src a b f :
  (forall t, f t = None) ->
  match collect_messages client src a b (Some f),
        collect_messages client src a b None with
  | Early rep _, Early rep' _ => rep = rep'
  | Ready msgs st _, Ready msgs' st' _ => msgs = msgs' /\ st = st'
  | _, _ => False
  end.
Proof.
  intros Q. unfold collect_messages.
  destruct (if a >? b then (b, a) else (a, b)) as [lo hi].
  simpl. rewrite Q.
  destruct (collect_range lo hi _) as [kept broke].
  destruct (if broke then None else fails _); [reflexivity|].
  destruct (_ =? 0); [reflexivity|]. rewrite Q. auto.
Qed.

Lemma run_quiet_sink self client src dst on_s f c c' :
  (forall t, f t = None) ->
  match c, c' with
  | Early rep _, Early rep' _ => rep = rep'
  | Ready msgs st _, Ready msgs' st' _ => msgs = msgs' /\ st = st'
  | _, _ => False
  end ->
  fst (run self client (Some f) src dst on_s c) = fst (run self client None src dst on_s c').
Proof.
  intros Q H. destruct c as [rep evs|msgs st evs], c' as [rep' evs'|msgs' st' evs'];
    try contradiction.
  - exact H.
  - destruct H as [<- <-]. rewrite !run_ready. cbn [fst]. rewrite !close_fst.
    now rewrite (process_quiet_sink self client src dst on_s f msgs Q).
Qed.

End JobProperties.

Section Calls.
Import Forwarder.

Lemma tried_ids_cons m msgs :
  tried_ids (m :: msgs) = (if skipped_message m then [] else [id m]) ++ tried_ids msgs.
Proof. unfold tried_ids. cbn [List.filter]. now destruct (skipped_message m). Qed.

Lemma tried_ids_all msgs :
  (forall m, In m msgs -> skipped_message m = false) -> tried_ids msgs = map id msgs.
Proof.
  induction msgs as [|m msgs IH]; intros H; [reflexivity|].
  rewrite tried_ids_cons, (H m (or_introl eq_refl)), IH; [reflexivity|].
  intros x Hx. apply H. now right.
Qed.

Lemma up_to_first_none (p : Message -> bool) msgs :
  (forall m, In m msgs -> p m = false) ->
  up_to_first p msgs = msgs /\ existsb p msgs = false.
Proof.
  induction msgs as [|m msgs IH]; intros H; [auto|].
  cbn [up_to_first existsb]. rewrite (H m (or_introl eq_refl)).
  destruct IH as [-> ->]; auto. intros x Hx. apply H. now right.
Qed.

Variable self : MessageForwarder.
Variable client : Client.
Variables source destination : Z.
Variable on_success : Z -> list Event.

Hypothesis on_success_quiet : forall i,
  loop_calls (on_success i) = [] /\ all_calls (on_success i) = []
  /\ delays (on_success i) = [] /\ marks (on_success i) = [].

Variable cb : Callback.

Local Abbreviation iter := (iteration self client cb source destination on_success).
Local Abbreviation proc := (process self client cb source destination on_success).
Local Abbreviation script m := (copy_message_replies client destination source (id m)).
Local Abbreviation ends := (ends_job client source destination).

Lemma finish_item_calls i st evs :
  loop_calls (snd (finish_item self cb i st evs)) = loop_calls evs.
Proof.
  unfold finish_item, progress_update.
  destruct cb as [f|]; [destruct (_ =? 0); [destruct (f _)|]|]; cbn [fst snd];
    rewrite ?loop_calls_app; cbn; rewrite ?app_nil_r; auto.
Qed.

Lemma finish_item_quiet i st evs :
  quiet_sink cb -> exists evs', finish_item self cb i st evs = (inl st, evs').
Proof.
  intros Q. unfold finish_item, progress_update.
  destruct cb as [f|]; [|eauto]. destruct (_ =? 0); [|eauto].
  rewrite (Q f _ eq_refl). eauto.
Qed.

(** The loop calls [copy_message] once at a message it does not skip
    and not at all at one it skips, however the iteration ends; the
    entries made again are for the same message. *)
Lemma iteration_calls i m st :
  let r := iter i m st in
  loop_calls (snd r) = (if skipped_message m then [] else [id m])
  /\ Forall (fun x => In x (loop_calls (snd r))) (all_calls (snd r)).
Proof.
  intros r. subst r.
  destruct (copy_message_events (id m) (script m) 0%nat) as (L & _).
  destruct (on_success_quiet (id m)) as (L' & _).
  pose proof (iteration_effect self client source destination on_success
                on_success_quiet cb i m st) as (All & _).
  assert (E : loop_calls (snd (iter i m st)) = if skipped_message m then [] else [id m]).
  { destruct (iteration_cases self client source destination on_success cb i m st)
      as [[Sk ->]|[(Sk & text & _ & ->)|[(Sk & _ & ->)|[(Sk & n & _ & ->)|(Sk & text & _ & _ & ->)]]]];
      rewrite Sk; cbn [fst snd]; rewrite ?finish_item_calls, ?loop_calls_app, ?L, ?L';
      reflexivity. }
  split; [exact E|]. rewrite E.
  destruct (skipped_message m) eqn:Sk.
  - destruct (iteration_cases self client source destination on_success cb i m st)
      as [[_ ->]|[(Sk' & _)|[(Sk' & _)|[(Sk' & _)|(Sk' & _)]]]]; try congruence.
    constructor.
  - eapply List.Forall_impl; [|exact All]. intros x <-. now left.
Qed.

(** How an iteration ends: it goes on only after a message whose copy
    does not end the job, and with a sink that never raises it is left
    only at one whose copy does. *)
Lemma iteration_exit i m st :
  match fst (iter i m st) with
  | inl _ => ends m = false
  | inr (Exhausted _) => False
  | inr (Return rep) => ends m = true /\ aborted rep = true
  | inr (Raise _ _) => quiet_sink cb -> ends m = true
  end.
Proof.
  unfold ends_job.
  destruct (iteration_cases self client source destination on_success cb i m st)
    as [[Sk ->]|[(Sk & text & F & ->)|[(Sk & F & ->)|[(Sk & n & F & E)|(Sk & text & F & Ne & E)]]]];
    rewrite Sk; cbn [fst negb andb].
  - reflexivity.
  - now rewrite F.
  - split; [|reflexivity]. destruct F as [-> | ->]; [reflexivity|].
    now apply bool_decide_eq_true_2.
  - rewrite E, F.
    destruct (finish_item_cases self cb i (add_success st)
                (snd (copy_message (id m) 0 (script m)) ++ on_success (id m)))
      as [(e & pevs & P & ->) | (pevs & P & ->)]; cbn [fst]; [|reflexivity].
    intros Q.
    destruct (finish_item_quiet i (add_success st)
                (snd (copy_message (id m) 0 (script m)) ++ on_success (id m)) Q)
      as (evs' & X).
    unfold finish_item in X. rewrite P in X. discriminate X.
  - rewrite E, F. rewrite (bool_decide_eq_false_2 _ Ne).
    destruct (finish_item_cases self cb i (note_error (id m) text (add_failed st))
                (snd (copy_message (id m) 0 (script m))))
      as [(e & pevs & P & ->) | (pevs & P & ->)]; cbn [fst]; [|reflexivity].
    intros Q.
    destruct (finish_item_quiet i (note_error (id m) text (add_failed st))
                (snd (copy_message (id m) 0 (script m))) Q)
      as (evs' & X).
    unfold finish_item in X. rewrite P in X. discriminate X.
Qed.

(** The calls of a loop: those at the messages it does not skip among
    the first [n], all of them when it runs to its end; with a sink that
    never raises, among those up to the first whose copy ends the
    job. *)
Lemma process_calls msgs : forall i st,
  let r := proc i msgs st in
  (exists n : nat,
      loop_calls (snd r) = tried_ids (firstn n msgs)
      /\ match fst r with
         | Exhausted _ => n = length msgs
         | _ => True
         end)
  /\ Forall (fun x => In x (loop_calls (snd r))) (all_calls (snd r))
  /\ (quiet_sink cb ->
      loop_calls (snd r) = tried_ids (up_to_first ends msgs)
      /\ match fst r with
         | Exhausted _ => existsb ends msgs = false
         | _ => existsb ends msgs = true
         end).
Proof.
  induction msgs as [|m msgs IH]; intros i st r; subst r.
  - cbn. split; [exists 0%nat; auto|]. split; [constructor|auto].
  - rewrite process_cons.
    pose proof (iteration_calls i m st) as [L A]. cbv zeta in L, A.
    pose proof (iteration_exit i m st) as X.
    destruct (iter i m st) as [[st1|x] evs]; cbn [fst snd] in *.
    + destruct (IH (i + 1) st1) as ((n & L' & X') & A' & Q').
      destruct (proc (i + 1) msgs st1) as [x' evs']. cbn [fst snd] in *.
      rewrite loop_calls_app, all_calls_app, L.
      split; [|split].
      * exists (S n). cbn [firstn]. rewrite tried_ids_cons, L'. split; [reflexivity|].
        destruct x'; auto. simpl. congruence.
      * rewrite <- L. apply List.Forall_app. split.
        { eapply List.Forall_impl; [|exact A]. intros y Hy. apply in_or_app. now left. }
        { eapply List.Forall_impl; [|exact A']. intros y Hy. apply in_or_app. now right. }
      * intros Q. destruct (Q' Q) as [L2 E2]. cbn [up_to_first existsb].
        rewrite X, tried_ids_cons, L2. split; [reflexivity|exact E2].
    + split; [|split].
      * exists 1%nat. rewrite L.
        split; [unfold tried_ids; cbn; now destruct (skipped_message m)|].
        destruct x; [contradiction|exact I|exact I].
      * exact A.
      * intros Q. cbn [up_to_first existsb].
        assert (E : ends m = true) by (destruct x; [contradiction|apply X|apply X, Q]).
        rewrite E, L.
        split; [unfold tried_ids; cbn; now destruct (skipped_message m)|].
        destruct x; [contradiction|reflexivity|reflexivity].
Qed.

(** The same for a job that has reached its loop. *)
Lemma run_calls msgs st evs0 :
  loop_calls evs0 = [] -> all_calls evs0 = [] ->
  let r := run self client cb source destination on_success (Ready msgs st evs0) in
  (exists n : nat,
      loop_calls (snd r) = tried_ids (firstn n msgs)
      /\ (aborted (fst r) = true \/ n = length msgs))
  /\ Forall (fun x => In x (loop_calls (snd r))) (all_calls (snd r))
  /\ (quiet_sink cb ->
      loop_calls (snd r) = tried_ids (up_to_first ends msgs)
      /\ aborted (fst r) = existsb ends msgs).
Proof.
  intros L0 A0 r. subst r. rewrite run_ready. cbn [fst snd].
  rewrite loop_calls_app, all_calls_app, L0, A0, close_fst. cbn [app].
  destruct (process_calls msgs 0 st) as ((n & L & X) & A & Q).
  pose proof (process_delays self client source destination on_success on_success_quiet
                cb msgs 0 st) as (k & tail & _ & _ & D).
  destruct (fst (proc 0 msgs st)) as [st'|rep|e st']; cbn [finished aborted].
  - split; [exists n; auto|]. split; [exact A|]. intros H. destruct (Q H) as [-> ->]. auto.
  - destruct D as [_ D]. rewrite D.
    split; [exists n; auto|]. split; [exact A|]. intros H. destruct (Q H) as [-> ->]. auto.
  - rewrite handle_aborted.
    split; [exists n; auto|]. split; [exact A|]. intros H. destruct (Q H) as [-> ->]. auto.
Qed.

Lemma run_calls_sorted msgs st evs0 :
  loop_calls evs0 = [] -> all_calls evs0 = [] ->
  StronglySorted Z.lt (map id msgs) ->
  let r := run self client cb source destination on_success (Ready msgs st evs0) in
  StronglySorted Z.lt (loop_calls (snd r)) /\ StronglySorted Z.le (all_calls (snd r)).
Proof.
  intros L0 A0 S r. subst r. rewrite run_ready. cbn [fst snd].
  rewrite loop_calls_app, all_calls_app, L0, A0. cbn [app].
  destruct (process_calls_sorted self client source destination on_success
              on_success_quiet cb msgs S 0 st) as (S1 & S2 & _).
  split; assumption.
Qed.

End Calls.




(** C3 (as the code has it).  With the progress callback the command
    handlers pass to the engine, which keeps the failures of its own
    edit to itself, a job returns the report it returns without any
    sink, whatever the edit does and whether or not the user is still
    registered: failures inside that sink neither abort the job nor
    change the report.  The engine itself does not guard the call. *)
Theorem command_sink_failures_do_not_abort
    (self : Forwarder.MessageForwarder) (client : Forwarder.Client)
    (source destination user start a b : Z) (limit : option Z)
    (in_active_tasks : str -> bool)
    (edit_text : str -> option Forwarder.Raised) :
  let sink := Bot.progress_callback in_active_tasks edit_text in
  fst (Forwarder.clone_channel self client source destination user sink start limit)
  = fst (Forwarder.clone_channel self client source destination user None start limit)
  /\ fst (Forwarder.clone_range self client source destination a b user sink)
     = fst (Forwarder.clone_range self client source destination a b user None).
Proof.
  intros sink. subst sink. unfold Bot.progress_callback.
  set (f := fun text : str =>
              if negb (in_active_tasks text) then None
              else match edit_text text with
                   | Some _ => None
                   | None => None
                   end : option Forwarder.Raised).
  assert (Q : forall t, f t = None).
  { intros t. unfold f. destruct (in_active_tasks t); simpl; [|reflexivity].
    now destruct (edit_text t). }
  unfold Forwarder.clone_channel, Forwarder.clone_range. split.
  - apply run_quiet_sink; [exact Q|]. now apply collect_channel_quiet.
  - apply run_quiet_sink; [exact Q|]. now apply collect_messages_quiet.
Qed.

(** C3 (as stated) fails: over eleven messages that are all copied, a
    sink that lets the failure of its update out aborts the job at the
    tenth, the eleventh being left uncopied; without a sink the same
    job copies all eleven. *)
Lemma raising_sink_aborts_the_job :
  let job cb :=
    Forwarder.clone_channel Forwarder.init Samples.open_client 1 2 3 cb 0 None in
  Forwarder.aborted (fst (job Samples.failing_sink)) = true
  /\ Forwarder.error (fst (job Samples.failing_sink))
     = Some (Forwarder.cross ++ chars " Error: edit failed")
  /\ Forwarder.success (Forwarder.stats (fst (job Samples.failing_sink))) = 10
  /\ Forwarder.loop_calls (snd (job Samples.failing_sink)) = [1; 2; 3; 4; 5; 6; 7; 8; 9; 10]
  /\ Forwarder.aborted (fst (job None)) = false
  /\ Forwarder.success (Forwarder.stats (fst (job None))) = 11.
Proof. vm_compute. repeat split; reflexivity. Qed.

(** C7 (as the code has it).  In both modes every inter-item delay is of
    1.5; each call of [copy_message] by the loop is followed by one
    delay before the next call, and there is no other; a job that is not
    aborted has slept as many delays as it has copied or failed
    messages.  A skipped message is followed by none: the loop goes on
    at once, having only counted it. *)
Theorem delay_follows_copied_and_failed_items
    (client : Forwarder.Client)
    (source destination user start a b : Z) (limit : option Z)
    (cb : Forwarder.Callback) :
  Forwarder.delays_as_designed
    (Forwarder.clone_channel Forwarder.init client source destination user cb start limit)
  /\ Forwarder.delays_as_designed
       (Forwarder.clone_range Forwarder.init client source destination a b user cb)
  /\ (forall on_success i m st,
         Forwarder.skipped_message m = true ->
         Forwarder.iteration Forwarder.init client cb source destination on_success i m st
         = (inl (Forwarder.add_skipped st), [])).
Proof.
  split; [|split].
  - apply run_delays; [apply update_quiet | reflexivity |].
    pose proof (collect_channel_facts client source cb start limit) as F.
    destruct (Forwarder.collect_channel client source cb start limit); intuition.
  - apply run_delays; [apply nothing_quiet | reflexivity |].
    pose proof (collect_messages_facts client source a b cb) as F.
    destruct (Forwarder.collect_messages client source a b cb); intuition.
  - intros on_success i m st Sk. unfold Forwarder.iteration.
    unfold Forwarder.skipped_message in Sk. now rewrite Sk.
Qed.

(** The instance of C7 on [Samples.service_first_client], whose first
    message is skipped. *)
Lemma delay_follows_copied_and_failed_items_witness :
  Forwarder.delays_as_designed
    (Forwarder.clone_channel Forwarder.init Samples.service_first_client
       1 2 3 None 0 None)
  /\ Forwarder.iteration Forwarder.init Samples.service_first_client None 1 2
       (fun _ => []) 0 (Samples.service_message 1) (Forwarder.stats0 None)
     = (inl (Forwarder.add_skipped (Forwarder.stats0 None)), []).
Proof.
  destruct (delay_follows_copied_and_failed_items Samples.service_first_client
              1 2 3 0 1 2 None None) as (H1 & _ & H3).
  split; [exact H1 | apply H3; reflexivity].
Defined.

(** C7 (as stated) fails: of a service message followed by an ordinary
    one, both are processed — one skipped, one copied — and the job
    sleeps a single delay, after the copy; none follows the skipped
    message. *)
Lemma skipped_item_is_not_followed_by_a_delay :
  let r := Forwarder.clone_channel Forwarder.init Samples.service_first_client
             1 2 3 None 0 None in
  Forwarder.aborted (fst r) = false
  /\ Forwarder.skipped (Forwarder.stats (fst r)) = 1
  /\ Forwarder.success (Forwarder.stats (fst r)) = 1
  /\ snd r = [Forwarder.CopyMessage 2 0; Forwarder.UpdateLastMessageId 1 3 2;
              Forwarder.Sleep 1.5%Q].
Proof. vm_compute. repeat split; reflexivity. Qed.

(** ** The login manager and the session pool *)

Section Logins.
Import UserClient.

Ltac unfold_monad :=
  unfold with_db in *;
  repeat (progress
            (unfold bind, ret, raise, try_except, gets, modify, on, await,
               await_value in *)).

(** The database never lets an exception out of a read of a session. *)
Lemma get_user_session_returns env user d :
  exists doc, Database.get_user_session env user d = (Ret doc, d)
              /\ (Database.users d !! user = None -> doc = None)
              /\ (is_Some (users_find_one env) -> doc = None).
Proof.
  unfold Database.get_user_session. unfold_monad.
  destruct (users_find_one env) as [e|]; simpl.
  - exists None. repeat split; auto.
  - destruct (Database.users d !! user) as [doc|] eqn:E; simpl.
    + eexists. split; [reflexivity|]. split; [discriminate|].
      intros [? ?]. discriminate.
    + exists None. repeat split; auto.
Qed.

Lemma set_db_same m : set_db (db m) m = m.
Proof. now destruct m. Qed.

(** Starting a client from a stored session returns the new handle or
    nothing, whatever happens while it is built and started. *)
Lemma start_client_from_session_returns env user session m :
  (exists c m', start_client_from_session env user session m = (Ret (Some c), m')
                /\ start env = None)
  \/ (exists m', start_client_from_session env user session m = (Ret None, m')
                 /\ is_Some (start env)).
Proof.
  unfold start_client_from_session, new_client, client_start. unfold_monad.
  destruct (start env) as [e|]; simpl; [right | left]; eauto.
Qed.

Lemma restore_client_returns env user m :
  (exists r m', restore_client env user m = (Ret r, m'))
  /\ (Database.users (db m) !! user = None -> restore_client env user m = (Ret None, m))
  /\ (is_Some (users_find_one env) -> restore_client env user m = (Ret None, m))
  /\ (is_Some (start env) -> fst (restore_client env user m) = Ret None).
Proof.
  unfold restore_client. unfold_monad.
  destruct (get_user_session_returns env user (db m)) as (doc & -> & N1 & N2).
  rewrite set_db_same.
  destruct doc as [doc|]; [|repeat split; eauto].
  assert (X1 : Database.users (db m) !! user <> None)
    by (intros H; specialize (N1 H); discriminate).
  assert (X2 : ~ is_Some (users_find_one env))
    by (intros H; specialize (N2 H); discriminate).
  destruct (Database.session_string doc) as [|a l].
  { repeat split; eauto; intros H; contradiction. }
  destruct (start_client_from_session_returns env user (a :: l) m)
    as [(c & m' & E & S) | (m' & E & S)]; rewrite E; cbn [fst].
  - repeat split; eauto; intros H; try contradiction.
    rewrite S in H. destruct H as [? H]. discriminate H.
  - repeat split; eauto; intros H; contradiction.
Qed.

(** With no usable handle cached and no session stored, [get_client]
    returns nothing and leaves the manager as it is. *)
Lemma get_client_nothing_stored env user m :
  (forall c, active_clients m !! user = Some c -> is_connected c m = false) ->
  Database.users (db m) !! user = None ->
  get_client env user m = (Ret None, m).
Proof.
  intros N U. destruct (restore_client_returns env user m) as (_ & R & _).
  unfold get_client. unfold_monad.
  destruct (active_clients m !! user) as [c|] eqn:A; [|auto].
  rewrite (N c eq_refl). auto.
Qed.

(** C9.  [get_client] never raises: it returns a handle or nothing.
    When there is no cached handle that is connected, it returns nothing
    if no session is stored for the user, if the read of the stored
    session fails, or if the client built from the stored session fails
    to start, for whatever reason. *)
Theorem get_client_never_raises (env : Env) (user : Z) (m : UserClientManager) :
  (exists r m', get_client env user m = (Ret r, m'))
  /\ ((forall c, active_clients m !! user = Some c -> is_connected c m = false) ->
      (Database.users (db m) !! user = None -> get_client env user m = (Ret None, m))
      /\ (is_Some (users_find_one env) -> get_client env user m = (Ret None, m))
      /\ (is_Some (start env) -> fst (get_client env user m) = Ret None)).
Proof.
  destruct (restore_client_returns env user m) as (R0 & R1 & R2 & R3).
  unfold get_client. unfold_monad.
  destruct (active_clients m !! user) as [c|] eqn:A.
  - destruct (is_connected c m) eqn:C.
    + split; [eauto|]. intros H. specialize (H c eq_refl). congruence.
    + split; [exact R0|]. intros _. auto.
  - split; [exact R0|]. intros _. auto.
Qed.

(** The instance of C9 on a manager holding a stored session that fails
    to start, and on one holding nothing. *)
Lemma get_client_never_raises_witness :
  fst (get_client Samples.dead_session 7 Samples.stored_session) = Ret None
  /\ get_client Samples.calm 7 Samples.fresh = (Ret None, Samples.fresh).
Proof.
  split.
  - destruct (get_client_never_raises Samples.dead_session 7 Samples.stored_session)
      as [_ H].
    destruct H as (_ & _ & H); [intros c H; discriminate H|].
    apply H. simpl. eauto.
  - destruct (get_client_never_raises Samples.calm 7 Samples.fresh) as [_ H].
    destruct H as (H & _ & _); [intros c H; discriminate H|].
    apply H. reflexivity.
Defined.

(** C6 (as the code has it).  For a user with no login in flight,
    [verify_otp] and [verify_2fa] return a failure saying that no
    pending login was found, and [cancel_login] returns nothing and
    does nothing; none of the three changes the manager. *)
Theorem no_pending_login_is_reported_or_ignored
    (env : Env) (user : Z) (otp_code password : str) (m : UserClientManager) :
  pending_logins m !! user = None ->
  verify_otp env user otp_code m
  = (Ret (failure (chars "No pending login found. Please start with /login first.")), m)
  /\ verify_2fa env user password m
     = (Ret (failure (chars "No pending login found.")), m)
  /\ cancel_login env user m = (Ret tt, m).
Proof.
  intros H. unfold verify_otp, verify_2fa, cancel_login. unfold_monad.
  rewrite H. auto.
Qed.

Lemma no_pending_login_is_reported_or_ignored_witness :
  verify_otp Samples.calm 7 (chars "12345") Samples.fresh
  = (Ret (failure (chars "No pending login found. Please start with /login first.")),
     Samples.fresh)
  /\ verify_2fa Samples.calm 7 (chars "secret") Samples.fresh
     = (Ret (failure (chars "No pending login found.")), Samples.fresh)
  /\ cancel_login Samples.calm 7 Samples.fresh = (Ret tt, Samples.fresh).
Proof.
  apply (no_pending_login_is_reported_or_ignored Samples.calm 7
           (chars "12345") (chars "secret") Samples.fresh).
  reflexivity.
Defined.

(** C6 (as stated) fails for [cancel_login]: with no login in flight it
    returns normally, without any error. *)
Lemma cancel_without_pending_login_succeeds_silently :
  pending_logins Samples.fresh !! 7 = None
  /\ fst (cancel_login Samples.calm 7 Samples.fresh) = Ret tt.
Proof. split; vm_compute; reflexivity. Qed.

Lemma save_user_session_returns env user phone session d :
  exists saved d', Database.save_user_session env user phone session d = (Ret saved, d').
Proof.
  unfold Database.save_user_session. unfold_monad.
  destruct (users_update_one env); simpl; eauto.
Qed.

(** Once the platform has accepted the code or the password and the
    session is exported, the login completes: the connection of the
    attempt becomes the user's live handle and the record is removed. *)
Lemma complete_login_returns env user c phone msg session m :
  export_session_string env = inr session ->
  exists m2,
    complete_login env user c phone msg m = (Ret (ok None msg), m2)
    /\ active_clients m2 !! user = Some c
    /\ pending_logins m2 !! user = None.
Proof.
  intros X. unfold complete_login. unfold_monad. rewrite X.
  cbn beta iota.
  destruct (save_user_session_returns env user phone session (db m))
    as (saved & d' & ->).
  eexists. split; [reflexivity|]. simpl.
  rewrite lookup_insert_eq, lookup_delete_eq. auto.
Qed.

Lemma bool_decide_refl (x : str) : bool_decide (x = x) = true.
Proof. now apply bool_decide_eq_true. Qed.

(** C8.  When the platform answers [verify_otp] by asking for the
    second factor, the login stays in flight, its record unchanged but
    for the step, now ["2fa"]; a [verify_2fa] that follows finds it: a
    refused password is answered with the failure of the password and
    leaves the manager, hence the record and its step, as they were,
    and an accepted one completes the login over the connection of the
    record. *)
Theorem second_factor_keeps_the_login_in_flight
    (env : Env) (user : Z) (otp_code : str) (m : UserClientManager)
    (login_data : PendingLogin) (e : Exn) :
  pending_logins m !! user = Some login_data ->
  sign_in env = Some e ->
  kind e = SessionPasswordNeeded ->
  let m1 := set_pending_logins (alter (set_step (chars "2fa")) user) m in
  verify_otp env user otp_code m
  = (Ret (ok (Some (chars "2fa"))
            (chars "Two-factor authentication is enabled. Please enter your 2FA password.")),
     m1)
  /\ pending_logins m1 !! user = Some (set_step (chars "2fa") login_data)
  /\ forall (env2 : Env) (password : str),
       (forall e2, check_password env2 = Some e2 -> is_BadRequest e2 = true ->
          verify_2fa env2 user password m1
          = (Ret (failure (chars "Invalid 2FA password. Please try again.")), m1))
       /\ (forall session,
             check_password env2 = None ->
             export_session_string env2 = inr session ->
             exists m2,
               verify_2fa env2 user password m1
               = (Ret (ok None
                         (chars "Login successful! You can now use the bot to forward from channels.")),
                  m2)
               /\ active_clients m2 !! user = Some (client login_data)
               /\ pending_logins m2 !! user = None).
Proof.
  intros P S K m1.
  assert (P1 : pending_logins m1 !! user = Some (set_step (chars "2fa") login_data)).
  { unfold m1. simpl. rewrite lookup_alter_eq, P. reflexivity. }
  split; [|split; [exact P1|]].
  - unfold verify_otp. unfold_monad. rewrite P, S. simpl. rewrite K. reflexivity.
  - intros env2 password. split.
    + intros e2 C B. unfold verify_2fa. unfold_monad. rewrite P1.
      cbn [step set_step]. rewrite bool_decide_refl. cbn [negb].
      rewrite C. simpl. rewrite B. reflexivity.
    + intros session C X. unfold verify_2fa. unfold_monad.
      rewrite P1. cbn [step set_step]. rewrite bool_decide_refl. cbn [negb].
      rewrite C.
      destruct (complete_login_returns env2 user (client login_data)
                  (phone_number login_data)
                  (chars "Login successful! You can now use the bot to forward from channels.")
                  session m1 X) as (m2 & E & A & N).
      exists m2. cbn [client set_step phone_number]. rewrite E. auto.
Qed.

(** The instance of C8 for the login of user 7 in [Samples.in_flight]. *)
Lemma second_factor_keeps_the_login_in_flight_witness :
  let m1 := set_pending_logins (alter (set_step (chars "2fa")) 7) Samples.in_flight in
  pending_logins m1 !! 7 = Some (set_step (chars "2fa") Samples.first_attempt)
  /\ verify_2fa Samples.wrong_password 7 (chars "guess") m1
     = (Ret (failure (chars "Invalid 2FA password. Please try again.")), m1).
Proof.
  intros m1.
  destruct (second_factor_keeps_the_login_in_flight Samples.needs_password 7
              (chars "12345") Samples.in_flight Samples.first_attempt
              (Samples.error_of SessionPasswordNeeded "SESSION_PASSWORD_NEEDED")
              eq_refl eq_refl eq_refl) as (_ & H1 & H2).
  split; [exact H1|].
  destruct (H2 Samples.wrong_password (chars "guess")) as [H _].
  apply (H (Samples.error_of BadRequest "PASSWORD_HASH_INVALID")); reflexivity.
Defined.

End Logins.

(** ** The command handlers *)

Section Commands.
Import UserClient Bot.

Ltac unfold_monad :=
  unfold Bot.with_db, with_manager, UserClient.with_db in *;
  repeat (progress
            (unfold bind, ret, raise, try_except, gets, modify, on, await,
               await_value in *)).

Lemma set_user_manager_same b : set_user_manager (user_manager b) b = b.
Proof. now destruct b. Qed.

(** What [initiate_login] does to the logins in flight. *)
Lemma initiate_login_cases env user phone m :
  match connect env, send_code env with
  | None, inr sent_code =>
      exists m',
        initiate_login env user phone m
        = (Ret (ok (Some (chars "otp"))
                  (chars "OTP sent to " ++ phone ++ chars ". Please enter the OTP code.")),
           m')
        /\ pending_logins m' !! user
           = Some {| client := next_client m; phone_number := phone;
                     phone_code_hash := sent_code; step := chars "otp" |}
        /\ connected m' = {[next_client m]} ∪ connected m
        /\ active_clients m' = active_clients m
  | _, _ =>
      exists err m',
        initiate_login env user phone m = (Ret (failure err), m')
        /\ pending_logins m' = pending_logins m
  end.
Proof.
  unfold initiate_login, new_client, client_connect. unfold_monad.
  destruct (connect env) as [e|]; cbn beta iota.
  - destruct (send_code env); destruct (kind e); eauto.
  - destruct (send_code env) as [e|sent_code]; cbn beta iota.
    + destruct (kind e); eauto.
    + eexists. split; [reflexivity|]. simpl. rewrite lookup_insert_eq. auto.
Qed.

(** C4 (as the code has it).  For a user with a login in flight and no
    stored session, a second login request is rejected only when a
    connected handle is cached for the user ("already logged in"); the
    manager is then unchanged.  Otherwise a request without a phone
    number is answered with the usage and changes nothing, and a request
    with a phone number starts a new attempt: when connecting and the
    request for a code succeed, the record in flight is replaced by one
    holding the new connection, the phone number given and the new
    challenge token, in step ["otp"]; when either fails, the failure is
    reported and the record in flight is the one there was. *)
Theorem second_login_starts_a_new_attempt
    (env : Env) (user : Z) (args : list str) (b : Bot) (login_data : PendingLogin) :
  let m := user_manager b in
  pending_logins m !! user = Some login_data ->
  Database.users (db m) !! user = None ->
  ((exists c, active_clients m !! user = Some c /\ is_connected c m = true) ->
   login_command env user args b = (Ret AlreadyLoggedIn, b))
  /\ ((forall c, active_clients m !! user = Some c -> is_connected c m = false) ->
      ((length args < 2)%nat -> login_command env user args b = (Ret LoginUsage, b))
      /\ ((2 <= length args)%nat ->
          match connect env, send_code env with
          | None, inr sent_code =>
              exists text b',
                login_command env user args b = (Ret (OtpSent text), b')
                /\ pending_logins (user_manager b') !! user
                   = Some {| client := next_client m;
                             phone_number := with_country_mark (nth 1 args []);
                             phone_code_hash := sent_code; step := chars "otp" |}
          | _, _ =>
              exists err b',
                login_command env user args b = (Ret (LoginFailed err), b')
                /\ pending_logins (user_manager b') !! user = Some login_data
          end)).
Proof.
  intros m P U. subst m. split.
  - intros (c & A & C). unfold login_command, get_client. unfold_monad.
    rewrite A, C. now rewrite set_user_manager_same.
  - intros N.
    pose proof (get_client_nothing_stored env user (user_manager b) N U) as G1.
    unfold login_command. unfold_monad. rewrite G1. cbn beta iota.
    rewrite set_user_manager_same. split.
    + intros L. apply Nat.ltb_lt in L. now rewrite L.
    + intros L. apply Nat.ltb_ge in L. rewrite L.
      pose proof (initiate_login_cases env user
                    (with_country_mark (nth 1 args [])) (user_manager b)) as I.
      destruct (connect env) as [e|].
      * destruct I as (err & m' & -> & Pm). simpl.
        eexists _, _. split; [reflexivity|]. simpl. now rewrite Pm.
      * destruct (send_code env) as [e|sent_code].
        { destruct I as (err & m' & -> & Pm). simpl.
          eexists _, _. split; [reflexivity|]. simpl. now rewrite Pm. }
        destruct I as (m' & -> & Pm & _). simpl.
        eexists _, _. split; [reflexivity|]. simpl. exact Pm.
Qed.

(** The instance of C4 on [Samples.bot_in_flight]: a second request of
    user 7, with another number, the platform accepting it. *)
Lemma second_login_starts_a_new_attempt_witness :
  exists text b',
    login_command Samples.calm 7 [chars "/login"; chars "222"] Samples.bot_in_flight
    = (Ret (OtpSent text), b')
    /\ pending_logins (user_manager b') !! 7
       = Some {| client := 1%nat; phone_number := chars "+222";
                 phone_code_hash := chars "hash2"; step := chars "otp" |}.
Proof.
  destruct (second_login_starts_a_new_attempt Samples.calm 7
              [chars "/login"; chars "222"] Samples.bot_in_flight
              Samples.first_attempt eq_refl eq_refl) as [_ H].
  destruct H as [_ H]; [intros c H; discriminate H|].
  apply H. simpl. lia.
Defined.

(** C4 (as stated) fails: user 7 has a login in flight and no stored
    session; a second request is accepted, the record in flight is
    replaced by that of the new attempt, and the connection of the first
    attempt, still open, is held by nothing any more. *)
Lemma second_login_overwrites_the_attempt :
  let before := user_manager Samples.bot_in_flight in
  let r := login_command Samples.calm 7 [chars "/login"; chars "222"]
             Samples.bot_in_flight in
  let after := user_manager (snd r) in
  pending_logins before !! 7 = Some Samples.first_attempt
  /\ Database.users (db before) !! 7 = None
  /\ fst r = Ret (OtpSent (chars "OTP sent to +222. Please enter the OTP code."))
  /\ pending_logins after !! 7
     = Some {| client := 1%nat; phone_number := chars "+222";
               phone_code_hash := chars "hash2"; step := chars "otp" |}
  /\ pending_logins after !! 7 <> pending_logins before !! 7
  /\ is_connected 0%nat after = true
  /\ active_clients after !! 7 = None.
Proof.
  repeat split; try reflexivity. intros H. discriminate H.
Qed.

Lemma get_destination_zero env user d :
  no_destination env user d -> Database.get_destination env user d = (Ret 0, d).
Proof.
  unfold no_destination, Database.get_destination. unfold_monad.
  intros [H | [[e H] | H]].
  - destruct (user_settings_find_one env); simpl; [reflexivity|]. now rewrite H.
  - now rewrite H.
  - destruct (user_settings_find_one env); simpl; [reflexivity|]. now rewrite H.
Qed.

(** [get_client] neither reads nor writes the destination settings. *)
Lemma get_client_frame env user m :
  exists r m',
    get_client env user m = (Ret r, m')
    /\ Database.user_settings (db m') = Database.user_settings (db m)
    /\ get_client (but_destination_env env) user (forget_settings m)
       = (Ret r, forget_settings m').
Proof.
  destruct m as [[users settings] ac pl conn nxt].
  unfold get_client, restore_client, start_client_from_session, new_client,
    client_start, Database.get_user_session, is_connected, forget_settings.
  unfold_monad. simpl.
  destruct (ac !! user) as [c|]; simpl;
    [destruct (bool_decide (c ∈ conn)); simpl;
     [eexists _, _; repeat split; reflexivity|]|];
    (destruct (users_find_one env); simpl;
     [eexists _, _; repeat split; reflexivity|];
     destruct (users !! user) as [doc|]; simpl;
     [|eexists _, _; repeat split; reflexivity];
     destruct (Database.is_active doc); simpl;
     [|eexists _, _; repeat split; reflexivity];
     destruct (Database.session_string doc); simpl;
     [eexists _, _; repeat split; reflexivity|];
     destruct (start env); simpl; eexists _, _; repeat split; reflexivity).
Qed.

Lemma forget_settings_bot b :
  but_destination b = set_user_manager (forget_settings (user_manager b)) b.
Proof. reflexivity. Qed.

(** The reply of [/clone] when the destination read gives 0. *)
Lemma clone_command_no_destination env user args b r m' :
  get_client env user (user_manager b) = (Ret r, m') ->
  Database.get_destination env user (db m') = (Ret 0, db m') ->
  fst (clone_command env user args b) =
  if bool_decide (user ∈ active_tasks b) then Ret ActiveTask
  else match r with
       | None => Ret PleaseLogin
       | Some _ =>
           if (length args <? 2)%nat then Ret CloneUsage
           else match py_int (nth 1 args []) with
                | None => Ret InvalidChannelId
                | Some _ => Ret NoDestination
                end
       end.
Proof.
  intros G Z0. unfold clone_command. unfold_monad. cbn beta iota.
  destruct (bool_decide (user ∈ active_tasks b)); [reflexivity|].
  rewrite G. cbn beta iota. destruct r as [c|]; [|reflexivity].
  destruct (length args <? 2)%nat; [reflexivity|].
  destruct (py_int (nth 1 args [])); [|reflexivity].
  cbn [user_manager set_user_manager]. rewrite Z0. reflexivity.
Qed.

(** The reply of [/crange] when the destination read gives 0. *)
Lemma crange_command_no_destination env user args b r m' :
  get_client env user (user_manager b) = (Ret r, m') ->
  Database.get_destination env user (db m') = (Ret 0, db m') ->
  fst (crange_command env user args b) =
  if bool_decide (user ∈ active_tasks b) then Ret RangeActiveTask
  else match r with
       | None => Ret RangePleaseLogin
       | Some _ =>
           if (length args <? 3)%nat then Ret RangeUsage else Ret RangeNoDestination
       end.
Proof.
  intros G Z0. unfold crange_command. unfold_monad. cbn beta iota.
  destruct (bool_decide (user ∈ active_tasks b)); [reflexivity|].
  rewrite G. cbn beta iota. destruct r as [c|]; [|reflexivity].
  destruct (length args <? 3)%nat; [reflexivity|].
  cbn [user_manager set_user_manager]. rewrite Z0. reflexivity.
Qed.

(** C10.  For a user with no destination stored, and also when the read
    of the setting fails or when the id stored is 0, [get_destination]
    returns the integer 0; a clone command, over the whole channel or
    over a range, then stops before any access check, with the reply
    that no destination is set unless an earlier check stops it, and
    [/getdest] answers that none is set.  The
    three cases cannot be told apart at the commands: the reply is the
    one given when nothing at all is stored and the read succeeds. *)
Theorem unset_destination_blocks_cloning
    (env : Env) (user : Z) (args : list str) (b : Bot) :
  no_destination env user (db (user_manager b)) ->
  Database.get_destination env user (db (user_manager b))
  = (Ret 0, db (user_manager b))
  /\ fst (getdest_command env user b) = Ret NoDestinationSet
  /\ clone_blocked (fst (clone_command env user args b))
  /\ range_blocked (fst (crange_command env user args b))
  /\ fst (clone_command env user args b)
     = fst (clone_command (but_destination_env env) user args (but_destination b))
  /\ fst (crange_command env user args b)
     = fst (crange_command (but_destination_env env) user args (but_destination b)).
Proof.
  intros N. split; [now apply get_destination_zero|].
  split.
  { unfold getdest_command. unfold_monad.
    now rewrite (get_destination_zero env user _ N). }
  destruct (get_client_frame env user (user_manager b)) as (r & m' & G & S & G').
  assert (N' : no_destination env user (db m')).
  { unfold no_destination in *. now rewrite S. }
  assert (Z1 := get_destination_zero env user (db m') N').
  assert (Z2 : Database.get_destination (but_destination_env env) user
                 (db (forget_settings m')) = (Ret 0, db (forget_settings m'))).
  { apply get_destination_zero. left. reflexivity. }
  rewrite (clone_command_no_destination env user args b r m' G Z1).
  rewrite (crange_command_no_destination env user args b r m' G Z1).
  rewrite (clone_command_no_destination (but_destination_env env) user args
             (but_destination b) r (forget_settings m') G' Z2).
  rewrite (crange_command_no_destination (but_destination_env env) user args
             (but_destination b) r (forget_settings m') G' Z2).
  unfold clone_blocked, range_blocked. cbn [active_tasks but_destination set_user_manager].
  repeat split.
  - destruct (bool_decide _); [tauto|]. destruct r; [|tauto].
    destruct (_ <? _)%nat; [tauto|]. destruct (py_int _); tauto.
  - destruct (bool_decide _); [tauto|]. destruct r; [|tauto].
    destruct (_ <? _)%nat; tauto.
Qed.

(** The instances of C10 for user 7, logged in: nothing stored, the
    read failing, and 0 stored; [/clone] and [/crange] both answer that
    no destination is set. *)
Lemma unset_destination_blocks_cloning_witness :
  (fst (clone_command Samples.calm 7 [chars "/clone"; chars "-1001"]
          (Samples.logged_in None)) = Ret NoDestination
   /\ fst (clone_command Samples.settings_down 7 [chars "/clone"; chars "-1001"]
             (Samples.logged_in
                (Some {| Database.destination_channel_id := Some (-1002) |})))
      = Ret NoDestination
   /\ fst (clone_command Samples.calm 7 [chars "/clone"; chars "-1001"]
             (Samples.logged_in
                (Some {| Database.destination_channel_id := Some 0 |})))
      = Ret NoDestination)
  /\ range_blocked
       (fst (crange_command Samples.calm 7
               [chars "/crange"; chars "t.me/c/1/5"; chars "t.me/c/1/9"]
               (Samples.logged_in
                  (Some {| Database.destination_channel_id := Some 0 |})))).
Proof.
  split; [split; [|split]|].
  - destruct (unset_destination_blocks_cloning Samples.calm 7
                [chars "/clone"; chars "-1001"] (Samples.logged_in None))
      as (_ & _ & _ & _ & H & _); [left; reflexivity|].
    rewrite H. reflexivity.
  - destruct (unset_destination_blocks_cloning Samples.settings_down 7
                [chars "/clone"; chars "-1001"]
                (Samples.logged_in
                   (Some {| Database.destination_channel_id := Some (-1002) |})))
      as (_ & _ & _ & _ & H & _); [right; left; simpl; eauto|].
    rewrite H. reflexivity.
  - destruct (unset_destination_blocks_cloning Samples.calm 7
                [chars "/clone"; chars "-1001"]
                (Samples.logged_in
                   (Some {| Database.destination_channel_id := Some 0 |})))
      as (_ & _ & _ & _ & H & _); [right; right; reflexivity|].
    rewrite H. reflexivity.
  - apply (unset_destination_blocks_cloning Samples.calm 7
             [chars "/crange"; chars "t.me/c/1/5"; chars "t.me/c/1/9"]
             (Samples.logged_in
                (Some {| Database.destination_channel_id := Some 0 |}))).
    right; right; reflexivity.
Defined.

End Commands.

(** * Further properties *)

(** ** The cloning engine: bounds, counters and marks *)

Section Bounds.
Import Forwarder.

Variable self : MessageForwarder.
Variable client : Client.
Variables source destination : Z.
Variable on_success : Z -> list Event.
Variable cb : Callback.
Variables s e : option Z.

Local Abbreviation iter := (iteration self client cb source destination on_success).
Local Abbreviation proc := (process self client cb source destination on_success).

Lemma progress_text_with_bounds n st :
  progress_text n (with_bounds s e st) = progress_text n st.
Proof. reflexivity. Qed.

Lemma progress_update_with_bounds i st :
  progress_update cb i (with_bounds s e st) = progress_update cb i st.
Proof. reflexivity. Qed.

Lemma note_error_with_bounds mid err st :
  note_error mid err (with_bounds s e st) = with_bounds s e (note_error mid err st).
Proof. unfold note_error. simpl. now destruct (_ <? 5). Qed.

(** The loop carries the bounds along without reading them. *)
Lemma process_with_bounds msgs : forall i st,
  proc i msgs (with_bounds s e st) =
  (match fst (proc i msgs st) with
   | Exhausted st' => Exhausted (with_bounds s e st')
   | Return rep => Return (report_with_bounds s e rep)
   | Raise x st' => Raise x (with_bounds s e st')
   end, snd (proc i msgs st)).
Proof.
  induction msgs as [|m msgs IH]; intros i st; [reflexivity|].
  cbn [process]. unfold iteration.
  destruct (empty m || service m).
  - change (add_skipped (with_bounds s e st)) with (with_bounds s e (add_skipped st)).
    rewrite IH. now destruct (proc (i + 1) msgs (add_skipped st)).
  - destruct (copy_message _ _ _) as [[[[ok nid] err]|x] evs]; [|reflexivity].
    destruct ok; [|destruct (bool_decide _); [reflexivity|]].
    + change (add_success (with_bounds s e st)) with (with_bounds s e (add_success st)).
      unfold finish_item. rewrite progress_update_with_bounds.
      destruct (progress_update cb i (add_success st)) as [[x|] pevs]; [reflexivity|].
      rewrite IH. now destruct (proc (i + 1) msgs (add_success st)).
    + change (add_failed (with_bounds s e st)) with (with_bounds s e (add_failed st)).
      rewrite note_error_with_bounds.
      unfold finish_item. rewrite progress_update_with_bounds.
      destruct (progress_update cb i _) as [[x|] pevs]; [reflexivity|].
      rewrite IH. now destruct (proc (i + 1) msgs _).
Qed.

End Bounds.

Section RangeBounds.
Import Forwarder.

Lemma handle_with_bounds s e x st :
  handle x (with_bounds s e st) = report_with_bounds s e (handle x st).
Proof. now destruct x. Qed.

Lemma ordered_bounds (a b : Z) :
  (if a >? b then (b, a) else (a, b)) = (Z.min a b, Z.max a b).
Proof.
  destruct (a >? b) eqn:E.
  - apply Z.gtb_lt in E. f_equal; lia.
  - assert (a <= b) by (apply Z.gtb_ltb in E || (rewrite Z.gtb_ltb in E; apply Z.ltb_ge in E; exact E)).
    f_equal; lia.
Qed.

Lemma run_with_bounds self client cb source destination on_s s e msgs st evs0 :
  run self client cb source destination on_s (Ready msgs (with_bounds s e st) evs0)
  = (report_with_bounds s e
       (fst (run self client cb source destination on_s (Ready msgs st evs0))),
     snd (run self client cb source destination on_s (Ready msgs st evs0))).
Proof.
  rewrite !run_ready. cbn [fst snd]. rewrite !close_fst.
  rewrite process_with_bounds. cbn [fst snd].
  destruct (fst (process self client cb source destination on_s 0 msgs st));
    try reflexivity.
  now rewrite handle_with_bounds.
Qed.

End RangeBounds.

(** X1.  A range clone asked with its bounds in either order is the same
    job: the same messages are fetched and processed in the same way,
    and the two reports agree but for the bounds they echo under
    ["start_id"] and ["end_id"]. *)
Theorem swapped_bounds_same_job
    (self : Forwarder.MessageForwarder) (client : Forwarder.Client)
    (source destination a b user : Z) (cb : Forwarder.Callback) :
  Forwarder.clone_range self client source destination b a user cb
  = (Forwarder.report_with_bounds (Some b) (Some a)
       (fst (Forwarder.clone_range self client source destination a b user cb)),
     snd (Forwarder.clone_range self client source destination a b user cb)).
Proof.
  unfold Forwarder.clone_range, Forwarder.collect_messages.
  rewrite !ordered_bounds, (Z.min_comm b a), (Z.max_comm b a).
  change (Forwarder.stats0 (Some (b, a)))
    with (Forwarder.with_bounds (Some b) (Some a) (Forwarder.stats0 (Some (a, b)))).
  set (st := Forwarder.stats0 (Some (a, b))).
  destruct (Forwarder.announce cb _) as [[x|] evs].
  { cbn [Forwarder.run fst snd]. now rewrite handle_with_bounds. }
  destruct (Forwarder.collect_range _ _ _) as [kept broke].
  destruct (if broke then None else _) as [x|].
  { cbn [Forwarder.run fst snd]. now rewrite handle_with_bounds. }
  change (Forwarder.set_total (Z.of_nat (length (rev kept)))
            (Forwarder.with_bounds (Some b) (Some a) st))
    with (Forwarder.with_bounds (Some b) (Some a)
            (Forwarder.set_total (Z.of_nat (length (rev kept))) st)).
  set (st1 := Forwarder.set_total (Z.of_nat (length (rev kept))) st).
  change (Forwarder.total (Forwarder.with_bounds (Some b) (Some a) st1))
    with (Forwarder.total st1).
  destruct (Forwarder.total st1 =? 0); [reflexivity|].
  destruct (Forwarder.announce cb _) as [[x|] evs1].
  { cbn [Forwarder.run fst snd]. now rewrite handle_with_bounds. }
  apply run_with_bounds.
Qed.

Section Counters.
Import Forwarder.

Variable self : MessageForwarder.
Variable client : Client.
Variables source destination : Z.
Variable on_success : Z -> list Event.
Variable cb : Callback.

Local Abbreviation iter := (iteration self client cb source destination on_success).
Local Abbreviation proc := (process self client cb source destination on_success).

Lemma counts_up_to_refl st : counts_up_to 0 st st.
Proof. unfold counts_up_to. repeat split; lia. Qed.

Lemma counts_up_to_trans n k st1 st2 st3 :
  counts_up_to n st1 st2 -> counts_up_to k st2 st3 -> counts_up_to (n + k) st1 st3.
Proof. unfold counts_up_to. intros (? & ? & ? & ? & ?) (? & ? & ? & ? & ?). repeat split; lia. Qed.

Lemma errors_bounded_note_error mid err st :
  errors_bounded st -> errors_bounded (note_error mid err (add_failed st)).
Proof.
  unfold errors_bounded, note_error. cbn [errors add_failed failed].
  intros [H1 H2]. destruct (Z.of_nat (length (errors st)) <? 5) eqn:E.
  - apply Z.ltb_lt in E. unfold add_failed. cbn [errors failed]. rewrite length_app. simpl. lia.
  - unfold add_failed. cbn [errors failed]. lia.
Qed.

Lemma finish_item_stats i st evs :
  match fst (finish_item self cb i st evs) with
  | inl st' => st' = st
  | inr x => exit_stats x = st
  end.
Proof.
  unfold finish_item. now destruct (progress_update cb i st) as [[x|] pevs].
Qed.

(** One iteration counts one item at most, in one counter. *)
Lemma iteration_counts i m st :
  let st' := match fst (iter i m st) with inl st' => st' | inr x => exit_stats x end in
  counts_up_to 1 st st' /\ (errors_bounded st -> errors_bounded st').
Proof.
  intros st'. subst st'. unfold iteration.
  destruct (empty m || service m).
  { cbn [fst]. unfold counts_up_to, counted, errors_bounded, add_skipped.
    cbn. intuition lia. }
  destruct (copy_message _ _ _) as [[[[ok nid] err]|x] evs].
  2:{ cbn [fst exit_stats]. unfold counts_up_to, counted. intuition lia. }
  destruct ok; [|destruct (bool_decide _)].
  - pose proof (finish_item_stats i (add_success st) (evs ++ on_success (id m))) as F.
    destruct (fst (finish_item _ _ _ _ _)) as [st1|x]; rewrite F;
      unfold counts_up_to, counted, errors_bounded, add_success; cbn; intuition lia.
  - cbn [fst exit_stats stats abort].
    unfold counts_up_to, counted, errors_bounded, add_failed. cbn. intuition lia.
  - pose proof (finish_item_stats i (note_error (id m) err (add_failed st)) evs) as F.
    pose proof (note_error_counters (id m) err (add_failed st)) as (S1 & S2 & S3 & S4).
    destruct (fst (finish_item _ _ _ _ _)) as [st1|x]; rewrite F;
      (split; [|apply errors_bounded_note_error]);
      unfold counts_up_to, counted; rewrite S1, S2, S3, S4;
      unfold add_failed; cbn; intuition lia.
Qed.

(** A loop over [msgs] counts at most as many items as there are
    messages, exactly as many when it runs to its end. *)
Lemma process_counts msgs : forall i st,
  let x := fst (proc i msgs st) in
  counts_up_to (Z.of_nat (length msgs)) st (exit_stats x)
  /\ (errors_bounded st -> errors_bounded (exit_stats x)).
Proof.
  induction msgs as [|m msgs IH]; intros i st x; subst x.
  - cbn. split; [apply counts_up_to_refl | auto].
  - cbn [process]. pose proof (iteration_counts i m st) as [C B].
    destruct (iter i m st) as [[st1|x1] evs1]; cbn [fst] in *.
    + specialize (IH (i + 1) st1). destruct (proc (i + 1) msgs st1) as [x evs].
      cbn [fst] in *. destruct IH as [C' B']. split; [|auto].
      replace (Z.of_nat (length (m :: msgs))) with (1 + Z.of_nat (length msgs))
        by (simpl length; lia).
      eapply counts_up_to_trans; eauto.
    + split; [|auto]. destruct C as (? & ? & ? & ? & ?).
      unfold counts_up_to. simpl length. repeat split; auto; lia.
Qed.

End Counters.

Section Reports.
Import Forwarder.

Lemma collect_channel_stats client src cb start limit :
  match collect_channel client src cb start limit with
  | Early rep _ =>
      success (stats rep) = 0 /\ failed (stats rep) = 0 /\ skipped (stats rep) = 0
      /\ 0 <= total (stats rep) /\ errors (stats rep) = []
  | Ready msgs st _ =>
      success st = 0 /\ failed st = 0 /\ skipped st = 0
      /\ total st = Z.of_nat (length msgs) /\ errors st = []
  end.
Proof.
  unfold collect_channel. destruct (fails _) as [x|].
  { destruct x; cbn; repeat split; lia. }
  destruct (announce cb _) as [[x|] evs]; [destruct x|]; cbn; repeat split; lia.
Qed.

Lemma collect_messages_stats client src a b cb :
  match collect_messages client src a b cb with
  | Early rep _ =>
      success (stats rep) = 0 /\ failed (stats rep) = 0 /\ skipped (stats rep) = 0
      /\ 0 <= total (stats rep) /\ errors (stats rep) = []
  | Ready msgs st _ =>
      success st = 0 /\ failed st = 0 /\ skipped st = 0
      /\ total st = Z.of_nat (length msgs) /\ errors st = []
  end.
Proof.
  unfold collect_messages. destruct (if a >? b then _ else _) as [lo hi].
  destruct (announce cb _) as [[x|] evs]; [destruct x; cbn; repeat split; lia|].
  destruct (collect_range lo hi _) as [kept broke].
  destruct (if broke then None else _) as [x|]; [destruct x; cbn; repeat split; lia|].
  destruct (total _ =? 0) eqn:T; [cbn; repeat split; lia|].
  destruct (announce cb _) as [[x|] evs1]; [destruct x|]; cbn; repeat split; lia.
Qed.

(** The counters of the report of a run started as both entry points
    start their loop. *)
Lemma run_counters self client cb src dst on_s c :
  match c with
  | Early rep _ =>
      success (stats rep) = 0 /\ failed (stats rep) = 0 /\ skipped (stats rep) = 0
      /\ 0 <= total (stats rep) /\ errors (stats rep) = []
  | Ready msgs st _ =>
      success st = 0 /\ failed st = 0 /\ skipped st = 0
      /\ total st = Z.of_nat (length msgs) /\ errors st = []
  end ->
  let rep := fst (run self client cb src dst on_s c) in
  (0 <= success (stats rep) /\ 0 <= failed (stats rep) /\ 0 <= skipped (stats rep)
   /\ counted (stats rep) <= total (stats rep))
  /\ errors_bounded (stats rep).
Proof.
  destruct c as [rep evs|msgs st evs]; intros H rep'; subst rep'.
  - cbn [run fst]. destruct H as (S & F & K & T & E).
    unfold counted, errors_bounded. rewrite S, F, K, E. simpl. repeat split; lia.
  - rewrite run_ready. cbn [fst]. rewrite close_fst.
    destruct H as (S & F & K & T & E).
    pose proof (process_counts self client src dst on_s cb msgs 0 st) as [C B].
    assert (B0 : errors_bounded st).
    { unfold errors_bounded. rewrite E, F. simpl. lia. }
    specialize (B B0). destruct C as (C1 & C2 & C3 & C4 & C5).
    assert (X : stats (match fst (process self client cb src dst on_s 0 msgs st) with
                       | Exhausted st0 => finished st0
                       | Return rep => rep
                       | Raise x st0 => handle x st0
                       end)
                = exit_stats (fst (process self client cb src dst on_s 0 msgs st))).
    { destruct (fst (process _ _ _ _ _ _ _ _ _)) as [st'|rep|x st']; try reflexivity.
      now destruct x. }
    rewrite X. unfold counted in *. repeat split; try lia; apply B.
Qed.

End Reports.

(** X2.  In the report of every job, full clone or range clone, no
    counter is negative and [success + failed + skipped] never exceeds
    [total]: every message found is counted at most once, in one
    counter.  There are at most five sample errors, and never more than
    failures. *)
Theorem report_counters_are_bounded
    (self : Forwarder.MessageForwarder) (client : Forwarder.Client)
    (source destination user start a b : Z) (limit : option Z)
    (cb : Forwarder.Callback) :
  let bounded rep :=
    (0 <= Forwarder.success (Forwarder.stats rep)
     /\ 0 <= Forwarder.failed (Forwarder.stats rep)
     /\ 0 <= Forwarder.skipped (Forwarder.stats rep)
     /\ Forwarder.counted (Forwarder.stats rep) <= Forwarder.total (Forwarder.stats rep))
    /\ Forwarder.errors_bounded (Forwarder.stats rep) in
  bounded (fst (Forwarder.clone_channel self client source destination user cb start limit))
  /\ bounded (fst (Forwarder.clone_range self client source destination a b user cb)).
Proof.
  intros bounded. subst bounded. cbv beta. split.
  - apply run_counters. apply collect_channel_stats.
  - apply run_counters. apply collect_messages_stats.
Qed.

Section Ledger.
Import Forwarder.

Variable self : MessageForwarder.
Variable client : Client.
Variables source destination : Z.
Variable on_success : Z -> list Event.
Variable written : Z -> list (Z * Z * Z).
Hypothesis on_success_updates : forall i, updates (on_success i) = written i.
Variable cb : Callback.

Local Abbreviation iter := (iteration self client cb source destination on_success).
Local Abbreviation proc := (process self client cb source destination on_success).
Local Abbreviation copied := (is_copied client source destination).

Lemma updates_app a b : updates (a ++ b) = updates a ++ updates b.
Proof.
  induction a as [|e a IH]; [reflexivity|].
  destruct e; simpl; rewrite ?IH; reflexivity.
Qed.

Lemma updates_copy_message mid sc : forall d, updates (snd (copy_message mid d sc)) = [].
Proof.
  induction sc as [r|v next IH]; intros d; simpl.
  - reflexivity.
  - specialize (IH (S d)). destruct (copy_message mid (S d) next). exact IH.
Qed.

Lemma updates_progress_update i st : updates (snd (progress_update cb i st)) = [].
Proof.
  unfold progress_update. destruct cb; [|reflexivity].
  destruct (_ =? 0); reflexivity.
Qed.

Lemma finish_item_ledger i st evs :
  let r := finish_item self cb i st evs in
  updates (snd r) = updates evs
  /\ match fst r with
     | inl st' => st' = st
     | inr (Raise _ st') => st' = st
     | inr _ => False
     end.
Proof.
  unfold finish_item. pose proof (updates_progress_update i st) as U.
  destruct (progress_update cb i st) as [[x|] pevs]; cbn [fst snd] in *;
    rewrite !updates_app, ?U, ?app_nil_r; auto.
Qed.

(** What one iteration writes and counts. *)
Lemma iteration_ledger i m st :
  let r := iter i m st in
  updates (snd r) = (if copied m then written (id m) else [])
  /\ success (match fst r with inl st' => st' | inr x => exit_stats x end)
     = success st + (if copied m then 1 else 0)
  /\ match fst r with
     | inl st' => counted st' = counted st + 1
     | inr (Exhausted _) => False
     | inr (Return rep) => aborted rep = true /\ error rep <> None
     | inr (Raise _ _) => True
     end.
Proof.
  intros r. subst r. unfold is_copied.
  pose proof (updates_copy_message (id m)
                (copy_message_replies client destination source (id m)) 0) as UC.
  destruct (iteration_cases self client source destination on_success cb i m st)
    as [[Sk ->]|[(Sk & text & F & ->)|[(Sk & F & ->)|[(Sk & n & F & ->)|(Sk & text & F & _ & ->)]]]];
    rewrite Sk; cbn [negb andb fst snd exit_stats].
  - unfold counted, add_skipped. cbn. repeat split; lia.
  - rewrite F, UC. cbn. repeat split; lia.
  - rewrite UC. assert (E : match final_reply (copy_message_replies client destination source (id m))
                            with Copied _ => true | _ => false end = false)
      by (destruct F as [-> | ->]; reflexivity).
    rewrite E. unfold abort, add_failed. cbn. repeat split; try lia. discriminate.
  - rewrite F.
    pose proof (finish_item_ledger i (add_success st)
                  (snd (copy_message (id m) 0
                          (copy_message_replies client destination source (id m)))
                   ++ on_success (id m))) as [U X].
    cbv zeta in U, X. rewrite U, updates_app, UC, on_success_updates.
    destruct (fst (finish_item _ _ _ _ _)) as [st'|[st'|rep|x st']]; try contradiction;
      subst st'; unfold counted, add_success; cbn; repeat split; lia.
  - rewrite F.
    pose proof (finish_item_ledger i (note_error (id m) text (add_failed st))
                  (snd (copy_message (id m) 0
                          (copy_message_replies client destination source (id m))))) as [U X].
    cbv zeta in U, X. rewrite U, UC.
    pose proof (note_error_counters (id m) text (add_failed st)) as (S1 & S2 & S3 & S4).
    destruct (fst (finish_item _ _ _ _ _)) as [st'|[st'|rep|x st']]; try contradiction;
      subst st'; unfold counted; cbn [exit_stats]; rewrite S1, ?S2, ?S3;
      unfold add_failed; cbn; repeat split; lia.
Qed.

(** What a loop writes and counts: it deals with the first [n] messages,
    with all of them when it runs to its end. *)
Lemma process_ledger msgs : forall i st,
  let r := proc i msgs st in
  exists n : nat,
    (n <= length msgs)%nat
    /\ updates (snd r) = flat_map (fun m => written (id m)) (List.filter copied (firstn n msgs))
    /\ success (exit_stats (fst r))
       = success st + Z.of_nat (length (List.filter copied (firstn n msgs)))
    /\ match fst r with
       | Exhausted st' => n = length msgs /\ counted st' = counted st + Z.of_nat (length msgs)
       | Return rep => aborted rep = true /\ error rep <> None
       | Raise _ _ => True
       end.
Proof.
  induction msgs as [|m msgs IH]; intros i st r; subst r.
  - exists 0%nat. cbn. repeat split; lia.
  - rewrite process_cons.
    pose proof (iteration_ledger i m st) as (U & HS & X). cbv zeta in U, HS, X.
    destruct (iter i m st) as [[st1|x] evs]; cbn [fst snd] in *.
    + destruct (IH (i + 1) st1) as (n & Hn & U' & S' & X').
      destruct (proc (i + 1) msgs st1) as [x' evs']. cbn [fst snd] in *.
      exists (S n). split; [simpl; lia|]. cbn [firstn List.filter].
      rewrite updates_app, U, U', S', HS.
      split; [destruct (copied m); reflexivity|].
      split; [destruct (copied m); simpl length; lia|].
      destruct x' as [st'|rep|e st']; auto.
      destruct X' as [-> X']. split; [reflexivity|]. simpl length. lia.
    + exists 1%nat. split; [simpl; lia|]. cbn [firstn List.filter].
      rewrite U, HS.
      split; [destruct (copied m); cbn [flat_map]; rewrite ?app_nil_r; reflexivity|].
      split; [destruct (copied m); simpl length; lia|].
      destruct x as [st'|rep|e st']; auto; contradiction.
Qed.

(** The same for a job, from what it has when it reaches its loop. *)
Lemma run_ledger c :
  match c with
  | Early rep evs =>
      aborted rep = true /\ error rep <> None /\ success (stats rep) = 0 /\ updates evs = []
  | Ready msgs st evs =>
      counted st = 0 /\ success st = 0 /\ total st = Z.of_nat (length msgs) /\ updates evs = []
  end ->
  let r := run self client cb source destination on_success c in
  let msgs := match c with Early _ _ => [] | Ready msgs _ _ => msgs end in
  exists n : nat,
    (n <= length msgs)%nat
    /\ updates (snd r) = flat_map (fun m => written (id m)) (List.filter copied (firstn n msgs))
    /\ success (stats (fst r)) = Z.of_nat (length (List.filter copied (firstn n msgs)))
    /\ (if aborted (fst r) then error (fst r) <> None
        else error (fst r) = None /\ n = length msgs
             /\ counted (stats (fst r)) = total (stats (fst r))).
Proof.
  destruct c as [rep evs|msgs st evs]; intros H r ms; subst r ms.
  - destruct H as (A & E & S & U). exists 0%nat. cbn [run fst snd]. rewrite A, U, S.
    cbn. repeat split; auto.
  - destruct H as (C & S0 & T & U). rewrite run_ready. cbn [fst snd].
    rewrite close_fst, updates_app, U. cbn [app].
    destruct (process_ledger msgs 0 st) as (n & Hn & U' & S' & X).
    pose proof (process_counts self client source destination on_success cb msgs 0 st)
      as [(T' & _) _].
    exists n. split; [exact Hn|]. split; [exact U'|].
    destruct (fst (proc 0 msgs st)) as [st'|rep|e st']; cbn [exit_stats] in *.
    + cbn [finished stats aborted error]. destruct X as [-> X].
      split; [lia|]. repeat split. lia.
    + destruct X as [A E]. rewrite A. split; [lia|exact E].
    + split; [destruct e; cbn; lia|]. rewrite handle_aborted. destruct e; discriminate.
Qed.

End Ledger.

Section Sources.
Import Forwarder.

Lemma updates_announce cb text : updates (snd (announce cb text)) = [].
Proof. now destruct cb. Qed.

Lemma collect_channel_ledger client src cb start limit :
  match collect_channel client src cb start limit with
  | Early rep evs =>
      aborted rep = true /\ error rep <> None /\ success (stats rep) = 0 /\ updates evs = []
  | Ready msgs st evs =>
      msgs = rev (keep_after start (yielded (get_chat_history client src 0 limit)))
      /\ counted st = 0 /\ success st = 0 /\ total st = Z.of_nat (length msgs)
      /\ updates evs = []
  end.
Proof.
  unfold collect_channel. destruct (fails _) as [x|].
  { destruct x; cbn; repeat split; discriminate. }
  match goal with |- context [announce cb ?t] =>
    pose proof (updates_announce cb t) as U; destruct (announce cb t) as [[x|] evs] end;
    cbn [snd] in U; [destruct x; cbn; repeat split; auto; discriminate|].
  cbn. repeat split; auto.
Qed.

Lemma collect_messages_ledger client src a b cb :
  match collect_messages client src a b cb with
  | Early rep evs =>
      aborted rep = true /\ error rep <> None /\ success (stats rep) = 0 /\ updates evs = []
  | Ready msgs st evs =>
      counted st = 0 /\ success st = 0 /\ total st = Z.of_nat (length msgs)
      /\ updates evs = []
  end.
Proof.
  unfold collect_messages. destruct (if a >? b then _ else _) as [lo hi].
  match goal with |- context [announce cb ?t] =>
    pose proof (updates_announce cb t) as U; destruct (announce cb t) as [[x|] evs] end;
    cbn [snd] in U; [destruct x; cbn; repeat split; auto; discriminate|].
  destruct (collect_range lo hi _) as [kept broke].
  destruct (if broke then None else _) as [x|];
    [destruct x; cbn; repeat split; auto; discriminate|].
  destruct (total _ =? 0) eqn:T; [cbn; repeat split; auto; discriminate|].
  match goal with |- context [announce cb ?t] =>
    pose proof (updates_announce cb t) as U1; destruct (announce cb t) as [[x|] evs1] end;
    cbn [snd] in U1; rewrite ?updates_app, ?U, ?U1;
    [destruct x; cbn; repeat split; auto; discriminate|].
  cbn. repeat split; auto.
Qed.

End Sources.

(** X3.  The report of a job, full clone or range clone, is of one of
    two kinds.  One that is not aborted carries no error text and
    accounts for every message found: [success + failed + skipped] is
    [total].  One that is aborted always carries an error text. *)
Theorem report_is_completed_or_aborted
    (self : Forwarder.MessageForwarder) (client : Forwarder.Client)
    (source destination user start a b : Z) (limit : option Z)
    (cb : Forwarder.Callback) :
  let settled rep :=
    if Forwarder.aborted rep then Forwarder.error rep <> None
    else Forwarder.error rep = None
         /\ Forwarder.counted (Forwarder.stats rep) = Forwarder.total (Forwarder.stats rep) in
  settled (fst (Forwarder.clone_channel self client source destination user cb start limit))
  /\ settled (fst (Forwarder.clone_range self client source destination a b user cb)).
Proof.
  intros settled. subst settled. cbv beta. split.
  - unfold Forwarder.clone_channel.
    pose proof (collect_channel_ledger client source cb start limit) as F.
    destruct (run_ledger self client source destination
                (fun i => [Forwarder.UpdateLastMessageId source user i])
                (fun i => [(source, user, i)]) (fun _ => eq_refl) cb
                (Forwarder.collect_channel client source cb start limit))
      as (n & _ & _ & _ & H).
    { destruct (Forwarder.collect_channel _ _ _ _ _); intuition. }
    destruct (Forwarder.aborted _); intuition.
  - unfold Forwarder.clone_range.
    pose proof (collect_messages_ledger client source a b cb) as F.
    destruct (run_ledger self client source destination (fun _ => [])
                (fun _ => []) (fun _ => eq_refl) cb
                (Forwarder.collect_messages client source a b cb))
      as (n & _ & _ & _ & H).
    { destruct (Forwarder.collect_messages _ _ _ _ _); intuition. }
    destruct (Forwarder.aborted _); intuition.
Qed.

Lemma flat_map_single {A B} (f : A -> B) l : flat_map (fun x => [f x]) l = map f l.
Proof. induction l as [|x l IH]; simpl; congruence. Qed.

Lemma flat_map_none {A B} (l : list A) : flat_map (fun _ => @nil B) l = [].
Proof. induction l as [|x l IH]; simpl; auto. Qed.

(** X4.  A full clone writes the high-water mark once for each message
    copied, in the order of copying, under the source channel and the
    user of the job: the marks written are those of the copied messages
    among the first [n] of the ordered list, for some [n], and they are
    as many as the report counts successes; [n] is the whole list unless
    the report is aborted.  A range clone writes no mark at all. *)
Theorem marks_follow_copied_messages
    (self : Forwarder.MessageForwarder) (client : Forwarder.Client)
    (source destination user start a b : Z) (limit : option Z)
    (cb : Forwarder.Callback) :
  let r := Forwarder.clone_channel self client source destination user cb start limit in
  let msgs := rev (Forwarder.keep_after start
                     (Forwarder.yielded (Forwarder.get_chat_history client source 0 limit))) in
  (exists n : nat,
      Forwarder.updates (snd r)
      = map (fun m => (source, user, Forwarder.id m))
          (List.filter (Forwarder.is_copied client source destination) (firstn n msgs))
      /\ Z.of_nat (length (Forwarder.updates (snd r)))
         = Forwarder.success (Forwarder.stats (fst r))
      /\ (Forwarder.aborted (fst r) = true \/ n = length msgs))
  /\ Forwarder.updates
       (snd (Forwarder.clone_range self client source destination a b user cb)) = [].
Proof.
  intros r msgs. subst r msgs. split.
  - unfold Forwarder.clone_channel.
    pose proof (collect_channel_ledger client source cb start limit) as F.
    destruct (run_ledger self client source destination
                (fun i => [Forwarder.UpdateLastMessageId source user i])
                (fun i => [(source, user, i)]) (fun _ => eq_refl) cb
                (Forwarder.collect_channel client source cb start limit))
      as (n & Hn & U & S & H).
    { destruct (Forwarder.collect_channel _ _ _ _ _); intuition. }
    rewrite flat_map_single in U.
    destruct (Forwarder.collect_channel client source cb start limit) as [rep evs|ms st evs].
    + exists 0%nat. destruct F as (A & _). cbn [Forwarder.run fst snd] in *.
      assert (n = 0%nat) as -> by (simpl in Hn; lia).
      rewrite U, S. cbn. repeat split. now left.
    + destruct F as (-> & _). exists n. rewrite U, S, length_map.
      repeat split. destruct (Forwarder.aborted _); [now left|right; apply H].
  - unfold Forwarder.clone_range.
    pose proof (collect_messages_ledger client source a b cb) as F.
    destruct (run_ledger self client source destination (fun _ => [])
                (fun _ => []) (fun _ => eq_refl) cb
                (Forwarder.collect_messages client source a b cb))
      as (n & _ & U & _).
    { destruct (Forwarder.collect_messages _ _ _ _ _); intuition. }
    rewrite U. apply flat_map_none.
Qed.

Section Attempts.
Import Forwarder.

Lemma flood_sleeps_app a b : flood_sleeps (a ++ b) = flood_sleeps a ++ flood_sleeps b.
Proof. induction a as [|[] a IH]; simpl; rewrite ?IH; reflexivity. Qed.

(** [copy_message] enters itself once more for each wait and sleeps
    each wait as announced. *)
Lemma copy_message_attempts mid sc : forall d,
  let evs := snd (copy_message mid d sc) in
  all_calls evs = repeat mid (S (length (waits sc)))
  /\ flood_sleeps evs = waits sc.
Proof.
  induction sc as [r|v sc IH]; intros d; simpl; [auto|].
  specialize (IH (S d)). destruct (copy_message mid (S d) sc) as [res evs].
  simpl in *. destruct IH as [-> ->]. auto.
Qed.

Variable self : MessageForwarder.
Variable client : Client.
Variables source destination : Z.
Variable on_success : Z -> list Event.
Hypothesis on_success_silent : forall i,
  all_calls (on_success i) = [] /\ flood_sleeps (on_success i) = [].
Variable cb : Callback.

Local Abbreviation iter := (iteration self client cb source destination on_success).
Local Abbreviation proc := (process self client cb source destination on_success).
Local Abbreviation script m := (copy_message_replies client destination source (id m)).
Local Abbreviation tried := (fun m => negb (skipped_message m)).

Lemma finish_item_attempts i st evs :
  let r := finish_item self cb i st evs in
  all_calls (snd r) = all_calls evs /\ flood_sleeps (snd r) = flood_sleeps evs.
Proof.
  unfold finish_item, progress_update.
  destruct cb as [f|]; [destruct (_ =? 0); [destruct (f _)|]|]; cbn [fst snd];
    rewrite ?all_calls_app, ?flood_sleeps_app; cbn; rewrite ?app_nil_r; auto.
Qed.

(** The attempts of one iteration: none at a skipped message, those of
    [copy_message] at any other, however the iteration ends. *)
Lemma iteration_attempts i m st :
  let r := iter i m st in
  all_calls (snd r)
  = (if tried m then repeat (id m) (S (length (waits (script m)))) else [])
  /\ flood_sleeps (snd r) = (if tried m then waits (script m) else []).
Proof.
  intros r. subst r.
  pose proof (copy_message_attempts (id m) (script m) 0) as [A F]. cbv zeta in A, F.
  destruct (on_success_silent (id m)) as [QA QF].
  destruct (iteration_cases self client source destination on_success cb i m st)
    as [[Sk ->]|[(Sk & text & _ & ->)|[(Sk & _ & ->)|[(Sk & n & _ & ->)|(Sk & text & _ & _ & ->)]]]];
    rewrite Sk; cbn [negb fst snd]; auto.
  - match goal with |- context [finish_item self cb i ?s ?e] =>
      destruct (finish_item_attempts i s e) as [-> ->] end.
    rewrite all_calls_app, flood_sleeps_app, A, F, QA, QF, !app_nil_r. auto.
  - match goal with |- context [finish_item self cb i ?s ?e] =>
      destruct (finish_item_attempts i s e) as [-> ->] end.
    auto.
Qed.

(** The attempts of a loop are those at the messages it tries among
    the first [n], for some [n]. *)
Lemma process_attempts msgs : forall i st,
  let r := proc i msgs st in
  exists n : nat,
    all_calls (snd r)
    = flat_map (fun m => repeat (id m) (S (length (waits (script m)))))
        (List.filter tried (firstn n msgs))
    /\ flood_sleeps (snd r)
       = flat_map (fun m => waits (script m)) (List.filter tried (firstn n msgs)).
Proof.
  induction msgs as [|m msgs IH]; intros i st r; subst r.
  - exists 0%nat. auto.
  - rewrite process_cons.
    pose proof (iteration_attempts i m st) as [A F]. cbv zeta in A, F.
    destruct (iter i m st) as [[st1|x] evs]; cbn [fst snd] in *.
    + destruct (IH (i + 1) st1) as (n & A' & F').
      destruct (proc (i + 1) msgs st1) as [x' evs']. cbn [fst snd] in *.
      exists (S n). cbn [firstn List.filter].
      rewrite all_calls_app, flood_sleeps_app, A, A', F, F'.
      destruct (negb (skipped_message m)); auto.
    + exists 1%nat. cbn [firstn List.filter]. rewrite A, F.
      destruct (negb (skipped_message m)); cbn [flat_map]; rewrite ?app_nil_r; auto.
Qed.

Lemma run_attempts c :
  match c with
  | Early _ evs | Ready _ _ evs => all_calls evs = [] /\ flood_sleeps evs = []
  end ->
  let r := run self client cb source destination on_success c in
  let msgs := match c with Early _ _ => [] | Ready msgs _ _ => msgs end in
  exists n : nat,
    all_calls (snd r)
    = flat_map (fun m => repeat (id m) (S (length (waits (script m)))))
        (List.filter tried (firstn n msgs))
    /\ flood_sleeps (snd r)
       = flat_map (fun m => waits (script m)) (List.filter tried (firstn n msgs)).
Proof.
  destruct c as [rep evs|msgs st evs]; intros [A F] r ms; subst r ms.
  - exists 0%nat. cbn. auto.
  - rewrite run_ready. cbn [snd].
    destruct (process_attempts msgs 0 st) as (n & A' & F').
    exists n. now rewrite all_calls_app, flood_sleeps_app, A, F, A', F'.
Qed.

End Attempts.

Section Selected.
Import Forwarder.

Lemma attempts_announce cb text :
  all_calls (snd (announce cb text)) = [] /\ flood_sleeps (snd (announce cb text)) = [].
Proof. now destruct cb. Qed.

Lemma collect_channel_selected client src cb start limit :
  match collect_channel client src cb start limit with
  | Early _ evs => all_calls evs = [] /\ flood_sleeps evs = []
  | Ready msgs _ evs =>
      msgs = rev (keep_after start (yielded (get_chat_history client src 0 limit)))
      /\ all_calls evs = [] /\ flood_sleeps evs = []
  end.
Proof.
  unfold collect_channel. destruct (fails _) as [x|]; [now cbn|].
  match goal with |- context [announce cb ?t] =>
    pose proof (attempts_announce cb t) as U; destruct (announce cb t) as [[x|] evs] end;
    cbn [snd] in U; intuition.
Qed.

Lemma collect_messages_selected client src a b cb :
  match collect_messages client src a b cb with
  | Early _ evs => all_calls evs = [] /\ flood_sleeps evs = []
  | Ready msgs _ evs =>
      msgs = rev (fst (collect_range (Z.min a b) (Z.max a b)
                         (yielded (get_chat_history client src (Z.max a b + 1)
                                     (Some (Z.max a b - Z.min a b + 100))))))
      /\ all_calls evs = [] /\ flood_sleeps evs = []
  end.
Proof.
  unfold collect_messages. rewrite ordered_bounds.
  match goal with |- context [announce cb ?t] =>
    pose proof (attempts_announce cb t) as U; destruct (announce cb t) as [[x|] evs] end;
    cbn [snd] in U; [intuition|].
  destruct (collect_range _ _ _) as [kept broke]. cbn [fst].
  destruct (if broke then None else _) as [x|]; [intuition|].
  destruct (total _ =? 0) eqn:T; [intuition|].
  match goal with |- context [announce cb ?t] =>
    pose proof (attempts_announce cb t) as U1; destruct (announce cb t) as [[x|] evs1] end;
    cbn [snd] in U1; rewrite ?all_calls_app, ?flood_sleeps_app;
    destruct U as [-> ->]; destruct U1 as [-> ->]; intuition.
Qed.

Lemma collect_range_in_bounds lo hi (l : list Message) :
  forall m, In m (fst (collect_range lo hi l)) -> in_bounds lo hi m = true.
Proof.
  induction l as [|a l IH]; simpl; intros m H; [destruct H|].
  destruct (id a <? lo) eqn:L; [destruct H|].
  destruct (collect_range lo hi l) as [kept broke]. simpl in *.
  destruct (id a <=? hi) eqn:U; simpl in H; [destruct H as [<-|H]|]; auto.
  unfold in_bounds. rewrite U. apply Z.ltb_ge in L. apply Z.leb_le in L. now rewrite L.
Qed.

Lemma in_tried_prefix (msgs : list Message) n m :
  In m (List.filter (fun m => negb (skipped_message m)) (firstn n msgs)) ->
  In m msgs /\ skipped_message m = false.
Proof.
  intros H. apply filter_In in H as [H S]. split.
  - revert H. rewrite <- (firstn_skipn n msgs) at 2. intros H. apply in_or_app. now left.
  - now destruct (skipped_message m).
Qed.

End Selected.

(** X5.  [copy_message] sleeps each rate-limit wait for the duration the
    platform announced and then asks again, as often as the platform
    makes it wait: it is entered once more than there are waits, always
    for the same message, and returns what the first answer that is no
    wait decides. *)
Theorem rate_limit_waits_are_slept_then_retried
    (message_id : Z) (script : Forwarder.CopyScript) :
  let r := Forwarder.copy_message message_id 0 script in
  Forwarder.flood_sleeps (snd r) = Forwarder.waits script
  /\ Forwarder.all_calls (snd r)
     = repeat message_id (S (length (Forwarder.waits script)))
  /\ fst r = match Forwarder.final_reply script with
             | Forwarder.Copied new_id => inl (true, Some new_id, [])
             | Forwarder.RaisesChatForwardsRestricted =>
                 inl (false, None, chars "forwarding_restricted")
             | Forwarder.RaisesRPCError text => inl (false, None, text)
             | Forwarder.RaisesOther text => inr (Forwarder.OtherException text)
             end.
Proof.
  intros r. subst r.
  destruct (copy_message_attempts message_id script 0) as [A F].
  split; [exact F|]. split; [exact A|]. apply copy_message_result.
Qed.

(** X6.  A job asks the platform to copy only what it selected.  Every
    call of a range clone is for a message the history yielded that is
    neither empty nor a service message and whose id lies within the
    bounds, whichever way round they were given; every call of a full
    clone is for such a message above the resume point, when one is
    given. *)
Theorem only_selected_messages_are_copied
    (self : Forwarder.MessageForwarder) (client : Forwarder.Client)
    (source destination user start a b : Z) (limit : option Z)
    (cb : Forwarder.Callback) :
  Forall (fun i => exists m,
            In m (Forwarder.yielded
                    (Forwarder.get_chat_history client source (Z.max a b + 1)
                       (Some (Z.max a b - Z.min a b + 100))))
            /\ Forwarder.id m = i /\ Forwarder.skipped_message m = false
            /\ Z.min a b <= i <= Z.max a b)
    (Forwarder.all_calls
       (snd (Forwarder.clone_range self client source destination a b user cb)))
  /\ Forall (fun i => exists m,
            In m (Forwarder.yielded (Forwarder.get_chat_history client source 0 limit))
            /\ Forwarder.id m = i /\ Forwarder.skipped_message m = false
            /\ (start = 0 \/ start < i))
       (Forwarder.all_calls
          (snd (Forwarder.clone_channel self client source destination user cb start limit))).
Proof.
  split; apply List.Forall_forall; intros i Hi.
  - unfold Forwarder.clone_range in Hi.
    pose proof (collect_messages_selected client source a b cb) as C.
    destruct (run_attempts self client source destination (fun _ => [])
                (fun _ => conj eq_refl eq_refl) cb
                (Forwarder.collect_messages client source a b cb)) as (n & A & _).
    { destruct (Forwarder.collect_messages _ _ _ _ _); intuition. }
    rewrite A in Hi. apply in_flat_map in Hi as (m & Hm & Hi).
    apply repeat_spec in Hi. subst i.
    destruct (Forwarder.collect_messages _ _ _ _ _) as [rep evs|msgs st evs];
      [rewrite firstn_nil in Hm; destruct Hm|].
    destruct C as (-> & _). apply in_tried_prefix in Hm as [Hm Sk].
    apply in_rev in Hm. exists m.
    pose proof (collect_range_in_bounds _ _ _ _ Hm) as B.
    apply collect_range_kept in Hm.
    unfold Forwarder.in_bounds in B. apply andb_true_iff in B as [B1 B2].
    apply Z.leb_le in B1, B2. auto.
  - unfold Forwarder.clone_channel in Hi.
    pose proof (collect_channel_selected client source cb start limit) as C.
    destruct (run_attempts self client source destination
                (fun i => [Forwarder.UpdateLastMessageId source user i])
                (fun _ => conj eq_refl eq_refl) cb
                (Forwarder.collect_channel client source cb start limit)) as (n & A & _).
    { destruct (Forwarder.collect_channel _ _ _ _ _); intuition. }
    rewrite A in Hi. apply in_flat_map in Hi as (m & Hm & Hi).
    apply repeat_spec in Hi. subst i.
    destruct (Forwarder.collect_channel _ _ _ _ _) as [rep evs|msgs st evs];
      [rewrite firstn_nil in Hm; destruct Hm|].
    destruct C as (-> & _). apply in_tried_prefix in Hm as [Hm Sk].
    apply in_rev in Hm. unfold Forwarder.keep_after in Hm.
    apply filter_In in Hm as [Hm K]. exists m. repeat split; auto.
    destruct (start =? 0) eqn:E; [left; lia|right].
    cbn in K. apply negb_true_iff in K. lia.
Qed.

Section Ranges.
Import Forwarder.

(** Over a history of decreasing ids the loop of [clone_range] keeps
    all the messages within the bounds: leaving at the first id below
    them loses none. *)
Lemma collect_range_decreasing lo hi (l : list Message) :
  StronglySorted Z.gt (map id l) ->
  fst (collect_range lo hi l) = List.filter (in_bounds lo hi) l.
Proof.
  induction l as [|a l IH]; simpl; intros S; [reflexivity|].
  inversion S as [|? ? S' F]; subst.
  unfold in_bounds at 1. destruct (id a <? lo) eqn:L.
  - apply Z.ltb_lt in L. replace (lo <=? id a) with false by (symmetry; apply Z.leb_gt; lia).
    cbn [andb fst]. symmetry.
    assert (G : forall x, In x l -> id a > id x).
    { intros x Hx. rewrite List.Forall_forall in F. apply F. now apply in_map. }
    clear IH S S' F. induction l as [|x l IH]; simpl; [reflexivity|].
    assert (X : id a > id x) by (apply G; simpl; auto).
    unfold in_bounds at 1.
    replace (lo <=? id x) with false by (symmetry; apply Z.leb_gt; lia).
    cbn [andb]. apply IH. intros y Hy. apply G. simpl. tauto.
  - apply Z.ltb_ge in L. replace (lo <=? id a) with true by (symmetry; apply Z.leb_le; lia).
    cbn [andb]. specialize (IH S').
    destruct (collect_range lo hi l) as [kept broke]. cbn [fst] in *.
    destruct (id a <=? hi); congruence.
Qed.

(** Whatever the order of the history, the loop keeps nothing when no
    message lies within the bounds. *)
Lemma collect_range_nothing lo hi (l : list Message) :
  Forall (fun m => in_bounds lo hi m = false) l -> fst (collect_range lo hi l) = [].
Proof.
  intros F. destruct (fst (collect_range lo hi l)) as [|m kept] eqn:K; [reflexivity|].
  assert (H : In m (fst (collect_range lo hi l))) by (rewrite K; simpl; auto).
  pose proof (collect_range_in_bounds _ _ _ _ H) as B.
  apply collect_range_kept in H. rewrite List.Forall_forall in F.
  rewrite (F m H) in B. discriminate.
Qed.

(** What [clone_range] has collected when the history does not fail
    and the sink lets nothing out. *)
Lemma collect_messages_calm client src a b cb :
  let lo := Z.min a b in
  let hi := Z.max a b in
  let h := get_chat_history client src (hi + 1) (Some (hi - lo + 100)) in
  let kept := fst (collect_range lo hi (yielded h)) in
  let st := set_total (Z.of_nat (length kept)) (stats0 (Some (a, b))) in
  fails h = None ->
  (forall text, fst (announce cb text) = None) ->
  exists evs,
    all_calls evs = [] /\ delays evs = [] /\
    collect_messages client src a b cb
    = if Z.of_nat (length kept) =? 0
      then Early (abort st (cross ++ chars " No messages found in the specified range.")) evs
      else Ready (rev kept) st evs.
Proof.
  intros lo hi h kept st F Q. subst lo hi h kept st.
  unfold collect_messages. rewrite ordered_bounds.
  match goal with |- context [announce cb ?t] =>
    pose proof (announce_events cb t) as E; pose proof (Q t) as Q1;
    destruct (announce cb t) as [x evs] end.
  cbn [fst snd] in *. subst x. destruct E as (_ & A & D & _).
  destruct (collect_range _ _ _) as [kept broke]. cbn [fst].
  rewrite F. replace (if broke then None else None) with (@None Raised) by now destruct broke.
  rewrite length_rev. cbn [total set_total].
  destruct (Z.of_nat (length kept) =? 0) eqn:T.
  - exists evs. repeat split; auto.
  - match goal with |- context [announce cb ?t] =>
      pose proof (announce_events cb t) as E; pose proof (Q t) as Q2;
      destruct (announce cb t) as [x evs1] end.
    cbn [fst snd] in *. subst x. destruct E as (_ & A1 & D1 & _).
    exists (evs ++ evs1). rewrite all_calls_app, delays_app, A, A1, D, D1.
    repeat split; auto.
Qed.

End Ranges.

(** X7.  When the platform yields the history by decreasing ids, does
    not fail, and the sink lets nothing out, a range clone finds every
    yielded message whose id lies within the bounds: the loop over the
    history keeps exactly these, leaving at the first id below the
    bounds loses none, and [total] is their number. *)
Theorem decreasing_history_range_is_complete
    (self : Forwarder.MessageForwarder) (client : Forwarder.Client)
    (source destination a b user : Z) (cb : Forwarder.Callback) :
  let lo := Z.min a b in
  let hi := Z.max a b in
  let h := Forwarder.get_chat_history client source (hi + 1) (Some (hi - lo + 100)) in
  let wanted := List.filter (Forwarder.in_bounds lo hi) (Forwarder.yielded h) in
  StronglySorted Z.gt (map Forwarder.id (Forwarder.yielded h)) ->
  Forwarder.fails h = None ->
  (forall text, fst (Forwarder.announce cb text) = None) ->
  fst (Forwarder.collect_range lo hi (Forwarder.yielded h)) = wanted
  /\ Forwarder.total
       (Forwarder.stats
          (fst (Forwarder.clone_range self client source destination a b user cb)))
     = Z.of_nat (length wanted).
Proof.
  intros lo hi h wanted S F Q. subst wanted.
  pose proof (collect_range_decreasing lo hi _ S) as K. split; [exact K|].
  unfold Forwarder.clone_range.
  destruct (collect_messages_calm client source a b cb F Q) as (evs & _ & _ & ->).
  fold lo hi h. rewrite K.
  destruct (Z.of_nat (length _) =? 0) eqn:T.
  - reflexivity.
  - rewrite run_ready. cbn [fst]. rewrite close_fst.
    pose proof (process_counts self client source destination (fun _ => []) cb
                  (rev (List.filter (Forwarder.in_bounds lo hi) (Forwarder.yielded h))) 0
                  (Forwarder.set_total
                     (Z.of_nat (length (List.filter (Forwarder.in_bounds lo hi)
                                          (Forwarder.yielded h))))
                     (Forwarder.stats0 (Some (a, b))))) as [(T' & _) _].
    cbn [Forwarder.total Forwarder.set_total] in T'.
    destruct (fst (Forwarder.process _ _ _ _ _ _ _ _ _)) as [st'|rep|x st'];
      cbn [Forwarder.exit_stats] in T'; try exact T'.
    destruct x; exact T'.
Qed.

Lemma decreasing_history_range_is_complete_witness :
  fst (Forwarder.collect_range 3 5 Samples.eleven)
  = [Samples.message 5; Samples.message 4; Samples.message 3]
  /\ Forwarder.total
       (Forwarder.stats
          (fst (Forwarder.clone_range Forwarder.init Samples.open_client 1 2 5 3 7 None)))
     = 3.
Proof.
  apply (decreasing_history_range_is_complete Forwarder.init Samples.open_client
           1 2 5 3 7 None).
  - repeat constructor.
  - reflexivity.
  - reflexivity.
Defined.

(** X8.  When no message the history yields lies within the bounds, a
    range clone is over before its loop: the report is aborted with the
    text that no messages were found, every counter is zero, the bounds
    are echoed as given, and nothing is copied nor slept. *)
Theorem empty_range_aborts_before_the_loop
    (self : Forwarder.MessageForwarder) (client : Forwarder.Client)
    (source destination a b user : Z) (cb : Forwarder.Callback) :
  let lo := Z.min a b in
  let hi := Z.max a b in
  let h := Forwarder.get_chat_history client source (hi + 1) (Some (hi - lo + 100)) in
  let r := Forwarder.clone_range self client source destination a b user cb in
  Forall (fun m => Forwarder.in_bounds lo hi m = false) (Forwarder.yielded h) ->
  Forwarder.fails h = None ->
  (forall text, fst (Forwarder.announce cb text) = None) ->
  fst r = Forwarder.abort (Forwarder.stats0 (Some (a, b)))
            (Forwarder.cross ++ chars " No messages found in the specified range.")
  /\ Forwarder.all_calls (snd r) = [] /\ Forwarder.delays (snd r) = [].
Proof.
  intros lo hi h r N F Q. subst r. unfold Forwarder.clone_range.
  destruct (collect_messages_calm client source a b cb F Q) as (evs & A & D & ->).
  fold lo hi h. rewrite (collect_range_nothing lo hi _ N). cbn. auto.
Qed.

Lemma empty_range_aborts_before_the_loop_witness :
  fst (Forwarder.clone_range Forwarder.init Samples.open_client 1 2 30 20 7 None)
  = Forwarder.abort (Forwarder.stats0 (Some (30, 20)))
      (Forwarder.cross ++ chars " No messages found in the specified range.")
  /\ Forwarder.all_calls
       (snd (Forwarder.clone_range Forwarder.init Samples.open_client 1 2 30 20 7 None)) = []
  /\ Forwarder.delays
       (snd (Forwarder.clone_range Forwarder.init Samples.open_client 1 2 30 20 7 None)) = [].
Proof.
  apply (empty_range_aborts_before_the_loop Forwarder.init Samples.open_client
           1 2 30 20 7 None).
  - repeat constructor.
  - reflexivity.
  - reflexivity.
Defined.

(** X9.  A full clone with nothing to copy — the history yields no
    message, or none above the resume point — is no error: when the
    history does not fail and the sink lets nothing out, the report is
    a completed one, not aborted and without error text, with every
    counter zero, and nothing is copied nor slept. *)
Theorem empty_channel_completes
    (self : Forwarder.MessageForwarder) (client : Forwarder.Client)
    (source destination user start : Z) (limit : option Z) (cb : Forwarder.Callback) :
  let h := Forwarder.get_chat_history client source 0 limit in
  let r := Forwarder.clone_channel self client source destination user cb start limit in
  Forwarder.keep_after start (Forwarder.yielded h) = [] ->
  Forwarder.fails h = None ->
  (forall text, fst (Forwarder.announce cb text) = None) ->
  fst r = Forwarder.finished (Forwarder.stats0 None)
  /\ Forwarder.all_calls (snd r) = [] /\ Forwarder.delays (snd r) = [].
Proof.
  intros h r N F Q. subst r h.
  unfold Forwarder.clone_channel, Forwarder.collect_channel. rewrite F, N. cbn [rev length].
  match goal with |- context [Forwarder.announce cb ?t] =>
    pose proof (announce_events cb t) as E; pose proof (Q t) as Q1;
    destruct (Forwarder.announce cb t) as [x evs] end.
  cbn [fst snd] in *. subst x. destruct E as (_ & A & D & _).
  cbn. rewrite app_nil_r. auto.
Qed.

Lemma empty_channel_completes_witness :
  fst (Forwarder.clone_channel Forwarder.init Samples.open_client 1 2 7 None 11 None)
  = Forwarder.finished (Forwarder.stats0 None)
  /\ Forwarder.all_calls
       (snd (Forwarder.clone_channel Forwarder.init Samples.open_client 1 2 7 None 11 None))
     = []
  /\ Forwarder.delays
       (snd (Forwarder.clone_channel Forwarder.init Samples.open_client 1 2 7 None 11 None))
     = [].
Proof.
  apply (empty_channel_completes Forwarder.init Samples.open_client 1 2 7 11 None None);
    reflexivity.
Defined.

Section Cancelled.
Import Forwarder.

Variable self : MessageForwarder.
Variable client : Client.
Variables source destination : Z.
Variable on_success : Z -> list Event.
Hypothesis on_success_acts : forall i, acts (on_success i) = on_success i.
Variable f : str -> option Raised.
Hypothesis f_quiet : forall text, f text = None.

Local Abbreviation proc cb := (process self client cb source destination on_success).

Lemma acts_app a b : acts (a ++ b) = acts a ++ acts b.
Proof. unfold acts. apply List.filter_app. Qed.

Lemma acts_copy_message mid sc : forall d,
  acts (snd (copy_message mid d sc)) = snd (copy_message mid d sc).
Proof.
  induction sc as [r|v sc IH]; intros d; simpl; [reflexivity|].
  specialize (IH (S d)). destruct (copy_message mid (S d) sc) as [res evs].
  cbn in *. unfold acts in IH. now rewrite IH.
Qed.

Lemma finish_item_acts i st evs :
  acts evs = evs ->
  finish_item self None i st evs
  = (fst (finish_item self (Some f) i st evs),
     acts (snd (finish_item self (Some f) i st evs))).
Proof.
  intros E. unfold finish_item, progress_update.
  destruct ((i + 1) mod 10 =? 0); rewrite ?f_quiet; cbn [fst snd];
    rewrite !acts_app, E; reflexivity.
Qed.

(** A loop with a sink that lets nothing out does what the loop
    without a sink does, and tells its progress. *)
Lemma process_acts msgs : forall i st,
  proc None i msgs st
  = (fst (proc (Some f) i msgs st), acts (snd (proc (Some f) i msgs st))).
Proof.
  induction msgs as [|m msgs IH]; intros i st; [reflexivity|].
  rewrite !process_cons.
  assert (I : iteration self client None source destination on_success i m st
              = (fst (iteration self client (Some f) source destination on_success i m st),
                 acts (snd (iteration self client (Some f) source destination
                              on_success i m st)))).
  { unfold iteration. destruct (empty m || service m); [reflexivity|].
    pose proof (acts_copy_message (id m)
                  (copy_message_replies client destination source (id m)) 0) as C.
    destruct (copy_message _ _ _) as [[[[ok nid] err]|x] evs]; cbn [snd] in C;
      [|cbn [fst snd]; now rewrite C].
    destruct ok; [|destruct (bool_decide _); [cbn [fst snd]; now rewrite C|]].
    - apply finish_item_acts. now rewrite acts_app, C, on_success_acts.
    - now apply finish_item_acts. }
  rewrite I.
  destruct (iteration self client (Some f) source destination on_success i m st)
    as [[st1|x] evs]; cbn [fst snd]; [|reflexivity].
  rewrite IH. destruct (proc (Some f) (i + 1) msgs st1) as [x' evs'].
  cbn [fst snd]. now rewrite acts_app.
Qed.

Lemma run_acts c c' :
  match c, c' with
  | Early rep evs, Early rep' evs' => rep = rep' /\ acts evs = evs'
  | Ready msgs st evs, Ready msgs' st' evs' => msgs = msgs' /\ st = st' /\ acts evs = evs'
  | _, _ => False
  end ->
  run self client None source destination on_success c'
  = (fst (run self client (Some f) source destination on_success c),
     acts (snd (run self client (Some f) source destination on_success c))).
Proof.
  destruct c as [rep evs|msgs st evs], c' as [rep' evs'|msgs' st' evs'];
    try contradiction.
  - intros [<- <-]. reflexivity.
  - intros (<- & <- & <-). rewrite !run_ready. cbn [fst snd].
    rewrite process_acts, !close_fst, acts_app. reflexivity.
Qed.

End Cancelled.

Section CancelledJobs.
Import Forwarder.

Lemma collect_channel_acts client src f start limit :
  (forall t, f t = None) ->
  match collect_channel client src (Some f) start limit,
        collect_channel client src None start limit with
  | Early rep evs, Early rep' evs' => rep = rep' /\ acts evs = evs'
  | Ready msgs st evs, Ready msgs' st' evs' => msgs = msgs' /\ st = st' /\ acts evs = evs'
  | _, _ => False
  end.
Proof.
  intros Q. unfold collect_channel.
  destruct (fails _); [now split|]. simpl. rewrite Q. auto.
Qed.

Lemma collect_messages_acts client src a b f :
  (forall t, f t = None) ->
  match collect_messages client src a b (Some f),
        collect_messages client src a b None with
  | Early rep evs, Early rep' evs' => rep = rep' /\ acts evs = evs'
  | Ready msgs st evs, Ready msgs' st' evs' => msgs = msgs' /\ st = st' /\ acts evs = evs'
  | _, _ => False
  end.
Proof.
  intros Q. unfold collect_messages.
  destruct (if a >? b then (b, a) else (a, b)) as [lo hi].
  simpl. rewrite Q.
  destruct (collect_range lo hi _) as [kept broke].
  destruct (if broke then None else fails _); [now split|].
  destruct (_ =? 0); [now split|]. rewrite Q. auto.
Qed.

End CancelledJobs.

(** X10.  A job does not look at the registry of active tasks, which is
    all that [/cancel] changes: run with the progress callback of the
    command handlers, whatever the registry says each time the callback
    is called and whatever its edit does, a job makes the same calls,
    sleeps, and writes the same marks, in the same order, as the job
    without a sink, and returns the same report.  Only the progress
    texts are extra. *)
Theorem cancelled_job_keeps_copying
    (self : Forwarder.MessageForwarder) (client : Forwarder.Client)
    (source destination user start a b : Z) (limit : option Z)
    (in_active_tasks : str -> bool)
    (edit_text : str -> option Forwarder.Raised) :
  let sink := Bot.progress_callback in_active_tasks edit_text in
  let full cb := Forwarder.clone_channel self client source destination user cb start limit in
  let range cb := Forwarder.clone_range self client source destination a b user cb in
  full None = (fst (full sink), Forwarder.acts (snd (full sink)))
  /\ range None = (fst (range sink), Forwarder.acts (snd (range sink))).
Proof.
  intros sink full range. subst sink full range. cbv beta. unfold Bot.progress_callback.
  set (f := fun text : str =>
              if negb (in_active_tasks text) then None
              else match edit_text text with
                   | Some _ => None
                   | None => None
                   end : option Forwarder.Raised).
  assert (Q : forall t, f t = None).
  { intros t. unfold f. destruct (in_active_tasks t); simpl; [|reflexivity].
    now destruct (edit_text t). }
  unfold Forwarder.clone_channel, Forwarder.clone_range. split.
  - apply run_acts; [reflexivity|exact Q|]. now apply collect_channel_acts.
  - apply run_acts; [reflexivity|exact Q|]. now apply collect_messages_acts.
Qed.

Section Storage.
Import Database.

Ltac run_monad :=
  repeat (progress
            (unfold bind, ret, raise, try_except, gets, modify, on, await,
               await_value in *)).

Lemma set_destination_cases env user dest d :
  set_destination env user dest d
  = match user_settings_update_one env with
    | None =>
        (Ret true,
         set_user_settings (<[user := {| destination_channel_id := Some dest |}]>) d)
    | Some _ => (Ret false, d)
    end.
Proof. unfold set_destination. run_monad. now destruct (user_settings_update_one env). Qed.

Lemma get_destination_cases env user d :
  get_destination env user d
  = (Ret match user_settings_find_one env with
         | None =>
             match user_settings d !! user with
             | Some doc => default 0 (destination_channel_id doc)
             | None => 0
             end
         | Some _ => 0
         end, d).
Proof.
  unfold get_destination. run_monad.
  destruct (user_settings_find_one env); [reflexivity|]. cbn.
  now destruct (user_settings d !! user).
Qed.

Lemma save_user_session_cases env user phone session d :
  save_user_session env user phone session d
  = match users_update_one env with
    | None =>
        (Ret true,
         set_users (<[user := {| phone_number := phone; session_string := session;
                                 is_active := true |}]>) d)
    | Some _ => (Ret false, d)
    end.
Proof. unfold save_user_session. run_monad. now destruct (users_update_one env). Qed.

Lemma get_user_session_cases env user d :
  get_user_session env user d
  = (Ret match users_find_one env with
         | None =>
             match users d !! user with
             | Some doc => if is_active doc then Some doc else None
             | None => None
             end
         | Some _ => None
         end, d).
Proof.
  unfold get_user_session. run_monad.
  destruct (users_find_one env); [reflexivity|]. cbn.
  now destruct (users d !! user).
Qed.

Lemma delete_user_session_cases env user d :
  delete_user_session env user d
  = match users_update_one env with
    | None => (Ret true, set_users (alter deactivate user) d)
    | Some _ => (Ret false, d)
    end.
Proof. unfold delete_user_session. run_monad. now destruct (users_update_one env). Qed.

End Storage.

(** X11.  [/cancel] answers that the task is cancelled exactly when the
    user is registered with an active task, and removes the mark of
    this user only, the login manager being left as it is.  After it
    the user has no active task: a second [/cancel] says so, and
    [/clone] is not refused for an active task. *)
Theorem cancel_frees_the_slot
    (env : Env) (user : Z) (args : list str) (b : Bot.Bot) :
  let r := Bot.cancel_command user b in
  fst r = Ret (if bool_decide (user ∈ Bot.active_tasks b)
               then Bot.TaskCancelled else Bot.NoActiveTask)
  /\ Bot.active_tasks (snd r) = Bot.active_tasks b ∖ {[user]}
  /\ Bot.user_manager (snd r) = Bot.user_manager b
  /\ Bot.cancel_command user (snd r) = (Ret Bot.NoActiveTask, snd r)
  /\ fst (Bot.clone_command env user args (snd r)) <> Ret Bot.ActiveTask.
Proof.
  intros r. subst r.
  assert (N : forall b', Bot.active_tasks b' = Bot.active_tasks b ∖ {[user]} ->
                         bool_decide (user ∈ Bot.active_tasks b') = false).
  { intros b' E. apply bool_decide_eq_false.
    rewrite E, elem_of_difference, elem_of_singleton. tauto. }
  assert (G : forall b', bool_decide (user ∈ Bot.active_tasks b') = false ->
                Bot.cancel_command user b' = (Ret Bot.NoActiveTask, b')
                /\ fst (Bot.clone_command env user args b') <> Ret Bot.ActiveTask).
  { intros b' E. unfold Bot.cancel_command, Bot.clone_command, bind, gets, ret.
    rewrite E. split; [reflexivity|].
    destruct (Bot.with_manager _ b') as [[[c|]|e] b2]; cbn; try discriminate.
    repeat (first
      [ discriminate
      | match goal with
        | |- context [Bot.with_db ?a ?s] => destruct (Bot.with_db a s) as [[?|?] ?]
        | |- context [match py_int ?x with _ => _ end] => destruct (py_int x)
        | |- context [if ?c then _ else _] => destruct c
        end; cbn ]). }
  assert (C : Bot.cancel_command user b
              = (Ret (if bool_decide (user ∈ Bot.active_tasks b)
                      then Bot.TaskCancelled else Bot.NoActiveTask),
                 if bool_decide (user ∈ Bot.active_tasks b)
                 then Bot.set_active_tasks (fun tasks => tasks ∖ {[user]}) b else b)).
  { unfold Bot.cancel_command, bind, gets, ret, modify.
    now destruct (bool_decide (user ∈ Bot.active_tasks b)). }
  rewrite C. cbn [fst snd].
  destruct (bool_decide (user ∈ Bot.active_tasks b)) eqn:A.
  - repeat split; try reflexivity; apply G, N; reflexivity.
  - assert (E : Bot.active_tasks b = Bot.active_tasks b ∖ {[user]}).
    { apply bool_decide_eq_false in A. apply set_eq. intros x.
      rewrite elem_of_difference, elem_of_singleton. split; [|tauto].
      intros Hx. split; [exact Hx|]. intros ->. contradiction. }
    repeat split; auto; apply G, A.
Qed.

(** X12.  A destination that is stored is the one read back: when the
    write and the later read of the settings do not fail,
    [set_destination] returns [True] and [get_destination] then returns
    the channel given, for this user; what it returns for any other
    user is what it returned before, and the stored sessions are
    untouched. *)
Theorem destination_round_trip
    (env1 env2 : Env) (user dest : Z) (d : Database.Database) :
  let d1 := snd (Database.set_destination env1 user dest d) in
  user_settings_update_one env1 = None ->
  user_settings_find_one env2 = None ->
  fst (Database.set_destination env1 user dest d) = Ret true
  /\ Database.get_destination env2 user d1 = (Ret dest, d1)
  /\ (forall other, other <> user ->
        fst (Database.get_destination env2 other d1)
        = fst (Database.get_destination env2 other d))
  /\ Database.users d1 = Database.users d.
Proof.
  intros d1 W R. subst d1. rewrite set_destination_cases, W. cbn [fst snd].
  split; [reflexivity|]. split; [|split; [|reflexivity]].
  - rewrite get_destination_cases, R. cbn. now rewrite lookup_insert_eq.
  - intros other N. rewrite !get_destination_cases, R. cbn.
    now rewrite lookup_insert_ne.
Qed.

Lemma destination_round_trip_witness :
  fst (Database.set_destination Samples.calm 7 (-1005) Samples.no_data) = Ret true
  /\ Database.get_destination Samples.calm 7
       (snd (Database.set_destination Samples.calm 7 (-1005) Samples.no_data))
     = (Ret (-1005), snd (Database.set_destination Samples.calm 7 (-1005) Samples.no_data)).
Proof.
  destruct (destination_round_trip Samples.calm Samples.calm 7 (-1005) Samples.no_data
              eq_refl eq_refl) as (H1 & H2 & _).
  split; [exact H1 | exact H2].
Defined.

(** X13.  A stored session is read back until it is deleted, and
    deleting it only marks it: when the driver does not fail, after
    [save_user_session] the read of the user's session returns the
    phone number and the session string saved; after
    [delete_user_session] it returns nothing, while the record, session
    string included, is still in the collection, marked inactive. *)
Theorem deleted_session_is_kept_inactive
    (env1 env2 env3 : Env) (user : Z) (phone session : str) (d : Database.Database) :
  let saved := {| Database.phone_number := phone; Database.session_string := session;
                  Database.is_active := true |} in
  let d1 := snd (Database.save_user_session env1 user phone session d) in
  let d2 := snd (Database.delete_user_session env3 user d1) in
  users_update_one env1 = None ->
  users_find_one env2 = None ->
  users_update_one env3 = None ->
  Database.get_user_session env2 user d1 = (Ret (Some saved), d1)
  /\ Database.get_user_session env2 user d2 = (Ret None, d2)
  /\ Database.users d2 !! user = Some (Database.deactivate saved)
  /\ Database.user_settings d2 = Database.user_settings d.
Proof.
  intros saved d1 d2 W R D. subst saved d1 d2.
  rewrite save_user_session_cases, W. cbn [snd].
  rewrite delete_user_session_cases, D. cbn [snd].
  rewrite !get_user_session_cases, R. cbn.
  rewrite lookup_alter_eq, !lookup_insert_eq. cbn. auto.
Qed.

Lemma deleted_session_is_kept_inactive_witness :
  let d1 := snd (Database.save_user_session Samples.calm 7 (chars "+111") (chars "session")
                   Samples.no_data) in
  let d2 := snd (Database.delete_user_session Samples.calm 7 d1) in
  Database.get_user_session Samples.calm 7 d2 = (Ret None, d2)
  /\ Database.users d2 !! 7
     = Some {| Database.phone_number := chars "+111";
               Database.session_string := chars "session";
               Database.is_active := false |}.
Proof.
  destruct (deleted_session_is_kept_inactive Samples.calm Samples.calm Samples.calm 7
              (chars "+111") (chars "session") Samples.no_data eq_refl eq_refl eq_refl)
    as (_ & H2 & H3 & _).
  split; [exact H2 | exact H3].
Defined.

Section Accounts.
Import UserClient.

Ltac run_monad :=
  unfold with_db in *;
  repeat (progress
            (unfold bind, ret, raise, try_except, gets, modify, on, await,
               await_value in *)).

(** A successful request for a code. *)
Lemma initiate_login_sent env user phone m sent_code :
  connect env = None -> send_code env = inr sent_code ->
  initiate_login env user phone m
  = (Ret (ok (Some (chars "otp"))
            (chars "OTP sent to " ++ phone ++ chars ". Please enter the OTP code.")),
     {| db := db m; active_clients := active_clients m;
        pending_logins :=
          <[user := {| client := next_client m; phone_number := phone;
                       phone_code_hash := sent_code; step := chars "otp" |}]>
            (pending_logins m);
        connected := {[next_client m]} ∪ connected m;
        next_client := S (next_client m) |}).
Proof.
  intros C S. unfold initiate_login, new_client, client_connect. run_monad.
  rewrite C, S. reflexivity.
Qed.

(** What completing a login leaves. *)
Lemma complete_login_done env user c phone msg session m :
  export_session_string env = inr session ->
  complete_login env user c phone msg m
  = (Ret (ok None msg),
     {| db := snd (Database.save_user_session env user phone session (db m));
        active_clients := <[user := c]> (active_clients m);
        pending_logins := delete user (pending_logins m);
        connected := connected m; next_client := next_client m |}).
Proof.
  intros X. unfold complete_login. run_monad. rewrite X. cbn beta iota.
  rewrite save_user_session_cases. now destruct (users_update_one env).
Qed.

Lemma verify_otp_accepted env user code m login_data session :
  pending_logins m !! user = Some login_data ->
  sign_in env = None -> export_session_string env = inr session ->
  verify_otp env user code m
  = complete_login env user (client login_data) (phone_number login_data)
      (chars "Login successful! You can now use the bot to forward from channels where you have access.")
      m.
Proof.
  intros P S X. unfold verify_otp. run_monad. rewrite P, S. cbn beta iota.
  fold (@bind UserClientManager). rewrite (complete_login_done _ _ _ _ _ _ _ X).
  reflexivity.
Qed.

(** A cached handle that is connected is what [get_client] returns,
    without asking anything of the outside. *)
Lemma get_client_cached env user m c :
  active_clients m !! user = Some c -> c ∈ connected m ->
  get_client env user m = (Ret (Some c), m).
Proof.
  intros A C. unfold get_client, is_connected. run_monad. rewrite A.
  now rewrite (bool_decide_eq_true_2 _ C).
Qed.

End Accounts.

(** X14.  A login that goes through ends on the connection it started
    on.  When connecting and the request for a code succeed, and the
    platform then accepts the code and exports the session,
    [verify_otp] reports success and removes the record in flight; from
    then on [get_client] returns the handle [initiate_login] created,
    whatever the outside answers, without building another.  The session
    is stored under the phone number of the request when the write
    succeeds; when it fails the login is reported successful all the
    same and the stored sessions are left as they were. *)
Theorem login_ends_on_the_connection_it_started_on
    (env1 env2 : Env) (user : Z) (phone code sent_code session : str)
    (m : UserClient.UserClientManager) :
  let m1 := snd (UserClient.initiate_login env1 user phone m) in
  let r := UserClient.verify_otp env2 user code m1 in
  connect env1 = None -> send_code env1 = inr sent_code ->
  sign_in env2 = None -> export_session_string env2 = inr session ->
  fst r = Ret (UserClient.ok None
                 (chars "Login successful! You can now use the bot to forward from channels where you have access."))
  /\ UserClient.pending_logins (snd r) !! user = None
  /\ (forall env3,
        UserClient.get_client env3 user (snd r)
        = (Ret (Some (UserClient.next_client m)), snd r))
  /\ Database.users (UserClient.db (snd r)) !! user
     = match users_update_one env2 with
       | None => Some {| Database.phone_number := phone;
                         Database.session_string := session;
                         Database.is_active := true |}
       | Some _ => Database.users (UserClient.db m) !! user
       end.
Proof.
  intros m1 r C S I X. subst r m1.
  rewrite (initiate_login_sent _ _ _ _ _ C S). cbn [snd].
  erewrite verify_otp_accepted; [|apply lookup_insert_eq|exact I|exact X].
  rewrite (complete_login_done _ _ _ _ _ _ _ X).
  cbn [fst snd UserClient.client UserClient.phone_number UserClient.pending_logins
       UserClient.db].
  split; [reflexivity|]. split; [apply lookup_delete_eq|]. split.
  - intros env3. apply get_client_cached.
    + apply lookup_insert_eq.
    + cbn. apply elem_of_union_l, elem_of_singleton. reflexivity.
  - rewrite save_user_session_cases. destruct (users_update_one env2); cbn.
    + reflexivity.
    + apply lookup_insert_eq.
Qed.

Lemma login_ends_on_the_connection_it_started_on_witness :
  let m1 := snd (UserClient.initiate_login Samples.calm 7 (chars "+111") Samples.fresh) in
  let r := UserClient.verify_otp Samples.calm 7 (chars "12345") m1 in
  UserClient.success (match fst r with Ret x => x | Raises _ => UserClient.failure [] end)
  = true
  /\ UserClient.get_client Samples.dead_session 7 (snd r) = (Ret (Some 0%nat), snd r).
Proof.
  destruct (login_ends_on_the_connection_it_started_on Samples.calm Samples.calm 7
              (chars "+111") (chars "12345") (chars "hash2") (chars "session")
              Samples.fresh eq_refl eq_refl eq_refl eq_refl) as (H1 & _ & H3 & _).
  split.
  - cbv zeta. rewrite H1. reflexivity.
  - exact (H3 Samples.dead_session).
Defined.

Section Sessions.
Import UserClient.

Ltac run_monad :=
  unfold with_db in *;
  repeat (progress
            (unfold bind, ret, raise, try_except, gets, modify, on, await,
               await_value in *)).

(** Restoring from a stored session. *)
Lemma restore_client_cases env user m :
  restore_client env user m
  = match fst (Database.get_user_session env user (db m)) with
    | Ret (Some doc) =>
        match Database.session_string doc with
        | [] => (Ret None, m)
        | _ :: _ =>
            match start env with
            | None =>
                (Ret (Some (next_client m)),
                 {| db := db m;
                    active_clients := <[user := next_client m]> (active_clients m);
                    pending_logins := pending_logins m;
                    connected := {[next_client m]} ∪ connected m;
                    next_client := S (next_client m) |})
            | Some _ =>
                (Ret None,
                 {| db := db m; active_clients := active_clients m;
                    pending_logins := pending_logins m;
                    connected := connected m;
                    next_client := S (next_client m) |})
            end
        end
    | _ => (Ret None, m)
    end.
Proof.
  unfold restore_client. run_monad. rewrite get_user_session_cases. cbn [fst snd].
  rewrite set_db_same.
  destruct (match users_find_one env with None => _ | Some _ => None end) as [doc|];
    [|reflexivity].
  destruct (Database.session_string doc) as [|a l]; [reflexivity|].
  unfold start_client_from_session, new_client, client_start. run_monad.
  now destruct (start env).
Qed.

Lemma get_client_uncached env user m :
  (forall c, active_clients m !! user = Some c -> c ∉ connected m) ->
  get_client env user m = restore_client env user m.
Proof.
  intros N. unfold get_client, is_connected. run_monad.
  destruct (active_clients m !! user) as [c|]; [|reflexivity].
  now rewrite (bool_decide_eq_false_2 _ (N c eq_refl)).
Qed.

(** What [logout] does. *)
Lemma logout_cases env user m :
  logout env user m
  = match active_clients m !! user, stop env with
    | Some c, Some e => (Ret (failure (text e)), m)
    | Some c, None =>
        (Ret (ok None (chars "Logged out successfully.")),
         {| db := snd (Database.delete_user_session env user (db m));
            active_clients := delete user (active_clients m);
            pending_logins := pending_logins m;
            connected := connected m ∖ {[c]};
            next_client := next_client m |})
    | None, _ =>
        (Ret (ok None (chars "Logged out successfully.")),
         {| db := snd (Database.delete_user_session env user (db m));
            active_clients := active_clients m;
            pending_logins := pending_logins m;
            connected := connected m;
            next_client := next_client m |})
    end.
Proof.
  unfold logout, client_stop. run_monad. destruct m as [d ac pl conn nxt].
  cbn [db active_clients pending_logins connected next_client].
  destruct (ac !! user) as [c|]; destruct (stop env); cbn beta iota;
    unfold set_active_clients, set_connected, set_db;
    cbn [db active_clients pending_logins connected next_client];
    rewrite ?delete_user_session_cases; try reflexivity;
    now destruct (users_update_one env).
Qed.

End Sessions.

(** X15.  A stored session survives the loss of the live handle.  For a
    user without a cached handle whose session is stored, active and
    not empty, [get_client] builds a new client from it when the read
    and the start succeed, registers it and returns it; asked again, it
    returns this same handle from its cache, whatever the outside
    answers then, and builds nothing more. *)
Theorem stored_session_is_restored_once
    (env env' : Env) (user : Z) (m : UserClient.UserClientManager)
    (doc : Database.UserDoc) :
  let r := UserClient.get_client env user m in
  UserClient.active_clients m !! user = None ->
  Database.users (UserClient.db m) !! user = Some doc ->
  Database.is_active doc = true ->
  Database.session_string doc <> [] ->
  users_find_one env = None ->
  start env = None ->
  fst r = Ret (Some (UserClient.next_client m))
  /\ UserClient.get_client env' user (snd r) = (Ret (Some (UserClient.next_client m)), snd r)
  /\ UserClient.next_client (snd r) = S (UserClient.next_client m)
  /\ UserClient.db (snd r) = UserClient.db m.
Proof.
  intros r A U Act Sn F St. subst r.
  rewrite get_client_uncached by (intros c H; congruence).
  rewrite restore_client_cases, get_user_session_cases, F, U, Act, St. cbn [fst].
  destruct (Database.session_string doc) as [|a l]; [contradiction|]. cbn [fst snd].
  split; [reflexivity|]. split; [|split; reflexivity].
  apply get_client_cached.
  - apply lookup_insert_eq.
  - cbn. apply elem_of_union_l, elem_of_singleton. reflexivity.
Qed.

Lemma stored_session_is_restored_once_witness :
  let r := UserClient.get_client Samples.calm 7 Samples.stored_session in
  fst r = Ret (Some 0%nat)
  /\ UserClient.get_client Samples.dead_session 7 (snd r) = (Ret (Some 0%nat), snd r).
Proof.
  destruct (stored_session_is_restored_once Samples.calm Samples.dead_session 7
              Samples.stored_session
              {| Database.phone_number := chars "+111";
                 Database.session_string := chars "session";
                 Database.is_active := true |}
              eq_refl eq_refl eq_refl ltac:(discriminate) eq_refl eq_refl)
    as (H1 & H2 & _).
  split; [exact H1 | exact H2].
Defined.

(** X16.  A logout that goes through ends the session for good.  When
    the user's live client, if there is one, stops and the write of the
    deletion succeeds, [logout] reports success, and from then on
    [get_client] returns nothing, whatever the outside answers: the
    handle is forgotten and the stored session, though still in the
    collection, is no longer active. *)
Theorem logout_ends_the_session
    (env env' : Env) (user : Z) (m : UserClient.UserClientManager) :
  let r := UserClient.logout env user m in
  UserClient.active_clients m !! user = None \/ stop env = None ->
  users_update_one env = None ->
  fst r = Ret (UserClient.ok None (chars "Logged out successfully."))
  /\ UserClient.get_client env' user (snd r) = (Ret None, snd r)
  /\ UserClient.active_clients (snd r) !! user = None
  /\ Database.users (UserClient.db (snd r)) !! user
     = Database.deactivate <$> Database.users (UserClient.db m) !! user.
Proof.
  intros r H W. subst r. rewrite logout_cases, delete_user_session_cases, W.
  assert (G : forall m' : UserClient.UserClientManager,
             UserClient.active_clients m' !! user = None ->
             UserClient.db m'
             = Database.set_users (alter Database.deactivate user) (UserClient.db m) ->
             UserClient.get_client env' user m' = (Ret None, m')).
  { intros m' A D. rewrite get_client_uncached by (intros c Hc; congruence).
    rewrite restore_client_cases, get_user_session_cases, D. cbn.
    rewrite lookup_alter_eq.
    destruct (users_find_one env'); [reflexivity|].
    now destruct (Database.users (UserClient.db m) !! user). }
  destruct (UserClient.active_clients m !! user) as [c|] eqn:A.
  - destruct H as [H|H]; [discriminate|]. rewrite H. cbn [fst snd].
    split; [reflexivity|]. split; [apply G; [apply lookup_delete_eq|reflexivity]|].
    split; [apply lookup_delete_eq|]. cbn. apply lookup_alter_eq.
  - destruct (stop env); cbn [fst snd];
      (split; [reflexivity|]; split; [apply G; [exact A|reflexivity]|];
       split; [exact A|]; cbn; apply lookup_alter_eq).
Qed.

Lemma logout_ends_the_session_witness :
  let r := UserClient.logout Samples.calm 7 Samples.stored_session in
  fst r = Ret (UserClient.ok None (chars "Logged out successfully."))
  /\ UserClient.get_client Samples.calm 7 (snd r) = (Ret None, snd r).
Proof.
  destruct (logout_ends_the_session Samples.calm Samples.calm 7 Samples.stored_session
              (or_introl eq_refl) eq_refl) as (H1 & H2 & _).
  split; [exact H1 | exact H2].
Defined.

(** X17.  When the user's live client fails to stop, [logout] gives up
    at once: it reports the failure with the text of the exception and
    changes nothing.  The user is still logged in: the session is still
    stored, and [get_client] still returns the handle, when it is
    connected, whatever the outside answers. *)
Theorem failed_stop_leaves_the_user_logged_in
    (env env' : Env) (user : Z) (m : UserClient.UserClientManager)
    (c : UserClient.Handle) (e : Exn) :
  let r := UserClient.logout env user m in
  UserClient.active_clients m !! user = Some c ->
  c ∈ UserClient.connected m ->
  stop env = Some e ->
  r = (Ret (UserClient.failure (text e)), m)
  /\ UserClient.get_client env' user (snd r) = (Ret (Some c), snd r).
Proof.
  intros r A C S. subst r. rewrite logout_cases, A, S. split; [reflexivity|].
  now apply get_client_cached.
Qed.

Lemma failed_stop_leaves_the_user_logged_in_witness :
  let m := Bot.user_manager (Samples.logged_in None) in
  UserClient.logout Samples.stuck_client 7 m
  = (Ret (UserClient.failure (chars "already terminated")), m)
  /\ UserClient.get_client Samples.calm 7
       (snd (UserClient.logout Samples.stuck_client 7 m))
     = (Ret (Some 0%nat), snd (UserClient.logout Samples.stuck_client 7 m)).
Proof.
  apply (failed_stop_leaves_the_user_logged_in Samples.stuck_client Samples.calm 7
           (Bot.user_manager (Samples.logged_in None)) 0%nat
           (Samples.error_of OtherError "already terminated")).
  - reflexivity.
  - vm_compute. reflexivity.
  - reflexivity.
Defined.

(** X18.  [logout] does not look at what the deletion of the stored
    session returns.  When that write fails, for a user whose session
    is stored, active and not empty, [logout] still reports success and
    the stored sessions are as they were; the next [get_client] then
    restores the session, when its read and the start succeed, and the
    user is logged in again. *)
Theorem logout_reports_success_when_the_deletion_fails
    (env env' : Env) (user : Z) (m : UserClient.UserClientManager)
    (doc : Database.UserDoc) (e : Exn) :
  let r := UserClient.logout env user m in
  UserClient.active_clients m !! user = None \/ stop env = None ->
  users_update_one env = Some e ->
  Database.users (UserClient.db m) !! user = Some doc ->
  Database.is_active doc = true ->
  Database.session_string doc <> [] ->
  users_find_one env' = None ->
  start env' = None ->
  fst r = Ret (UserClient.ok None (chars "Logged out successfully."))
  /\ UserClient.db (snd r) = UserClient.db m
  /\ fst (UserClient.get_client env' user (snd r))
     = Ret (Some (UserClient.next_client m)).
Proof.
  intros r H W U Act Sn F St. subst r.
  rewrite logout_cases, delete_user_session_cases, W.
  assert (G : forall m' : UserClient.UserClientManager,
             UserClient.active_clients m' !! user = None ->
             UserClient.db m' = UserClient.db m ->
             UserClient.next_client m' = UserClient.next_client m ->
             fst (UserClient.get_client env' user m')
             = Ret (Some (UserClient.next_client m))).
  { intros m' A D N. rewrite get_client_uncached by (intros c Hc; congruence).
    rewrite restore_client_cases, get_user_session_cases, D, F, U, Act, St, N. cbn [fst].
    destruct (Database.session_string doc); [contradiction|reflexivity]. }
  destruct (UserClient.active_clients m !! user) as [c|] eqn:A.
  - destruct H as [H|H]; [discriminate|]. rewrite H. cbn [fst snd].
    split; [reflexivity|]. split; [reflexivity|].
    apply G; [apply lookup_delete_eq|reflexivity|reflexivity].
  - destruct (stop env); cbn [fst snd];
      (split; [reflexivity|]; split; [reflexivity|]; apply G; [exact A|reflexivity|reflexivity]).
Qed.

Lemma logout_reports_success_when_the_deletion_fails_witness :
  let r := UserClient.logout Samples.storage_down 7 Samples.stored_session in
  fst r = Ret (UserClient.ok None (chars "Logged out successfully."))
  /\ fst (UserClient.get_client Samples.calm 7 (snd r)) = Ret (Some 0%nat).
Proof.
  destruct (logout_reports_success_when_the_deletion_fails Samples.storage_down
              Samples.calm 7 Samples.stored_session
              {| Database.phone_number := chars "+111";
                 Database.session_string := chars "session";
                 Database.is_active := true |}
              (Samples.error_of OtherError "connection refused")
              (or_introl eq_refl) eq_refl eq_refl eq_refl ltac:(discriminate)
              eq_refl eq_refl) as (H1 & _ & H3).
  split; [exact H1 | exact H3].
Defined.

Section Attempt.
Import UserClient.

Ltac run_monad :=
  unfold with_db in *;
  repeat (progress
            (unfold bind, ret, raise, try_except, gets, modify, on, await,
               await_value in *)).

(** What [verify_otp] does with a code the platform refuses. *)
Lemma verify_otp_refused env user code m login_data e :
  pending_logins m !! user = Some login_data ->
  sign_in env = Some e ->
  verify_otp env user code m
  = match kind e with
    | SessionPasswordNeeded =>
        (Ret (ok (Some (chars "2fa"))
                (chars "Two-factor authentication is enabled. Please enter your 2FA password.")),
         set_pending_logins (alter (set_step (chars "2fa")) user) m)
    | PhoneCodeInvalid => (Ret (failure (chars "Invalid OTP code. Please try again.")), m)
    | PhoneCodeExpired =>
        (Ret (failure (chars "OTP code expired. Please start login again with /login.")),
         set_pending_logins (delete user) m)
    | _ => (Ret (failure (text e)), m)
    end.
Proof.
  intros P S. unfold verify_otp. run_monad. rewrite P, S. cbn beta iota.
  now destruct (kind e).
Qed.

Lemma cancel_login_cases env user m login_data :
  pending_logins m !! user = Some login_data ->
  cancel_login env user m
  = match disconnect env with
    | None =>
        (Ret tt,
         set_pending_logins (delete user)
           (set_connected (fun cs => cs ∖ {[client login_data]}) m))
    | Some e => (Raises e, m)
    end.
Proof.
  intros P. unfold cancel_login, client_disconnect. run_monad. rewrite P.
  now destruct (disconnect env).
Qed.

End Attempt.

(** X19.  A wrong code can be tried again, an expired one cannot.  For
    a user with a login in flight, a code the platform refuses as
    invalid is answered with that failure and leaves the manager as it
    is, the record in flight included; a code refused as expired is
    answered with its own failure and the record is removed, so that
    the next code is answered with the absence of a pending login.  The
    connection of the attempt is not closed in either case. *)
Theorem wrong_code_keeps_the_attempt_expired_code_drops_it
    (env env' : Env) (user : Z) (code code' : str)
    (m : UserClient.UserClientManager)
    (login_data : UserClient.PendingLogin) (e : Exn) :
  let r := UserClient.verify_otp env user code m in
  UserClient.pending_logins m !! user = Some login_data ->
  sign_in env = Some e ->
  match kind e with
  | PhoneCodeInvalid =>
      r = (Ret (UserClient.failure (chars "Invalid OTP code. Please try again.")), m)
  | PhoneCodeExpired =>
      fst r = Ret (UserClient.failure
                     (chars "OTP code expired. Please start login again with /login."))
      /\ UserClient.pending_logins (snd r) !! user = None
      /\ UserClient.connected (snd r) = UserClient.connected m
      /\ UserClient.verify_otp env' user code' (snd r)
         = (Ret (UserClient.failure
                   (chars "No pending login found. Please start with /login first.")),
            snd r)
  | _ => True
  end.
Proof.
  intros r P S. subst r. rewrite (verify_otp_refused _ _ _ _ _ _ P S).
  destruct (kind e); try exact I; [reflexivity|]. cbn [fst snd].
  split; [reflexivity|]. split; [apply lookup_delete_eq|]. split; [reflexivity|].
  unfold UserClient.verify_otp, bind, gets, ret. cbn.
  now rewrite lookup_delete_eq.
Qed.

Lemma wrong_code_keeps_the_attempt_expired_code_drops_it_witness :
  UserClient.verify_otp Samples.wrong_code 7 (chars "00000") Samples.in_flight
  = (Ret (UserClient.failure (chars "Invalid OTP code. Please try again.")),
     Samples.in_flight).
Proof.
  apply (wrong_code_keeps_the_attempt_expired_code_drops_it Samples.wrong_code
           Samples.calm 7 (chars "00000") (chars "00000") Samples.in_flight
           Samples.first_attempt (Samples.error_of PhoneCodeInvalid "PHONE_CODE_INVALID"));
    reflexivity.
Defined.

(** X20.  Cancelling a login in flight closes its connection and then
    removes its record; it touches nothing else.  When the connection
    fails to close, the exception leaves [cancel_login] and the record
    is still there. *)
Theorem cancel_login_closes_then_forgets
    (env : Env) (user : Z) (m : UserClient.UserClientManager)
    (login_data : UserClient.PendingLogin) :
  let r := UserClient.cancel_login env user m in
  UserClient.pending_logins m !! user = Some login_data ->
  match disconnect env with
  | None =>
      fst r = Ret tt
      /\ UserClient.pending_logins (snd r) = delete user (UserClient.pending_logins m)
      /\ UserClient.connected (snd r)
         = UserClient.connected m ∖ {[UserClient.client login_data]}
      /\ UserClient.active_clients (snd r) = UserClient.active_clients m
      /\ UserClient.db (snd r) = UserClient.db m
  | Some e => r = (Raises e, m)
  end.
Proof.
  intros r P. subst r. rewrite (cancel_login_cases _ _ _ _ P).
  destruct (disconnect env); [reflexivity|]. cbn. auto.
Qed.

Lemma cancel_login_closes_then_forgets_witness :
  let r := UserClient.cancel_login Samples.calm 7 Samples.in_flight in
  fst r = Ret tt
  /\ UserClient.pending_logins (snd r) = delete 7 (UserClient.pending_logins Samples.in_flight)
  /\ UserClient.connected (snd r) = UserClient.connected Samples.in_flight ∖ {[0%nat]}.
Proof.
  destruct (cancel_login_closes_then_forgets Samples.calm 7 Samples.in_flight
              Samples.first_attempt eq_refl) as (H1 & H2 & H3 & _).
  split; [exact H1|]. split; [exact H2 | exact H3].
Defined.

(** ** Links of the recognized forms *)

Section Numbers.
Import Link.

Lemma digits_value_decimal l : forall acc,
  forallb is_digit l = true ->
  digits_value acc false l = Some (fold_left (fun a c => a * 10 + digit_val c) l acc).
Proof.
  induction l as [|c l IH]; intros acc; simpl; [reflexivity|].
  rewrite andb_true_iff. intros [H1 H2]. rewrite H1. now apply IH.
Qed.

Lemma digit_is_not (x c : ascii) : is_digit x = false -> is_digit c = true -> is_char x c = false.
Proof.
  intros Hx Hc. destruct (is_char x c) eqn:E; [|reflexivity].
  apply is_char_true in E. congruence.
Qed.

(** [int] of a string of digits, signed or not, is the number written. *)
Lemma py_int_decimal l : digit_string l -> py_int l = Some (decimal l).
Proof.
  intros [Hne H]. unfold py_int. rewrite strip_no_space by now apply digits_no_space.
  destruct l as [|c l]; [congruence|].
  pose proof H as H'. simpl in H'. apply andb_true_iff in H' as [Hc _].
  rewrite !(digit_is_not _ c) by (reflexivity || assumption).
  unfold unsigned_value. rewrite Hc. now apply digits_value_decimal.
Qed.

Lemma py_int_minus_decimal l :
  digit_string l -> py_int ("-"%char :: l) = Some (- decimal l).
Proof.
  intros [Hne H]. unfold py_int. rewrite strip_no_space.
  - rewrite is_char_refl. destruct l as [|c l]; [congruence|].
    pose proof H as H'. simpl in H'. apply andb_true_iff in H' as [Hc _].
    unfold unsigned_value. rewrite Hc, digits_value_decimal by assumption. reflexivity.
  - simpl. now apply digits_no_space.
Qed.

Lemma fold_decimal_shift l : forall acc,
  fold_left (fun a c => a * 10 + digit_val c) l acc
  = acc * 10 ^ Z.of_nat (length l) + decimal l.
Proof.
  unfold decimal. induction l as [|c l IH]; intros acc.
  - simpl. lia.
  - cbn [fold_left length]. rewrite IH, (IH (0 * 10 + digit_val c)).
    rewrite Nat2Z.inj_succ, Z.pow_succ_r by lia. lia.
Qed.

(** The channel id of a private link: ["-100"] put before the digits
    of the link, read as a number. *)
Lemma decimal_prefixed c :
  decimal ("1"%char :: "0"%char :: "0"%char :: c)
  = 100 * 10 ^ Z.of_nat (length c) + decimal c.
Proof. unfold decimal at 1. cbn [fold_left]. now rewrite fold_decimal_shift. Qed.

End Numbers.

Section Spaces.

Lemma lstrip_spaces l : forallb is_space l = true -> lstrip l = [].
Proof.
  induction l as [|c l IH]; simpl; [reflexivity|].
  rewrite andb_true_iff. intros [-> H]. auto.
Qed.

Lemma lstrip_app_spaces pre l : forallb is_space pre = true -> lstrip (pre ++ l) = lstrip l.
Proof.
  induction pre as [|c pre IH]; simpl; [reflexivity|].
  rewrite andb_true_iff. intros [-> H]. auto.
Qed.

Lemma forallb_rev {A} (f : A -> bool) l : forallb f (rev l) = forallb f l.
Proof.
  induction l as [|x l IH]; simpl; [reflexivity|].
  rewrite forallb_app, IH. simpl. rewrite andb_true_r. apply andb_comm.
Qed.

Lemma rstrip_app_spaces l post : forallb is_space post = true -> rstrip (l ++ post) = rstrip l.
Proof.
  intros H. unfold rstrip. rewrite rev_app_distr, lstrip_app_spaces; [reflexivity|].
  now rewrite forallb_rev.
Qed.

(** White space around a string is what [strip] removes. *)
Lemma strip_around pre l post :
  forallb is_space pre = true -> forallb is_space post = true ->
  strip (pre ++ l ++ post) = strip l.
Proof.
  intros Hpre Hpost. unfold strip. rewrite lstrip_app_spaces by assumption.
  induction l as [|c l IH]; simpl.
  - now rewrite lstrip_spaces.
  - destruct (is_space c); [exact IH|].
    change (c :: l ++ post) with ((c :: l) ++ post). now apply rstrip_app_spaces.
Qed.

End Spaces.

Section Greedy.
Import Link.

Local Abbreviation digits := (one_or_more is_digit).

(** A greedy repetition takes the whole run when the rest of the
    pattern matches behind it. *)
Lemma rep_whole_run {R} p (d rest : str) (k : str -> option R) v : forall lo,
  forallb p d = true -> (lo <= length d)%nat -> stops p rest ->
  k rest = Some v ->
  rep p lo None (d ++ rest) k = Some v.
Proof.
  induction d as [|c d IH]; intros lo Hd Hlo Hrest Hk.
  - simpl in Hlo. assert (lo = 0%nat) as -> by lia. simpl.
    destruct rest as [|x rest]; simpl; [exact Hk|].
    simpl in Hrest. now rewrite Hrest.
  - simpl in Hd. apply andb_true_iff in Hd as [Hc Hd].
    cbn [app rep]. rewrite Hc. cbn [andb may_take dec_hi fmap option_fmap option_map].
    rewrite (IH (Nat.pred lo)); [reflexivity|assumption| |assumption|assumption].
    simpl in Hlo. lia.
Qed.

Lemma exec_digits {R} d rest caps (k : str -> list str -> option R) v :
  digit_string d -> stops is_digit rest ->
  k rest (caps ++ [d]) = Some v ->
  exec (Group digits) (d ++ rest) caps k = Some v.
Proof.
  intros [Hne Hd] Hrest Hk. cbn [exec one_or_more].
  apply rep_whole_run; auto.
  - destruct d; [congruence|simpl; lia].
  - now rewrite consumed_app.
Qed.

(** A greedy bounded repetition gives back its last character when
    the rest of the pattern needs it. *)
Lemma rep_gives_back {R} p (w : str) z (rest : str) (k : str -> option R) v :
  forall lo hi,
  forallb p w = true -> (lo <= length w <= hi)%nat ->
  stops p rest -> k rest = None ->
  k (z :: rest) = Some v ->
  rep p lo (Some hi) (w ++ z :: rest) k = Some v.
Proof.
  induction w as [|c w IH]; intros lo hi Hw Hlen Hrest Hnone Hk.
  - simpl in Hlen. assert (lo = 0%nat) as -> by lia. cbn [app rep].
    destruct (p z && may_take (Some hi)); [|exact Hk].
    assert (E : rep p (Nat.pred 0) (dec_hi (Some hi)) rest k = None).
    { destruct rest as [|x rest]; simpl; [exact Hnone|].
      simpl in Hrest. now rewrite Hrest. }
    rewrite E. exact Hk.
  - simpl in Hw. apply andb_true_iff in Hw as [Hc Hw].
    cbn [app rep]. rewrite Hc.
    destruct hi as [|hi]; [simpl in Hlen; lia|].
    cbn [andb may_take dec_hi fmap option_fmap option_map Nat.pred].
    rewrite (IH (Nat.pred lo) hi); [reflexivity|assumption| |assumption|assumption|assumption].
    simpl in Hlen. lia.
Qed.

End Greedy.

Section Forms.
Import Link.

Local Abbreviation digits := (one_or_more is_digit).

Lemma exec_cat {R} r1 r2 l caps (k : str -> list str -> option R) :
  exec (Cat r1 r2) l caps k = exec r1 l caps (fun rest caps' => exec r2 rest caps' k).
Proof. reflexivity. Qed.

Lemma exec_lit {R} s l caps (k : str -> list str -> option R) :
  exec (lit s) (s ++ l) caps k = k l caps.
Proof.
  induction s as [|c s IH]; [reflexivity|].
  cbn [lit app]. rewrite exec_cat. cbn [exec]. now rewrite is_char_refl.
Qed.

Lemma exec_char {R} c l caps (k : str -> list str -> option R) :
  exec (Lit c) (c :: l) caps k = k l caps.
Proof. cbn [exec]. now rewrite is_char_refl. Qed.

(** The optional scheme before the host. *)
Lemma exec_scheme {R} sch l caps (k : str -> list str -> option R) v :
  In sch schemes -> k ("t"%char :: l) caps = Some v ->
  exec scheme (sch ++ "t"%char :: l) caps k = Some v.
Proof.
  intros H Hk. unfold schemes in H. simpl in H.
  destruct H as [<-|[<-|[<-|[]]]]; unfold scheme, chars; cbn; now rewrite Hk.
Qed.

Lemma re_match_private sch c m rest :
  In sch schemes -> digit_string c -> digit_string m -> stops is_digit rest ->
  re_match private_re (sch ++ chars "t.me/c/" ++ c ++ "/"%char :: m ++ rest)
  = Some [c; m].
Proof.
  intros Hs Hc Hm Hr. unfold re_match, private_re. rewrite exec_cat.
  apply exec_scheme with (l := chars ".me/c/" ++ c ++ "/"%char :: m ++ rest); [exact Hs|].
  change ("t"%char :: chars ".me/c/" ++ c ++ "/"%char :: m ++ rest)
    with (chars "t.me/c/" ++ c ++ "/"%char :: m ++ rest).
  rewrite exec_cat, exec_lit, exec_cat.
  apply exec_digits; [exact Hc|reflexivity|].
  rewrite exec_cat, exec_char. now apply exec_digits.
Qed.

(** What begins with neither the scheme nor the host is no link of the
    first two forms; what does not begin with [@] is none of the third. *)
Lemma re_match_no_host x l :
  is_char "h" x = false -> is_char "t" x = false ->
  re_match private_re (x :: l) = None /\ re_match public_re (x :: l) = None.
Proof.
  intros H T. unfold re_match, private_re, public_re, scheme, chars.
  cbn. now rewrite H, T.
Qed.

Lemma re_match_no_at x l : is_char "@" x = false -> re_match at_re (x :: l) = None.
Proof. intros H. unfold re_match, at_re. cbn. now rewrite H. Qed.

Lemma re_match_id (sign : bool) c m rest :
  digit_string c -> digit_string m -> stops is_digit rest ->
  re_match id_re ((if sign then ["-"%char] else []) ++ c ++ "/"%char :: m ++ rest)
  = Some [(if sign then ["-"%char] else []) ++ c; m].
Proof.
  intros Hc Hm Hr. unfold re_match, id_re. rewrite exec_cat.
  set (K := fun (rest0 : str) (caps' : list str) =>
              exec (Cat (Lit "/") (Group digits)) rest0 caps'
                (fun (_ : str) (caps : list str) => Some caps)).
  assert (E : forall l0 : str,
             rep is_digit 1 None (c ++ "/"%char :: m ++ rest)
               (fun rest0 => K rest0 ([] ++ [consumed (l0 ++ c ++ "/"%char :: m ++ rest) rest0]))
             = Some [l0 ++ c; m]).
  { intros l0. destruct Hc as [Hne Hd]. apply rep_whole_run; auto.
    - destruct c; [congruence|simpl; lia].
    - reflexivity.
    - rewrite app_assoc, consumed_app. unfold K. rewrite exec_cat, exec_char.
      now apply exec_digits. }
  cbn [exec one_or_more]. destruct sign.
  - cbn [app]. rewrite is_char_refl. pose proof (E ["-"%char]) as E1.
    cbn [app] in E1. rewrite E1. reflexivity.
  - destruct c as [|c0 c'] eqn:Ec; [destruct Hc; congruence|].
    cbn [app]. assert (is_char "-" c0 = false) as ->.
    { destruct Hc as [_ Hd]. simpl in Hd. apply andb_true_iff in Hd as [Hd _].
      now apply digit_is_not. }
    cbn [or_else]. pose proof (E []) as E1. cbn [app] in E1. rewrite <- Ec in *.
    exact E1.
Qed.

Lemma word_is_no_slash c : is_word c = true -> is_char "/" c = false.
Proof.
  intros H. destruct (is_char "/" c) eqn:E; [|reflexivity].
  apply is_char_true in E. subst c. discriminate H.
Qed.

Lemma exec_username {R} name tail caps (k : str -> list str -> option R) v :
  username_form name ->
  k ("/"%char :: tail) (caps ++ [name]) = Some v ->
  exec (Group username) (name ++ "/"%char :: tail) caps k = Some v.
Proof.
  intros (a & w & z & -> & Ha & Hw & Hz & Hlen) Hk.
  cbn [exec username app]. rewrite Ha. rewrite <- app_assoc. cbn [app].
  apply rep_gives_back; auto.
  - reflexivity.
  - cbn [exec]. rewrite Hz.
    replace (a :: w ++ z :: "/"%char :: tail) with ((a :: w ++ [z]) ++ "/"%char :: tail)
      by (cbn [app]; now rewrite <- app_assoc).
    now rewrite consumed_app.
Qed.

(** A link to a user name is no link to a private channel. *)
Lemma re_match_private_public sch name tail :
  In sch schemes -> username_form name ->
  re_match private_re (sch ++ chars "t.me/" ++ name ++ tail) = None.
Proof.
  intros Hs (a & w & z & -> & Ha & Hw & Hz & Hlen).
  destruct w as [|w0 w]; [simpl in Hlen; lia|].
  simpl in Hw. apply andb_true_iff in Hw as [Hw0 _].
  pose proof (word_is_no_slash _ Hw0) as N.
  unfold schemes in Hs. simpl in Hs.
  destruct Hs as [<-|[<-|[<-|[]]]]; unfold re_match, private_re, scheme, chars;
    cbn; destruct (is_char "c" a); rewrite ?N; reflexivity.
Qed.

Lemma re_match_public sch name m rest :
  In sch schemes -> username_form name -> digit_string m -> stops is_digit rest ->
  re_match public_re (sch ++ chars "t.me/" ++ name ++ "/"%char :: m ++ rest)
  = Some [name; m].
Proof.
  intros Hs Hn Hm Hr. unfold re_match, public_re. rewrite exec_cat.
  apply exec_scheme with (l := chars ".me/" ++ name ++ "/"%char :: m ++ rest); [exact Hs|].
  change ("t"%char :: chars ".me/" ++ name ++ "/"%char :: m ++ rest)
    with (chars "t.me/" ++ name ++ "/"%char :: m ++ rest).
  rewrite exec_cat, exec_lit, exec_cat.
  apply exec_username; [exact Hn|].
  rewrite exec_cat, exec_char. now apply exec_digits.
Qed.

Lemma re_match_at name m rest :
  username_form name -> digit_string m -> stops is_digit rest ->
  re_match at_re ("@"%char :: name ++ "/"%char :: m ++ rest) = Some [name; m].
Proof.
  intros Hn Hm Hr. unfold re_match, at_re. rewrite exec_cat, exec_char, exec_cat.
  apply exec_username; [exact Hn|].
  rewrite exec_cat, exec_char. now apply exec_digits.
Qed.

End Forms.

Section WholeLinks.
Import Link.

Lemma word_not_space c : is_word c = true -> is_space c = false.
Proof.
  destruct c as [[] [] [] [] [] [] [] []]; vm_compute; intros; congruence.
Qed.

Lemma alpha_is_word c : is_alpha c = true -> is_word c = true.
Proof. unfold is_word, is_alnum. now intros ->. Qed.

Lemma alnum_is_word c : is_alnum c = true -> is_word c = true.
Proof. unfold is_word. now intros ->. Qed.

Lemma no_space_app a b : no_space (a ++ b) = no_space a && no_space b.
Proof. apply forallb_app. Qed.

Lemma words_no_space l : forallb is_word l = true -> no_space l = true.
Proof.
  unfold no_space. induction l as [|c l IH]; simpl; [reflexivity|].
  rewrite andb_true_iff. intros [H1 H2]. now rewrite (word_not_space c H1), IH.
Qed.

Lemma username_no_space name : username_form name -> no_space name = true.
Proof.
  intros (a & w & z & -> & Ha & Hw & Hz & _). apply words_no_space.
  cbn [forallb]. rewrite forallb_app, (alpha_is_word _ Ha), Hw. cbn.
  now rewrite (alnum_is_word _ Hz).
Qed.

Lemma no_space_cons c l : no_space (c :: l) = negb (is_space c) && no_space l.
Proof. reflexivity. Qed.

Lemma scheme_no_space sch : In sch schemes -> no_space sch = true.
Proof.
  unfold schemes. simpl. intros [<-|[<-|[<-|[]]]]; reflexivity.
Qed.

Lemma digit_string_head c :
  digit_string c -> exists c0 c', c = c0 :: c' /\ is_digit c0 = true.
Proof.
  intros [Hne Hd]. destruct c as [|c0 c']; [congruence|].
  simpl in Hd. apply andb_true_iff in Hd as [Hd _]. eauto.
Qed.

(** A greedy repetition fails when the rest of the pattern fails
    behind every run. *)
Lemma rep_fails {R} p (k : str -> option R) l : forall lo hi,
  (forall pre suf, l = pre ++ suf -> k suf = None) ->
  rep p lo hi l k = None.
Proof.
  induction l as [|c l IH]; intros lo hi H.
  - cbn [rep]. destruct lo; [apply (H [] []); reflexivity|reflexivity].
  - cbn [rep].
    assert (E : match lo with O => k (c :: l) | S _ => None end = None).
    { destruct lo; [apply (H [] (c :: l)); reflexivity|reflexivity]. }
    rewrite E. destruct (p c && may_take hi); [|reflexivity].
    rewrite IH; [reflexivity|]. intros pre suf ->. apply (H (c :: pre)). reflexivity.
Qed.

(** A string of digits is no link of the first four forms. *)
Lemma digits_are_no_link c :
  digit_string c ->
  re_match private_re c = None /\ re_match public_re c = None
  /\ re_match at_re c = None /\ re_match id_re c = None.
Proof.
  intros Hc. destruct (digit_string_head c Hc) as (c0 & c' & E & H0).
  destruct Hc as [_ Hd]. rewrite E in *.
  destruct (re_match_no_host c0 c') as [-> ->]; try now apply digit_is_not.
  rewrite re_match_no_at by now apply digit_is_not.
  repeat split. unfold re_match, id_re. rewrite exec_cat. cbn [exec one_or_more].
  rewrite (digit_is_not "-" c0) by (reflexivity || assumption). cbn [or_else].
  apply rep_fails. intros pre suf Es.
  destruct suf as [|x suf]; [reflexivity|].
  assert (Hx : is_digit x = true).
  { rewrite Es, forallb_app in Hd. apply andb_true_iff in Hd as [_ Hd].
    simpl in Hd. now apply andb_true_iff in Hd as [Hd _]. }
  cbn [exec]. now rewrite (digit_is_not "/" x).
Qed.

Lemma private_no_space sch c m :
  In sch schemes -> digit_string c -> digit_string m ->
  no_space (sch ++ chars "t.me/c/" ++ c ++ "/"%char :: m) = true.
Proof.
  intros Hs [_ Hc] [_ Hm].
  rewrite !no_space_app, no_space_cons, (scheme_no_space _ Hs),
    (digits_no_space c Hc), (digits_no_space m Hm). reflexivity.
Qed.

Lemma pair_no_space pre c m :
  no_space pre = true -> no_space c = true -> digit_string m ->
  no_space (pre ++ c ++ "/"%char :: m) = true.
Proof.
  intros Hp Hc [_ Hm].
  rewrite !no_space_app, no_space_cons, Hp, Hc, (digits_no_space m Hm). reflexivity.
Qed.

(** A private link, with or without a scheme. *)
Lemma parse_private_link sch c m :
  In sch schemes -> digit_string c -> digit_string m ->
  parse_telegram_link (sch ++ chars "t.me/c/" ++ c ++ "/"%char :: m)
  = Returns (Some (ChanId (- (100 * 10 ^ Z.of_nat (length c) + decimal c))))
      (Some (decimal m)).
Proof.
  intros Hs Hc Hm. unfold parse_telegram_link.
  rewrite strip_no_space by now apply private_no_space.
  pose proof (re_match_private sch c m [] Hs Hc Hm I) as E.
  rewrite app_nil_r in E. rewrite E. unfold group. cbn [nth Nat.pred].
  unfold with_int.
  change (chars "-100" ++ c) with ("-"%char :: "1"%char :: "0"%char :: "0"%char :: c).
  rewrite py_int_minus_decimal, decimal_prefixed, (py_int_decimal m Hm); [reflexivity|].
  split; [discriminate|]. exact (proj2 Hc).
Qed.

(** A number alone. *)
Lemma parse_bare_number c :
  digit_string c -> parse_telegram_link c = Returns None (Some (decimal c)).
Proof.
  intros Hc. unfold parse_telegram_link.
  rewrite strip_no_space by exact (digits_no_space c (proj2 Hc)).
  destruct (digits_are_no_link c Hc) as (-> & -> & -> & ->).
  now rewrite (py_int_decimal c Hc).
Qed.

End WholeLinks.

(** X21.  White space around a link does not count: with any white
    space before and after it, a string is parsed as without. *)
Theorem surrounding_white_space_is_ignored (before link after : str) :
  forallb is_space before = true -> forallb is_space after = true ->
  Link.parse_telegram_link (before ++ link ++ after) = Link.parse_telegram_link link.
Proof.
  intros Hb Ha. unfold Link.parse_telegram_link. now rewrite strip_around.
Qed.

Lemma surrounding_white_space_is_ignored_witness :
  Link.parse_telegram_link
    ([" "%char; "009"%char] ++ chars "t.me/c/12/34" ++ ["010"%char])
  = Link.parse_telegram_link (chars "t.me/c/12/34").
Proof.
  apply (surrounding_white_space_is_ignored [" "%char; "009"%char]
           (chars "t.me/c/12/34") ["010"%char]); reflexivity.
Defined.

(** X22.  A link made of numbers is parsed to the numbers it writes.
    For strings of digits [c] and [m]: a private link
    [t.me/c/<c>/<m>], with or without a scheme, gives the channel whose
    id is written ["-100"] followed by [c] — the digits of [c] as they
    stand, leading zeros included — and the message [m]; a pair
    [<c>/<m>] or [-<c>/<m>] gives the channel [c] or [-c]; and [c] alone
    gives no channel and the message [c]. *)
Theorem numeric_links_parse_to_their_numbers (sch c m : str) :
  In sch Link.schemes -> Link.digit_string c -> Link.digit_string m ->
  Link.parse_telegram_link (sch ++ chars "t.me/c/" ++ c ++ chars "/" ++ m)
  = Link.Returns
      (Some (Link.ChanId (- (100 * 10 ^ Z.of_nat (length c) + Link.decimal c))))
      (Some (Link.decimal m))
  /\ Link.parse_telegram_link (c ++ chars "/" ++ m)
     = Link.Returns (Some (Link.ChanId (Link.decimal c))) (Some (Link.decimal m))
  /\ Link.parse_telegram_link (chars "-" ++ c ++ chars "/" ++ m)
     = Link.Returns (Some (Link.ChanId (- Link.decimal c))) (Some (Link.decimal m))
  /\ Link.parse_telegram_link c = Link.Returns None (Some (Link.decimal c)).
Proof.
  intros Hs Hc Hm.
  pose proof (digits_no_space c (proj2 Hc)) as Nc.
  pose proof (digits_no_space m (proj2 Hm)) as Nm.
  change (chars "/" ++ m) with ("/"%char :: m).
  split; [now apply parse_private_link|].
  split; [|split; [|now apply parse_bare_number]]; unfold Link.parse_telegram_link.
  - rewrite strip_no_space by now apply (pair_no_space [] c m).
    destruct (digit_string_head c Hc) as (c0 & c' & E0 & H0).
    assert (X : Link.re_match Link.private_re (c ++ "/"%char :: m) = None
                /\ Link.re_match Link.public_re (c ++ "/"%char :: m) = None
                /\ Link.re_match Link.at_re (c ++ "/"%char :: m) = None).
    { rewrite E0. cbn [app].
      destruct (re_match_no_host c0 (c' ++ "/"%char :: m)) as [-> ->];
        try now apply digit_is_not.
      rewrite re_match_no_at by now apply digit_is_not. auto. }
    destruct X as (-> & -> & ->).
    pose proof (re_match_id false c m [] Hc Hm I) as E.
    rewrite app_nil_r in E. cbn [app] in E. rewrite E.
    unfold Link.group. cbn [nth Nat.pred]. unfold Link.with_int.
    now rewrite (py_int_decimal c Hc), (py_int_decimal m Hm).
  - change (chars "-" ++ c ++ "/"%char :: m) with ("-"%char :: c ++ "/"%char :: m).
    rewrite strip_no_space by now apply (pair_no_space ["-"%char] c m).
    destruct (re_match_no_host "-" (c ++ "/"%char :: m)) as [-> ->]; try reflexivity.
    rewrite re_match_no_at by reflexivity.
    pose proof (re_match_id true c m [] Hc Hm I) as E.
    rewrite app_nil_r in E. cbn [app] in E. rewrite E.
    unfold Link.group. cbn [nth Nat.pred]. unfold Link.with_int.
    now rewrite (py_int_minus_decimal c Hc), (py_int_decimal m Hm).
Qed.

Lemma numeric_links_parse_to_their_numbers_witness :
  Link.parse_telegram_link (chars "https://" ++ chars "t.me/c/" ++ chars "007" ++ chars "/" ++ chars "15")
  = Link.Returns (Some (Link.ChanId (-100007))) (Some 15)
  /\ Link.parse_telegram_link (chars "007") = Link.Returns None (Some 7).
Proof.
  destruct (numeric_links_parse_to_their_numbers (chars "https://") (chars "007") (chars "15"))
    as (H1 & _ & _ & H4).
  - vm_compute. auto.
  - split; [discriminate|reflexivity].
  - split; [discriminate|reflexivity].
  - split; [exact H1 | exact H4].
Defined.

(** X23.  A link to a user name is parsed to that name.  For a name of
    the form the patterns require and a string of digits [m], the
    public link [t.me/<name>/<m>], with or without a scheme, and the
    shorthand [@<name>/<m>] both give the name, whole, and the message
    [m]. *)
Theorem username_links_parse_to_their_names (sch name m : str) :
  In sch Link.schemes -> Link.username_form name -> Link.digit_string m ->
  Link.parse_telegram_link (sch ++ chars "t.me/" ++ name ++ chars "/" ++ m)
  = Link.Returns (Some (Link.ChanName name)) (Some (Link.decimal m))
  /\ Link.parse_telegram_link (chars "@" ++ name ++ chars "/" ++ m)
     = Link.Returns (Some (Link.ChanName name)) (Some (Link.decimal m)).
Proof.
  intros Hs Hn Hm.
  pose proof (username_no_space name Hn) as Nn.
  pose proof (digits_no_space m (proj2 Hm)) as Nm.
  change (chars "/" ++ m) with ("/"%char :: m).
  unfold Link.parse_telegram_link. split.
  - rewrite strip_no_space
      by (rewrite app_assoc; apply pair_no_space; auto;
          rewrite no_space_app, (scheme_no_space _ Hs); reflexivity).
    rewrite <- ?app_assoc.
    rewrite (re_match_private_public sch name ("/"%char :: m) Hs Hn).
    pose proof (re_match_public sch name m [] Hs Hn Hm I) as E.
    rewrite app_nil_r in E. rewrite E. unfold Link.group. cbn [nth Nat.pred].
    unfold Link.with_int. now rewrite (py_int_decimal m Hm).
  - change (chars "@" ++ name ++ "/"%char :: m) with ("@"%char :: name ++ "/"%char :: m).
    rewrite strip_no_space by now apply (pair_no_space ["@"%char] name m).
    destruct (re_match_no_host "@" (name ++ "/"%char :: m)) as [-> ->]; try reflexivity.
    pose proof (re_match_at name m [] Hn Hm I) as E.
    rewrite app_nil_r in E. rewrite E. unfold Link.group. cbn [nth Nat.pred].
    unfold Link.with_int. now rewrite (py_int_decimal m Hm).
Qed.

Lemma username_links_parse_to_their_names_witness :
  Link.parse_telegram_link (chars "" ++ chars "t.me/" ++ chars "c_news" ++ chars "/" ++ chars "42")
  = Link.Returns (Some (Link.ChanName (chars "c_news"))) (Some 42)
  /\ Link.parse_telegram_link (chars "@" ++ chars "c_news" ++ chars "/" ++ chars "42")
     = Link.Returns (Some (Link.ChanName (chars "c_news"))) (Some 42).
Proof.
  apply (username_links_parse_to_their_names (chars "") (chars "c_news") (chars "42")).
  - vm_compute. auto.
  - exists "c"%char, (chars "_new"), "s"%char. vm_compute. repeat split; lia.
  - split; [discriminate|reflexivity].
Defined.

Section RangeLinks.
Import UserClient Bot.

Ltac run_monad :=
  unfold Bot.with_db, with_manager, UserClient.with_db in *;
  repeat (progress
            (unfold bind, ret, raise, try_except, gets, modify, on, await,
               await_value in *)).

(** [/crange] past its first checks: for a user with no active task, a
    connected handle and a destination, the reply depends on the two
    links only, and nothing changes. *)
Lemma crange_command_links env user cmd start_link end_link b handle dest :
  user ∉ active_tasks b ->
  active_clients (user_manager b) !! user = Some handle ->
  handle ∈ connected (user_manager b) ->
  Database.get_destination env user (db (user_manager b))
  = (Ret dest, db (user_manager b)) ->
  dest <> 0 ->
  crange_command env user [cmd; start_link; end_link] b
  = (match Link.parse_telegram_link start_link with
     | Link.RaisesValueError => Raises ValueError
     | Link.Returns (Some start_channel) (Some start_message_id) =>
         match Link.parse_telegram_link end_link with
         | Link.RaisesValueError => Raises ValueError
         | Link.Returns (Some end_channel) (Some end_message_id) =>
             Ret (ResolveChannels handle dest start_channel start_message_id
                    end_channel end_message_id)
         | Link.Returns _ _ => Ret InvalidEndLink
         end
     | Link.Returns _ _ => Ret InvalidStartLink
     end, b).
Proof.
  intros A H C D N. unfold crange_command. run_monad.
  rewrite (bool_decide_eq_false_2 _ A).
  rewrite (get_client_cached env user (user_manager b) handle H C).
  cbn [length Nat.ltb Nat.leb nth]. rewrite !set_user_manager_same, D.
  rewrite set_db_same, set_user_manager_same.
  apply Z.eqb_neq in N. rewrite N. unfold parsed. run_monad.
  destruct (Link.parse_telegram_link start_link) as [[sc|] [sm|]|]; try reflexivity.
  destruct (Link.parse_telegram_link end_link) as [[ec|] [em|]|]; reflexivity.
Qed.

End RangeLinks.

(** X24.  A message number alone is accepted by the parser but is of no
    use to [/crange], which wants a channel in both links.  For a user
    with no active task, a connected handle and a destination: a start
    link that is a string of digits is refused as an invalid start
    link, whatever the end link; after a private link as start link, an
    end link that is a string of digits is refused as an invalid end
    link; and two private links go on to the resolution of the
    channels, with the numbers they write.  Nothing changes in any of
    these cases. *)
Theorem range_needs_a_channel_in_both_links
    (env : Env) (user dest : Z) (cmd number c m c' m' : str) (b : Bot.Bot)
    (handle : UserClient.Handle) :
  let link := chars "" ++ chars "t.me/c/" ++ c ++ chars "/" ++ m in
  let link' := chars "" ++ chars "t.me/c/" ++ c' ++ chars "/" ++ m' in
  let channel (x : str) :=
    Link.ChanId (- (100 * 10 ^ Z.of_nat (length x) + Link.decimal x)) in
  user ∉ Bot.active_tasks b ->
  UserClient.active_clients (Bot.user_manager b) !! user = Some handle ->
  handle ∈ UserClient.connected (Bot.user_manager b) ->
  Database.get_destination env user (UserClient.db (Bot.user_manager b))
  = (Ret dest, UserClient.db (Bot.user_manager b)) ->
  dest <> 0 ->
  Link.digit_string number ->
  Link.digit_string c -> Link.digit_string m ->
  Link.digit_string c' -> Link.digit_string m' ->
  (forall end_link,
      Bot.crange_command env user [cmd; number; end_link] b
      = (Ret Bot.InvalidStartLink, b))
  /\ Bot.crange_command env user [cmd; link; number] b = (Ret Bot.InvalidEndLink, b)
  /\ Bot.crange_command env user [cmd; link; link'] b
     = (Ret (Bot.ResolveChannels handle dest (channel c) (Link.decimal m)
               (channel c') (Link.decimal m')), b).
Proof.
  intros link link' channel A H C D N Hn Hc Hm Hc' Hm'. subst link link' channel.
  pose proof (parse_bare_number number Hn) as Bare.
  pose proof (parse_private_link (chars "") c m ltac:(left; reflexivity) Hc Hm) as P.
  pose proof (parse_private_link (chars "") c' m' ltac:(left; reflexivity) Hc' Hm') as P'.
  change (chars "/" ++ m) with ("/"%char :: m).
  change (chars "/" ++ m') with ("/"%char :: m').
  repeat split; [intros end_link|..];
    rewrite (crange_command_links _ _ _ _ _ _ _ _ A H C D N), ?P, ?P', ?Bare;
    reflexivity.
Qed.

Lemma range_needs_a_channel_in_both_links_witness :
  let b := Samples.logged_in (Some {| Database.destination_channel_id := Some (-1005) |}) in
  Bot.crange_command Samples.calm 7 [chars "/crange"; chars "100"; chars "200"] b
  = (Ret Bot.InvalidStartLink, b)
  /\ Bot.crange_command Samples.calm 7
       [chars "/crange"; chars "" ++ chars "t.me/c/" ++ chars "007" ++ chars "/" ++ chars "100";
        chars "" ++ chars "t.me/c/" ++ chars "007" ++ chars "/" ++ chars "200"] b
     = (Ret (Bot.ResolveChannels 0%nat (-1005) (Link.ChanId (-100007)) 100
               (Link.ChanId (-100007)) 200), b).
Proof.
  destruct (range_needs_a_channel_in_both_links Samples.calm 7 (-1005)
              (chars "/crange") (chars "100") (chars "007") (chars "100")
              (chars "007") (chars "200")
              (Samples.logged_in (Some {| Database.destination_channel_id := Some (-1005) |}))
              0%nat) as (H1 & _ & H3).
  - vm_compute. intros H. discriminate H.
  - reflexivity.
  - vm_compute. reflexivity.
  - reflexivity.
  - lia.
  - split; [discriminate|reflexivity].
  - split; [discriminate|reflexivity].
  - split; [discriminate|reflexivity].
  - split; [discriminate|reflexivity].
  - split; [discriminate|reflexivity].
  - split; [exact (H1 (chars "200")) | exact H3].
Defined.

Section OtherUsers.
Import UserClient.

Variable env : Env.
Variables user other : Z.
Hypothesis apart : other <> user.

Ltac run_monad :=
  unfold UserClient.with_db in *;
  repeat (progress
            (unfold bind, ret, raise, try_except, gets, modify, on, await,
               await_value in *)).

Ltac fields :=
  cbn [fst snd db active_clients pending_logins connected next_client
       set_db set_active_clients set_pending_logins set_connected
       Database.users Database.user_settings Database.set_users
       Database.set_user_settings].

Ltac frame :=
  unfold same_for; fields;
  rewrite ?lookup_insert_ne, ?lookup_delete_ne, ?lookup_alter_ne by congruence;
  auto.

Lemma same_for_refl m : same_for other m m.
Proof. unfold same_for. auto. Qed.

Lemma same_for_trans m1 m2 m3 :
  same_for other m1 m2 -> same_for other m2 m3 -> same_for other m1 m3.
Proof.
  unfold same_for. intros (A1 & A2 & A3 & A4) (B1 & B2 & B3 & B4).
  repeat split; congruence.
Qed.

Lemma initiate_login_frame phone m :
  same_for other m (snd (initiate_login env user phone m)).
Proof.
  unfold initiate_login, new_client, client_connect. run_monad.
  destruct (connect env) as [e|]; [destruct (kind e); frame|].
  destruct (send_code env) as [e|h]; [destruct (kind e); frame|]. frame.
Qed.

Lemma complete_login_frame c phone msg m :
  same_for other m (snd (complete_login env user c phone msg m)).
Proof.
  unfold complete_login. run_monad.
  destruct (export_session_string env) as [e|session]; [frame|].
  cbn beta iota. rewrite save_user_session_cases.
  destruct (users_update_one env); frame.
Qed.

Lemma verify_otp_frame code m :
  same_for other m (snd (verify_otp env user code m)).
Proof.
  pose proof (fun c phone msg => complete_login_frame c phone msg m) as CL.
  unfold verify_otp. run_monad.
  destruct (pending_logins m !! user) as [p|]; [|frame].
  destruct (sign_in env) as [e|]; [destruct (kind e); frame|].
  cbn beta iota.
  specialize (CL (client p) (phone_number p)
                (chars "Login successful! You can now use the bot to forward from channels where you have access.")).
  destruct (complete_login _ _ _ _ _ m) as [[r|e] m']; cbn [snd] in *;
    [exact CL|destruct (kind e); (eapply same_for_trans; [exact CL|frame])].
Qed.

Lemma verify_2fa_frame password m :
  same_for other m (snd (verify_2fa env user password m)).
Proof.
  pose proof (fun c phone msg => complete_login_frame c phone msg m) as CL.
  unfold verify_2fa. run_monad.
  destruct (pending_logins m !! user) as [p|]; [|frame].
  destruct (negb _); [frame|].
  destruct (check_password env) as [e|]; [destruct (is_BadRequest e); frame|].
  cbn beta iota.
  specialize (CL (client p) (phone_number p)
                (chars "Login successful! You can now use the bot to forward from channels.")).
  destruct (complete_login _ _ _ _ _ m) as [[r|e] m']; cbn [snd] in *;
    [exact CL|destruct (is_BadRequest e); (eapply same_for_trans; [exact CL|frame])].
Qed.

Lemma get_client_frame_other m : same_for other m (snd (get_client env user m)).
Proof.
  unfold get_client, is_connected. run_monad.
  assert (R : same_for other m (snd (restore_client env user m))).
  { rewrite restore_client_cases.
    destruct (fst (Database.get_user_session env user (db m))) as [[doc|]|e]; try frame.
    destruct (Database.session_string doc); [frame|].
    destruct (start env); frame. }
  destruct (active_clients m !! user) as [c|]; [|exact R].
  destruct (bool_decide _); [frame|exact R].
Qed.

Lemma logout_frame m : same_for other m (snd (logout env user m)).
Proof.
  rewrite logout_cases, delete_user_session_cases.
  destruct (active_clients m !! user) as [c|]; destruct (stop env);
    destruct (users_update_one env); frame.
Qed.

Lemma cancel_login_frame m : same_for other m (snd (cancel_login env user m)).
Proof.
  unfold cancel_login, client_disconnect. run_monad.
  destruct (pending_logins m !! user) as [p|]; [|frame].
  destruct (disconnect env); frame.
Qed.

End OtherUsers.

(** X25.  What is done for one user leaves the others alone.  Each of
    the operations of the login manager — [initiate_login],
    [verify_otp], [verify_2fa], [get_client], [logout], [cancel_login]
    — run for a user, whatever the outside answers and however it ends,
    leaves to every other user the record of the login in flight, the
    registered handle and the stored session there were, and does not
    touch the destination settings. *)
Theorem operations_leave_other_users_alone
    (env : Env) (user other : Z) (phone code password : str)
    (m : UserClient.UserClientManager) :
  other <> user ->
  UserClient.same_for other m (snd (UserClient.initiate_login env user phone m))
  /\ UserClient.same_for other m (snd (UserClient.verify_otp env user code m))
  /\ UserClient.same_for other m (snd (UserClient.verify_2fa env user password m))
  /\ UserClient.same_for other m (snd (UserClient.get_client env user m))
  /\ UserClient.same_for other m (snd (UserClient.logout env user m))
  /\ UserClient.same_for other m (snd (UserClient.cancel_login env user m)).
Proof.
  intros N.
  split; [now apply initiate_login_frame|].
  split; [now apply verify_otp_frame|].
  split; [now apply verify_2fa_frame|].
  split; [now apply get_client_frame_other|].
  split; [now apply logout_frame | now apply cancel_login_frame].
Qed.

Lemma operations_leave_other_users_alone_witness :
  UserClient.same_for 7 Samples.in_flight
    (snd (UserClient.initiate_login Samples.calm 8 (chars "+222") Samples.in_flight))
  /\ UserClient.same_for 7 Samples.in_flight
       (snd (UserClient.logout Samples.calm 8 Samples.in_flight)).
Proof.
  destruct (operations_leave_other_users_alone Samples.calm 8 7 (chars "+222")
              (chars "12345") (chars "secret") Samples.in_flight)
    as (H1 & _ & _ & _ & H5 & _).
  - lia.
  - split; [exact H1 | exact H5].
Defined.

Section Tallies.
Import Forwarder.

Variable self : MessageForwarder.
Variable client : Client.
Variables source destination : Z.
Variable on_success : Z -> list Event.
Hypothesis on_success_tells_nothing : forall i, progress_texts (on_success i) = [].
Variable cb : Callback.

Local Abbreviation iter := (iteration self client cb source destination on_success).
Local Abbreviation proc := (process self client cb source destination on_success).

Lemma progress_texts_app a b :
  progress_texts (a ++ b) = progress_texts a ++ progress_texts b.
Proof. induction a as [|[] a IH]; simpl; rewrite ?IH; reflexivity. Qed.

Lemma progress_texts_copy_message mid sc : forall d,
  progress_texts (snd (copy_message mid d sc)) = [].
Proof.
  induction sc as [r|v sc IH]; intros d; simpl; [reflexivity|].
  specialize (IH (S d)). destruct (copy_message mid (S d) sc). exact IH.
Qed.

(** The end of an iteration tells the position and the statistics it
    is given, at the multiples of ten, and nothing else. *)
Lemma finish_item_tells i st evs :
  progress_texts evs = [] ->
  let r := finish_item self cb i st evs in
  (progress_texts (snd r) = []
   \/ (progress_texts (snd r) = [progress_text (i + 1) st] /\ (i + 1) mod 10 = 0))
  /\ match fst r with
     | inl st' => st' = st
     | inr _ => True
     end.
Proof.
  intros E r. subst r. unfold finish_item, progress_update.
  destruct cb as [f|].
  - destruct ((i + 1) mod 10 =? 0) eqn:T.
    + apply Z.eqb_eq in T.
      destruct (f _); cbn [fst snd]; rewrite !progress_texts_app, E; cbn; auto.
    + cbn [fst snd]. rewrite !progress_texts_app, E. cbn. auto.
  - cbn [fst snd]. rewrite !progress_texts_app, E. cbn. auto.
Qed.

(** One iteration at position [i], all the messages before it having
    been counted: what it tells is so, and it counts its message. *)
Lemma iteration_tells i m st n :
  counted st = i -> 0 <= i < n -> total st = n ->
  let r := iter i m st in
  Forall (tally_text n) (progress_texts (snd r))
  /\ match fst r with
     | inl st' => counted st' = i + 1 /\ total st' = n
     | inr _ => True
     end.
Proof.
  intros C B T r. subst r.
  pose proof (progress_texts_copy_message (id m)
                (copy_message_replies client destination source (id m)) 0) as PC.
  assert (K : forall st1 evs,
             counted st1 = i + 1 -> total st1 = n -> progress_texts evs = [] ->
             Forall (tally_text n) (progress_texts (snd (finish_item self cb i st1 evs)))
             /\ match fst (finish_item self cb i st1 evs) with
                | inl st' => counted st' = i + 1 /\ total st' = n
                | inr _ => True
                end).
  { intros st1 evs C1 T1 E.
    destruct (finish_item_tells i st1 evs E) as [[-> | [-> M]] X]; cbv zeta in *.
    - split; [constructor|].
      destruct (fst (finish_item self cb i st1 evs)); [subst; auto|exact I].
    - split.
      + constructor; [|constructor]. exists st1. rewrite C1. repeat split; auto; lia.
      + destruct (fst (finish_item self cb i st1 evs)); [subst; auto|exact I]. }
  destruct (iteration_cases self client source destination on_success cb i m st)
    as [[Sk ->]|[(Sk & text & _ & ->)|[(Sk & _ & ->)|[(Sk & k & _ & ->)|(Sk & text & _ & _ & ->)]]]];
    cbn [fst snd].
  - split; [constructor|]. rewrite counted_add_skipped. cbn. split; [lia|exact T].
  - rewrite PC. split; [constructor|exact I].
  - rewrite PC. split; [constructor|exact I].
  - apply K.
    + rewrite counted_add_success. lia.
    + exact T.
    + now rewrite progress_texts_app, PC, on_success_tells_nothing.
  - apply K.
    + rewrite counted_note_error, counted_add_failed. lia.
    + destruct (note_error_counters (id m) text (add_failed st)) as (_ & _ & _ & ->).
      exact T.
    + exact PC.
Qed.

(** What a loop tells is so. *)
Lemma process_tells msgs : forall i st,
  counted st = i -> 0 <= i -> total st = i + Z.of_nat (length msgs) ->
  Forall (tally_text (total st)) (progress_texts (snd (proc i msgs st))).
Proof.
  induction msgs as [|m msgs IH]; intros i st C B T; [constructor|].
  rewrite process_cons.
  assert (L : Z.of_nat (length (m :: msgs)) = 1 + Z.of_nat (length msgs))
    by (simpl length; lia).
  destruct (iteration_tells i m st (total st) C ltac:(lia) eq_refl) as [F X].
  destruct (iter i m st) as [[st1|x] evs]; cbn [fst snd] in *; [|exact F].
  destruct X as [C1 T1].
  specialize (IH (i + 1) st1 C1 ltac:(lia) ltac:(lia)).
  destruct (proc (i + 1) msgs st1) as [x' evs']. cbn [snd] in *.
  rewrite progress_texts_app. apply List.Forall_app. split; [exact F|].
  now rewrite <- T1.
Qed.

End Tallies.

(** X26.  The progress lines of a job say what is so.  Apart from the
    announcements made before the loop, every text a job hands to its
    sink is a progress line written from statistics whose three tallies
    — succeeded, failed, skipped — add up to the position it shows,
    which is a multiple of ten between 1 and the number of messages
    found, the total it shows. *)
Theorem progress_lines_add_up
    (self : Forwarder.MessageForwarder) (client : Forwarder.Client)
    (source destination user start a b : Z) (limit : option Z)
    (cb : Forwarder.Callback) :
  let full := Forwarder.clone_channel self client source destination user cb start limit in
  let range := Forwarder.clone_range self client source destination a b user cb in
  let found rep :=
    Forwarder.chart ++ chars " Found "
    ++ str_of_int (Forwarder.total (Forwarder.stats rep)) in
  Forall (fun text =>
            text = found (fst full) ++ chars " messages to clone..."
            \/ Forwarder.tally_text (Forwarder.total (Forwarder.stats (fst full))) text)
    (Forwarder.progress_texts (snd full))
  /\ Forall (fun text =>
            text = Forwarder.lens ++ chars " Fetching messages from "
                   ++ str_of_int (Z.min a b) ++ chars " to " ++ str_of_int (Z.max a b)
                   ++ chars "..."
            \/ text = found (fst range) ++ chars " messages to clone (IDs "
                      ++ str_of_int (Z.min a b) ++ chars " - " ++ str_of_int (Z.max a b)
                      ++ chars ")..."
            \/ Forwarder.tally_text (Forwarder.total (Forwarder.stats (fst range))) text)
       (Forwarder.progress_texts (snd range)).
Proof.
  intros full range found. subst full range found. cbv beta.
  assert (R : forall on_s msgs st evs0,
             (forall i, Forwarder.progress_texts (on_s i) = []) ->
             Forwarder.counted st = 0 ->
             Forwarder.total st = Z.of_nat (length msgs) ->
             let r := Forwarder.run self client cb source destination on_s
                        (Forwarder.Ready msgs st evs0) in
             Forwarder.total (Forwarder.stats (fst r)) = Forwarder.total st
             /\ Forwarder.progress_texts (snd r) = Forwarder.progress_texts evs0
                ++ Forwarder.progress_texts
                     (snd (Forwarder.process self client cb source destination on_s 0 msgs st))
             /\ Forall (Forwarder.tally_text (Forwarder.total st))
                  (Forwarder.progress_texts
                     (snd (Forwarder.process self client cb source destination on_s
                             0 msgs st)))).
  { intros on_s msgs st evs0 Q C T r. subst r. rewrite run_ready. cbn [fst snd].
    rewrite close_fst, progress_texts_app.
    pose proof (process_counts self client source destination on_s cb msgs 0 st)
      as [(T' & _) _].
    split; [|split; [reflexivity|apply process_tells; auto; lia]].
    destruct (fst (Forwarder.process _ _ _ _ _ _ _ _ _)) as [st'|rep|x st'];
      cbn [Forwarder.exit_stats] in T'; try exact T'. now destruct x. }
  split.
  - unfold Forwarder.clone_channel, Forwarder.collect_channel.
    destruct (Forwarder.fails _) as [x|]; [constructor|].
    set (msgs := rev (Forwarder.keep_after start _)).
    set (st := Forwarder.set_total _ _).
    destruct cb as [f|]; cbn [Forwarder.announce].
    + destruct (f _) as [x|] eqn:E.
      * cbn [Forwarder.run fst snd Forwarder.progress_texts].
        constructor; [|constructor]. left.
        now destruct x.
      * destruct (R (fun i => [Forwarder.UpdateLastMessageId source user i]) msgs st
                    [Forwarder.Progress
                       (Forwarder.chart ++ chars " Found "
                        ++ str_of_int (Forwarder.total st) ++ chars " messages to clone...")]
                    (fun _ => eq_refl) eq_refl eq_refl) as (T & P & F).
        cbv zeta in T, P, F. rewrite P, T. cbn [Forwarder.progress_texts app].
        constructor; [left; now rewrite <- !app_assoc|].
        eapply List.Forall_impl; [|exact F]. auto.
    + destruct (R (fun i => [Forwarder.UpdateLastMessageId source user i]) msgs st []
                  (fun _ => eq_refl) eq_refl eq_refl) as (T & P & F).
      cbv zeta in T, P, F. rewrite P, T. cbn [Forwarder.progress_texts app].
      eapply List.Forall_impl; [|exact F]. auto.
  - unfold Forwarder.clone_range, Forwarder.collect_messages. rewrite ordered_bounds.
    set (fetching := Forwarder.lens ++ chars " Fetching messages from "
                     ++ str_of_int (Z.min a b) ++ chars " to "
                     ++ str_of_int (Z.max a b) ++ chars "...").
    assert (A : Forwarder.progress_texts (snd (Forwarder.announce cb fetching)) = []
                \/ Forwarder.progress_texts (snd (Forwarder.announce cb fetching))
                   = [fetching]) by (destruct cb; cbn; auto).
    destruct (Forwarder.announce cb fetching) as [[x|] evs]; cbn [snd] in A.
    { cbn [Forwarder.run snd]. destruct A as [-> | ->]; repeat constructor. }
    destruct (Forwarder.collect_range _ _ _) as [kept broke].
    destruct (if broke then None else _) as [x|].
    { cbn [Forwarder.run snd]. destruct A as [-> | ->]; repeat constructor. }
    set (msgs := rev kept).
    set (st := Forwarder.set_total _ _).
    destruct (Forwarder.total st =? 0).
    { cbn [Forwarder.run snd]. destruct A as [-> | ->]; repeat constructor. }
    set (found := Forwarder.chart ++ chars " Found " ++ str_of_int (Forwarder.total st)
                  ++ chars " messages to clone (IDs " ++ str_of_int (Z.min a b)
                  ++ chars " - " ++ str_of_int (Z.max a b) ++ chars ")...").
    assert (A1 : Forwarder.progress_texts (snd (Forwarder.announce cb found)) = []
                 \/ Forwarder.progress_texts (snd (Forwarder.announce cb found))
                    = [found]) by (destruct cb; cbn; auto).
    destruct (Forwarder.announce cb found) as [[x|] evs1] eqn:AN; cbn [snd] in A1.
    { cbn [Forwarder.run fst snd]. rewrite progress_texts_app.
      apply List.Forall_app. split.
      - destruct A as [-> | ->]; repeat constructor.
      - destruct A1 as [-> | ->]; [constructor|].
        constructor; [|constructor]. right; left. subst found.
        rewrite <- !app_assoc. now destruct x. }
    destruct (R (fun _ => []) msgs st (evs ++ evs1) (fun _ => eq_refl) eq_refl eq_refl)
      as (T & P & F).
    cbv zeta in T, P, F. rewrite P, T, progress_texts_app.
    repeat (apply List.Forall_app; split).
    + destruct A as [-> | ->]; repeat constructor.
    + destruct A1 as [-> | ->]; [constructor|].
      constructor; [|constructor]. right; left. subst found.
      now rewrite <- !app_assoc.
    + eapply List.Forall_impl; [|exact F]. auto.
Qed.

Section Shutdown.
Import UserClient.

Ltac run_monad :=
  repeat (progress
            (unfold bind, ret, raise, try_except, gets, modify, on, await,
               await_value in *)).

Lemma stop_each_closes stop_of clients : forall m,
  closes stop_of (map snd clients) (stop_each stop_of clients m) m.
Proof.
  induction clients as [|[u c] clients IH]; intros m.
  - unfold closes. cbn. repeat split; auto; intros ? [].
  - cbn [stop_each fold_right map snd]. fold (stop_each stop_of clients). run_monad.
    destruct (stop_of c) as [e|] eqn:S.
    + destruct (IH m) as (R & D & A & P & N & C & X).
      destruct (stop_each stop_of clients m) as [r m']. cbn [fst snd] in *.
      subst r. repeat split; auto.
      intros c' [E|H] Ans; [simpl in E; subst c'; congruence|]. now apply X.
    + destruct (IH (set_connected (fun cs => cs ∖ {[c]}) m))
        as (R & D & A & P & N & C & X).
      destruct (stop_each stop_of clients _) as [r m']. cbn [fst snd] in *.
      subst r. cbn in C. repeat split; auto.
      * intros x Hx. specialize (C x Hx). apply elem_of_difference in C. tauto.
      * intros c' [E|H] Ans; [simpl in E; subst c'|now apply X].
        intros Hc. specialize (C _ Hc). apply elem_of_difference in C.
        destruct C as [_ C]. apply C, elem_of_singleton. reflexivity.
Qed.

Lemma disconnect_each_closes disconnect_of logins : forall m,
  closes disconnect_of (map (fun item => client (snd item)) logins)
    (disconnect_each disconnect_of logins m) m.
Proof.
  induction logins as [|[u p] logins IH]; intros m.
  - unfold closes. cbn. repeat split; auto; intros ? [].
  - cbn [disconnect_each fold_right map snd]. fold (disconnect_each disconnect_of logins).
    run_monad.
    destruct (disconnect_of (client p)) as [e|] eqn:S.
    + destruct (IH m) as (R & D & A & P & N & C & X).
      destruct (disconnect_each disconnect_of logins m) as [r m']. cbn [fst snd] in *.
      subst r. repeat split; auto.
      intros c' [E|H] Ans; [simpl in E; subst c'; congruence|]. now apply X.
    + destruct (IH (set_connected (fun cs => cs ∖ {[client p]}) m))
        as (R & D & A & P & N & C & X).
      destruct (disconnect_each disconnect_of logins _) as [r m']. cbn [fst snd] in *.
      subst r. cbn in C. repeat split; auto.
      * intros x Hx. specialize (C x Hx). apply elem_of_difference in C. tauto.
      * intros c' [E|H] Ans; [simpl in E; subst c'|now apply X].
        intros Hc. specialize (C _ Hc). apply elem_of_difference in C.
        destruct C as [_ C]. apply C, elem_of_singleton. reflexivity.
Qed.

End Shutdown.

(** X27.  Shutting down forgets every client and never fails.
    [stop_all_clients] returns, whatever the clients raise when they
    are stopped or disconnected; afterwards no handle is registered and
    no login is in flight, while storage is as it was, so that the
    stored sessions can be restored later.  No connection is opened,
    and the connection of every registered client that lets itself be
    stopped, and of every login in flight that lets itself be
    disconnected, is closed. *)
Theorem shutdown_forgets_every_client
    (stop_of disconnect_of : UserClient.Handle -> option Exn)
    (m : UserClient.UserClientManager) :
  let r := UserClient.stop_all_clients stop_of disconnect_of m in
  fst r = Ret tt
  /\ UserClient.active_clients (snd r) = ∅
  /\ UserClient.pending_logins (snd r) = ∅
  /\ UserClient.db (snd r) = UserClient.db m
  /\ UserClient.connected (snd r) ⊆ UserClient.connected m
  /\ (forall user c,
        UserClient.active_clients m !! user = Some c -> stop_of c = None ->
        c ∉ UserClient.connected (snd r))
  /\ (forall user login_data,
        UserClient.pending_logins m !! user = Some login_data ->
        disconnect_of (UserClient.client login_data) = None ->
        UserClient.client login_data ∉ UserClient.connected (snd r)).
Proof.
  intros r. subst r. unfold UserClient.stop_all_clients, bind, gets, modify, ret.
  destruct (stop_each_closes stop_of (map_to_list (UserClient.active_clients m)) m)
    as (R1 & D1 & A1 & P1 & N1 & C1 & X1).
  destruct (UserClient.stop_each stop_of _ m) as [r1 m1]. cbn [fst snd] in *. subst r1.
  set (m2 := UserClient.set_active_clients (fun _ => ∅) m1).
  assert (P2 : UserClient.pending_logins m2 = UserClient.pending_logins m) by exact P1.
  destruct (disconnect_each_closes disconnect_of
              (map_to_list (UserClient.pending_logins m2)) m2)
    as (R2 & D2 & A2 & P3 & N2 & C2 & X2).
  destruct (UserClient.disconnect_each disconnect_of _ m2) as [r2 m3].
  cbn [fst snd] in *. subst r2.
  cbn [UserClient.active_clients UserClient.pending_logins UserClient.db
       UserClient.connected UserClient.set_pending_logins].
  split; [reflexivity|]. split; [exact A2|]. split; [reflexivity|].
  split; [exact (eq_trans D2 D1)|]. split; [|split].
  - intros x Hx. apply C1. apply (C2 x Hx).
  - intros user c H S Hc. apply (X1 c); [|exact S|exact (C2 c Hc)].
    apply in_map_iff. exists (user, c). split; [reflexivity|].
    apply list_elem_of_In, elem_of_map_to_list. exact H.
  - intros user p H S. apply X2; [|exact S].
    apply in_map_iff. exists (user, p). split; [reflexivity|].
    apply list_elem_of_In, elem_of_map_to_list. now rewrite P2.
Qed.

Section Destinations.
Import UserClient Bot.

Ltac run_monad :=
  unfold Bot.with_db, with_manager, UserClient.with_db in *;
  repeat (progress
            (unfold bind, ret, raise, try_except, gets, modify, on, await,
               await_value in *)).

(** [/clone] past its first checks. *)
Lemma clone_command_source env user cmd arg b handle dest source :
  user ∉ active_tasks b ->
  active_clients (user_manager b) !! user = Some handle ->
  handle ∈ connected (user_manager b) ->
  Database.get_destination env user (db (user_manager b))
  = (Ret dest, db (user_manager b)) ->
  py_int arg = Some source ->
  clone_command env user [cmd; arg] b
  = (Ret (if dest =? 0 then NoDestination else CheckAccess handle source dest), b).
Proof.
  intros A H C D S. unfold clone_command. run_monad.
  rewrite (bool_decide_eq_false_2 _ A).
  rewrite (get_client_cached env user (user_manager b) handle H C).
  cbn [length Nat.ltb Nat.leb nth]. rewrite S, !set_user_manager_same, D.
  rewrite set_db_same, set_user_manager_same. now destruct (dest =? 0).
Qed.

Lemma getdest_command_reply env user b dest :
  Database.get_destination env user (db (user_manager b))
  = (Ret dest, db (user_manager b)) ->
  getdest_command env user b
  = (Ret (if dest =? 0 then NoDestinationSet else CurrentDestination dest), b).
Proof.
  intros D. unfold getdest_command. run_monad. rewrite D.
  rewrite set_db_same, set_user_manager_same. now destruct (dest =? 0).
Qed.

(** After a successful logout the user has no client, whatever the
    outside answers. *)
Lemma get_client_logged_out env user m m' :
  active_clients m' !! user = None ->
  db m' = Database.set_users (alter Database.deactivate user) (db m) ->
  get_client env user m' = (Ret None, m').
Proof.
  intros A D. rewrite get_client_uncached by (intros c Hc; congruence).
  rewrite restore_client_cases, get_user_session_cases, D. cbn.
  rewrite lookup_alter_eq.
  destruct (users_find_one env); [reflexivity|].
  now destruct (Database.users (db m) !! user).
Qed.

End Destinations.

(** X28.  The destination stored is the one cloned to.  For a user
    with no active task and a connected handle, once [set_destination]
    has stored a channel other than 0, and the read of the settings
    does not fail, [/getdest] shows that channel and [/clone] with a
    numeric source goes on to the access checks with this handle, the
    source given and that channel as destination; neither changes
    anything. *)
Theorem stored_destination_is_the_one_cloned_to
    (env1 env2 : Env) (user dest source : Z) (cmd arg : str) (b : Bot.Bot)
    (handle : UserClient.Handle) :
  let b1 := snd (Bot.with_db (Database.set_destination env1 user dest) b) in
  user ∉ Bot.active_tasks b ->
  UserClient.active_clients (Bot.user_manager b) !! user = Some handle ->
  handle ∈ UserClient.connected (Bot.user_manager b) ->
  user_settings_update_one env1 = None ->
  user_settings_find_one env2 = None ->
  dest <> 0 ->
  py_int arg = Some source ->
  Bot.getdest_command env2 user b1 = (Ret (Bot.CurrentDestination dest), b1)
  /\ Bot.clone_command env2 user [cmd; arg] b1
     = (Ret (Bot.CheckAccess handle source dest), b1).
Proof.
  intros b1 A H C W R N S. subst b1.
  unfold Bot.with_db, Bot.with_manager, UserClient.with_db, on.
  rewrite set_destination_cases, W. cbn [fst snd].
  set (b1 := Bot.set_user_manager _ b).
  assert (D : Database.get_destination env2 user (UserClient.db (Bot.user_manager b1))
              = (Ret dest, UserClient.db (Bot.user_manager b1))).
  { rewrite get_destination_cases, R. cbn. now rewrite lookup_insert_eq. }
  apply Z.eqb_neq in N. split.
  - rewrite (getdest_command_reply env2 user b1 dest D). now rewrite N.
  - rewrite (clone_command_source env2 user cmd arg b1 handle dest source A H C D S).
    now rewrite N.
Qed.

Lemma stored_destination_is_the_one_cloned_to_witness :
  let b1 := snd (Bot.with_db (Database.set_destination Samples.calm 7 (-1005))
                   (Samples.logged_in None)) in
  Bot.getdest_command Samples.calm 7 b1 = (Ret (Bot.CurrentDestination (-1005)), b1)
  /\ Bot.clone_command Samples.calm 7 [chars "/clone"; chars "-1009"] b1
     = (Ret (Bot.CheckAccess 0%nat (-1009) (-1005)), b1).
Proof.
  apply (stored_destination_is_the_one_cloned_to Samples.calm Samples.calm 7 (-1005)
           (-1009) (chars "/clone") (chars "-1009") (Samples.logged_in None) 0%nat).
  - vm_compute. intros H. discriminate H.
  - reflexivity.
  - vm_compute. reflexivity.
  - reflexivity.
  - reflexivity.
  - lia.
  - vm_compute. reflexivity.
Defined.

(** X29.  After a logout that goes through, the user can log in again.
    When the live client, if any, stops and the deletion is written,
    a [/login] with a phone number that follows is not answered that
    the user is already logged in: when connecting and the request for
    a code succeed, it is answered that the code was sent, and a login
    is in flight for the user over a new connection, under the phone
    number given, with ["+"] put in front when it was missing. *)
Theorem logout_allows_a_new_login
    (env env' : Env) (user : Z) (cmd phone sent_code : str) (b : Bot.Bot) :
  let b1 := snd (Bot.with_manager (UserClient.logout env user) b) in
  let r := Bot.login_command env' user [cmd; phone] b1 in
  UserClient.active_clients (Bot.user_manager b) !! user = None \/ stop env = None ->
  users_update_one env = None ->
  connect env' = None ->
  send_code env' = inr sent_code ->
  fst r = Ret (Bot.OtpSent
                 (chars "OTP sent to " ++ Bot.with_country_mark phone
                  ++ chars ". Please enter the OTP code."))
  /\ UserClient.pending_logins (Bot.user_manager (snd r)) !! user
     = Some {| UserClient.client := UserClient.next_client (Bot.user_manager b);
               UserClient.phone_number := Bot.with_country_mark phone;
               UserClient.phone_code_hash := sent_code;
               UserClient.step := chars "otp" |}.
Proof.
  intros b1 r H W C S. subst r b1.
  unfold Bot.with_manager, on. rewrite logout_cases, delete_user_session_cases, W.
  set (m := Bot.user_manager b) in *.
  assert (G : forall m' : UserClient.UserClientManager,
             UserClient.active_clients m' !! user = None ->
             UserClient.db m'
             = Database.set_users (alter Database.deactivate user) (UserClient.db m) ->
             UserClient.next_client m' = UserClient.next_client m ->
             let r := Bot.login_command env' user [cmd; phone]
                        (Bot.set_user_manager m' b) in
             fst r = Ret (Bot.OtpSent
                            (chars "OTP sent to " ++ Bot.with_country_mark phone
                             ++ chars ". Please enter the OTP code."))
             /\ UserClient.pending_logins (Bot.user_manager (snd r)) !! user
                = Some {| UserClient.client := UserClient.next_client m;
                          UserClient.phone_number := Bot.with_country_mark phone;
                          UserClient.phone_code_hash := sent_code;
                          UserClient.step := chars "otp" |}).
  { intros m' A D N r. subst r. unfold Bot.login_command, Bot.with_manager, bind, on, ret.
    cbn [Bot.user_manager Bot.set_user_manager].
    rewrite (get_client_logged_out env' user m m' A D).
    cbn [length Nat.ltb Nat.leb nth Bot.user_manager Bot.set_user_manager].
    rewrite (initiate_login_sent env' user _ m' sent_code C S).
    cbn [UserClient.success UserClient.ok UserClient.message default fst snd
         Bot.user_manager Bot.set_user_manager UserClient.pending_logins].
    split; [reflexivity|]. now rewrite lookup_insert_eq, N. }
  destruct (UserClient.active_clients m !! user) as [c|] eqn:A.
  - destruct H as [H|H]; [discriminate|]. rewrite H. cbn [fst snd].
    apply G; [apply lookup_delete_eq|reflexivity|reflexivity].
  - destruct (stop env); cbn [fst snd]; (apply G; [exact A|reflexivity|reflexivity]).
Qed.

Lemma logout_allows_a_new_login_witness :
  let b1 := snd (Bot.with_manager (UserClient.logout Samples.calm 7)
                   (Samples.logged_in None)) in
  fst (Bot.login_command Samples.calm 7 [chars "/login"; chars "222"] b1)
  = Ret (Bot.OtpSent (chars "OTP sent to +222. Please enter the OTP code.")).
Proof.
  destruct (logout_allows_a_new_login Samples.calm Samples.calm 7 (chars "/login")
              (chars "222") (chars "hash2") (Samples.logged_in None)
              (or_intror eq_refl) eq_refl eq_refl eq_refl) as [H _].
  exact H.
Defined.
